(** * TurboPipeline: keyword extraction, keyword cache and bullet distribution

    A shallow embedding of [turbo-pipeline.js] (the keyword cache, the
    extractor [ultraFastExtraction] / [turboExtractKeywords] and the
    distributor [distributeHighPriorityKeywords]) together with the
    properties the specification states about them, followed by the
    tailoring functions [fastTailorWorkExperience] and [turboTailorCV],
    the pipeline [executeTurboPipeline] and further properties of the
    whole file.

    Conventions of the embedding.
    - A JavaScript string is the list of its UTF-16 code units ([N]).
    - Counts, indices and array lengths are [nat], the options
      [maxKeywords] and [maxKeywordsPerBullet] included; the module
      [IntCap] repeats the functions that read these two options with an
      integer, which may be negative.
    - Scores are binary64 numbers, here non-negative integers or
      [+Infinity], kept in [Z] with [F64.inf] for [+Infinity]; sums and
      products round as binary64 does ([F64.add], [F64.mul]).
    - A JavaScript [Map] is a list of key/value pairs in insertion order.
    - [Date.now()] and [Math.random()] are inputs: a time stamp is passed
      to the cache functions and a stream of draws to the distributor.
    - The [timing] fields ([performance.now()]) and the console output are
      not part of the model.
    - Case mapping ([toLowerCase], the [i] flag of a pattern) is modelled
      on the code units below 128, every other unit being left as it is.
      [Js.isPlain] marks the strings on which this is the mapping of
      JavaScript: units below 128, white space, and the bullet glyphs of
      the source, none of which has a case outside [A-Za-z].  Properties
      that compare letter cases are stated for such strings.
    - [global.UniqueCVEngine], which is not part of the file, is an
      optional function argument of [turboTailorCV] and of the pipeline. *)

From Stdlib Require Import ZArith NArith QArith Qround Lia String Ascii.
From Stdlib Require Floats DecimalNat Sorted.
From stdpp Require Import base numbers list option.

Local Open Scope nat_scope.

(** ** JavaScript strings *)

Module Js.

Definition jsstring := list N.

(** A string literal of the source, as code units. *)
Definition lit (s : string) : jsstring :=
  (fun a => N_of_ascii a) <$> list_ascii_of_string s.

Definition NL : N := 10%N.

(** [\s]: WhiteSpace and LineTerminator of ECMAScript. *)
Definition isSpace (c : N) : bool :=
  ((9 <=? c) && (c <=? 13) || (c =? 32) || (c =? 160) || (c =? 0x1680)
   || (0x2000 <=? c) && (c <=? 0x200A) || (c =? 0x2028) || (c =? 0x2029)
   || (c =? 0x202F) || (c =? 0x205F) || (c =? 0x3000) || (c =? 0xFEFF))%N.

Definition isDigit (c : N) : bool := ((48 <=? c) && (c <=? 57))%N.
Definition isLower (c : N) : bool := ((97 <=? c) && (c <=? 122))%N.
Definition isUpper (c : N) : bool := ((65 <=? c) && (c <=? 90))%N.

(** [\w] *)
Definition isWord (c : N) : bool :=
  isLower c || isUpper c || isDigit c || (c =? 95)%N.

Definition lowerUnit (c : N) : N := if isUpper c then (c + 32)%N else c.
Definition upperUnit (c : N) : N := if isLower c then (c - 32)%N else c.

Definition toLowerCase (s : jsstring) : jsstring := lowerUnit <$> s.

(** The units on which [lowerUnit] and [upperUnit] are the case mappings
    of JavaScript: the units below 128, the white space, and the bullet
    glyphs U+2022, U+25AA and U+25B8 of the source. *)
Definition plainUnit (c : N) : bool :=
  ((c <? 128) || isSpace c || (c =? 0x2022) || (c =? 0x25AA) || (c =? 0x25B8))%N.

Definition isPlain (s : jsstring) : bool := forallb plainUnit s.

Definition eqb (a b : jsstring) : bool := bool_decide (a = b).

(** [arr.slice(a, b)] and [arr.slice(a)] for non-negative indices. *)
Definition slice {A} (a b : nat) (l : list A) : list A := take (b - a) (drop a l).
Definition sliceFrom {A} (a : nat) (l : list A) : list A := drop a l.

(** [s.substring(a, b)]: the two indices are swapped when [a > b]. *)
Definition substring (a b : nat) (s : jsstring) : jsstring :=
  take (Nat.max a b - Nat.min a b) (drop (Nat.min a b) s).
Definition substringFrom (a : nat) (s : jsstring) : jsstring := drop a s.

(** [arr.slice(0, -1)] and [arr.slice(-1)]. *)
Definition dropLast {A} (l : list A) : list A := take (length l - 1) l.
Definition lastOnly {A} (l : list A) : list A := drop (length l - 1) l.

Definition endsWith (c : N) (s : jsstring) : bool :=
  match list.last s with Some d => (d =? c)%N | None => false end.

Fixpoint trimStart (s : jsstring) : jsstring :=
  match s with
  | c :: s' => if isSpace c then trimStart s' else s
  | [] => []
  end.
Definition trimEnd (s : jsstring) : jsstring := reverse (trimStart (reverse s)).
Definition trim (s : jsstring) : jsstring := trimEnd (trimStart s).

(** [s.includes(p)] *)
Fixpoint startsWith (p s : jsstring) : bool :=
  match p, s with
  | [], _ => true
  | a :: p', c :: s' => (a =? c)%N && startsWith p' s'
  | _ :: _, [] => false
  end.
Fixpoint includes (p s : jsstring) : bool :=
  startsWith p s || match s with [] => false | _ :: s' => includes p s' end.

(** [s.split(sep)] for a one-unit separator. *)
Fixpoint split (sep : N) (s : jsstring) : list jsstring :=
  match s with
  | [] => [[]]
  | c :: s' =>
      if (c =? sep)%N then [] :: split sep s'
      else match split sep s' with
           | l :: ls => (c :: l) :: ls
           | [] => [[c]]
           end
  end.

(** [s.split(/\s+/)]: [inSep] records that the previous unit was a separator. *)
Fixpoint splitSpaces (inSep : bool) (s : jsstring) : list jsstring :=
  match s with
  | [] => [[]]
  | c :: s' =>
      if isSpace c then
        (if inSep then splitSpaces true s' else [] :: splitSpaces true s')
      else match splitSpaces false s' with
           | l :: ls => (c :: l) :: ls
           | [] => [[c]]
           end
  end.

(** [arr.join(sep)] *)
Fixpoint join (sep : jsstring) (l : list jsstring) : jsstring :=
  match l with
  | [] => []
  | [x] => x
  | x :: l' => x ++ sep ++ join sep l'
  end.

(** The decimal rendering of a length, as in [String(n)]. *)
Fixpoint digits (u : Decimal.uint) : jsstring :=
  match u with
  | Decimal.Nil => []
  | Decimal.D0 u => 48%N :: digits u
  | Decimal.D1 u => 49%N :: digits u
  | Decimal.D2 u => 50%N :: digits u
  | Decimal.D3 u => 51%N :: digits u
  | Decimal.D4 u => 52%N :: digits u
  | Decimal.D5 u => 53%N :: digits u
  | Decimal.D6 u => 54%N :: digits u
  | Decimal.D7 u => 55%N :: digits u
  | Decimal.D8 u => 56%N :: digits u
  | Decimal.D9 u => 57%N :: digits u
  end.
Definition ofNat (n : nat) : jsstring := digits (Nat.to_uint n).

End Js.

Import Js.

(** ** Regular expressions

    The fragment the source uses: literals, one-unit classes (none of
    them holds a letter, so the [i] flag leaves them alone), greedy stars
    of a class, sequence, alternation, [^] (without the [m] flag) and
    [\b].  Matching is the backtracking search of ECMAScript: the
    continuation [k] is the rest of the pattern, and an alternative or a
    shorter star is tried only when the continuation fails.  [prev] is the
    unit before the current position. *)

Module Regex.

Inductive regex : Type :=
| Bol
| WordB
| Cls (p : N -> bool)
| Lit (s : jsstring)
| StarCls (p : N -> bool)
| Seq (a b : regex)
| Alt (a b : regex).

Definition cont := option N -> jsstring -> option nat.

(** Canonicalize of the [i] flag. *)
Definition canon (i : bool) (c : N) : N := if i then upperUnit c else c.

Definition isWordAt (o : option N) : bool :=
  match o with Some c => isWord c | None => false end.

Fixpoint matchLit (i : bool) (l : jsstring) (prev : option N) (s : jsstring)
    (k : cont) : option nat :=
  match l with
  | [] => k prev s
  | a :: l' =>
      match s with
      | c :: s' => if (canon i a =? canon i c)%N then matchLit i l' (Some c) s' k else None
      | [] => None
      end
  end.

Fixpoint matchStar (p : N -> bool) (prev : option N) (s : jsstring)
    (k : cont) : option nat :=
  match s with
  | c :: s' =>
      if p c then
        match matchStar p (Some c) s' k with
        | Some r => Some r
        | None => k prev s
        end
      else k prev s
  | [] => k prev s
  end.

Fixpoint rmatch (i : bool) (r : regex) (prev : option N) (s : jsstring)
    (k : cont) : option nat :=
  match r with
  | Bol => match prev with None => k prev s | Some _ => None end
  | WordB => if xorb (isWordAt prev) (isWordAt (head s)) then k prev s else None
  | Cls p =>
      match s with
      | c :: s' => if p c then k (Some c) s' else None
      | [] => None
      end
  | Lit l => matchLit i l prev s k
  | StarCls p => matchStar p prev s k
  | Seq a b => rmatch i a prev s (fun prev' s' => rmatch i b prev' s' k)
  | Alt a b =>
      match rmatch i a prev s k with
      | Some r => Some r
      | None => rmatch i b prev s k
      end
  end.

(** [re.exec(s)]: the leftmost match, as [(index, length of match[0])]. *)
Fixpoint execFrom (i : bool) (r : regex) (idx : nat) (prev : option N)
    (s : jsstring) : option (nat * nat) :=
  match rmatch i r prev s (fun _ s' => Some (length s')) with
  | Some rest => Some (idx, length s - rest)
  | None =>
      match s with
      | [] => None
      | c :: s' => execFrom i r (S idx) (Some c) s'
      end
  end.

Definition exec (i : bool) (r : regex) (s : jsstring) : option (nat * nat) :=
  execFrom i r 0 None s.

(** [re.test(s)] on a fresh regular expression. *)
Definition test (i : bool) (r : regex) (s : jsstring) : bool :=
  match exec i r s with Some _ => true | None => false end.

Fixpoint alts (l : list regex) : regex :=
  match l with
  | [] => Cls (fun _ => false)
  | [r] => r
  | r :: l' => Alt r (alts l')
  end.

Fixpoint seqs (l : list regex) : regex :=
  match l with
  | [] => Lit []
  | [r] => r
  | r :: l' => Seq r (seqs l')
  end.

End Regex.

(** ** JavaScript [Map] with string keys: pairs in insertion order *)

Module JsMap.
Section JsMap.
Context {V : Type}.

Definition t := list (jsstring * V).

Definition empty : t := [].

Fixpoint get (k : jsstring) (m : t) : option V :=
  match m with
  | [] => None
  | (k', v) :: m' => if Js.eqb k k' then Some v else get k m'
  end.

(** [m.set(k, v)]: an existing key keeps its place, a new key goes last. *)
Fixpoint set (k : jsstring) (v : V) (m : t) : t :=
  match m with
  | [] => [(k, v)]
  | (k', v') :: m' => if Js.eqb k k' then (k', v) :: m' else (k', v') :: set k v m'
  end.

Fixpoint delete (k : jsstring) (m : t) : t :=
  match m with
  | [] => []
  | (k', v') :: m' => if Js.eqb k k' then m' else (k', v') :: delete k m'
  end.

Definition size (m : t) : nat := length m.
Definition keys (m : t) : list jsstring := fst <$> m.

(** [m.keys().next().value] *)
Definition firstKey (m : t) : option jsstring := head (keys m).

End JsMap.
Arguments t : clear implicits.
End JsMap.

(** ** Binary64 product of an array length and a decimal constant

    [Math.ceil(sorted.length * 0.45)] multiplies two binary64 numbers.  The
    length [n] is an exact integer and the constant is [m * 2^-54] with a
    53-bit significand [m]; the product is the exact integer [n * m]
    rounded to 53 significant bits, ties to even, and scaled by [2^-54]. *)

Module F64.
Local Open Scope Z_scope.

(** 0.45 is 0x3FDCCCCCCCCCCCCD and 0.35 is 0x3FD6666666666666. *)
Definition sig045 : Z := 0x1CCCCCCCCCCCCD.
Definition sig035 : Z := 0x16666666666666.

(** Round the non-negative integer [p] to 53 significant bits, ties to
    even: the result is [(q, k)], standing for [q * 2^k]. *)
Definition round53 (p : Z) : Z * Z :=
  let k := Z.log2 p - 52 in
  if k <=? 0 then (p, 0)
  else
    let q := p / 2 ^ k in
    let r := p mod 2 ^ k in
    let half := 2 ^ (k - 1) in
    if (half <? r) || ((r =? half) && Z.odd q) then (q + 1, k) else (q, k).

(** Scores.  The scores of the frequency table are binary64 numbers, each
    a non-negative integer or [+Infinity]; a score is kept as that integer,
    [inf] = 2^1024, the first power of two beyond the finite numbers,
    standing for [+Infinity].  The binary64 sum or product of two such
    numbers is their exact sum or product rounded to 53 significant bits,
    ties to even, and [+Infinity] from 2^1024 on; [Infinity + x] and
    [Infinity * x] ([x >= 1]) are [Infinity]. *)
Definition inf : Z := 2 ^ 1024.

Definition rnd (p : Z) : Z :=
  let '(q, k) := round53 p in Z.min (q * 2 ^ k) inf.

Definition add (a b : Z) : Z := rnd (a + b).
Definition mul (a b : Z) : Z := rnd (a * b).

(** [Math.ceil(n * c)] for [c = sig * 2^-54]. *)
Definition ceilMul (n : nat) (sig : Z) : nat :=
  let '(q, k) := round53 (Z.of_nat n * sig) in
  Z.to_nat ((q * 2 ^ k + 2 ^ 54 - 1) / 2 ^ 54).

(** The same product on the binary64 numbers of the kernel, decoded as
    [(significand, exponent)]; [round53] is checked against it below. *)
Definition decode (x : PrimFloat.float) : option (Z * Z) :=
  match FloatOps.Prim2SF x with
  | SpecFloat.S754_zero _ => Some (0, 0)
  | SpecFloat.S754_finite false sig e => Some (Z.pos sig, e)
  | _ => None
  end.

Definition primProduct (n : nat) (c : PrimFloat.float) : option (Z * Z) :=
  decode (PrimFloat.mul (PrimFloat.of_uint63 (Uint63.of_Z (Z.of_nat n))) c).

(** [Math.ceil(m / b)] on the binary64 numbers of the kernel. *)
Definition primCeilQuotient (m b : nat) : option Z :=
  match decode (PrimFloat.div (PrimFloat.of_uint63 (Uint63.of_Z (Z.of_nat m)))
                  (PrimFloat.of_uint63 (Uint63.of_Z (Z.of_nat b)))) with
  | Some (sig, e) =>
      Some (if 0 <=? e then sig * 2 ^ e else (sig + 2 ^ (- e) - 1) / 2 ^ (- e))
  | None => None
  end.

(** A binary64 number of the kernel read as a score; [None] when it is
    negative, not an integer, or not a number. *)
Definition ofFloat (x : PrimFloat.float) : option Z :=
  match FloatOps.Prim2SF x with
  | SpecFloat.S754_zero _ => Some 0
  | SpecFloat.S754_finite false sig e =>
      if 0 <=? e then Some (Z.pos sig * 2 ^ e)
      else if Z.pos sig mod 2 ^ (- e) =? 0 then Some (Z.pos sig / 2 ^ (- e))
      else None
  | SpecFloat.S754_infinity false => Some inf
  | _ => None
  end.

(** [round53] and [rnd] computed with shifts and masks, for long runs on
    large scores; they are equal to the ones above. *)
Definition round53Shift (p : Z) : Z * Z :=
  let k := Z.log2 p - 52 in
  if k <=? 0 then (p, 0)
  else
    let q := Z.shiftr p k in
    let r := Z.land p (Z.ones k) in
    let half := Z.shiftl 1 (k - 1) in
    if (half <? r) || ((r =? half) && Z.odd q) then (q + 1, k) else (q, k).

Definition rndShift (p : Z) : Z :=
  let '(q, k) := round53Shift p in Z.min (Z.shiftl q k) inf.

(** The scores of [n] occurrences of a technical term on the kernel's
    numbers, each with the model's score: [(model, kernel)] from the
    [n]-th occurrence back to none.  [round] is the rounding of the
    model's sums and products, [rnd]. *)
Fixpoint technicalScoresWith (round : Z -> Z) (n : nat)
    : list (Z * PrimFloat.float) :=
  match n with
  | O => [(0, PrimFloat.of_uint63 (Uint63.of_Z 0))]
  | S n' =>
      match technicalScoresWith round n' with
      | (s, x) :: rest =>
          (round (round (s + 1) * 5),
           PrimFloat.mul (PrimFloat.add x (PrimFloat.of_uint63 (Uint63.of_Z 1)))
             (PrimFloat.of_uint63 (Uint63.of_Z 5)))
            :: (s, x) :: rest
      | [] => []
      end
  end.

Definition technicalScores : nat -> list (Z * PrimFloat.float) :=
  technicalScoresWith rnd.

(** The model's operations agree with the kernel's at [(s, x)]: the score
    itself, [s + 1], [(s + 1) * 1] and [s + 10]. *)
Definition sameScoresWith (round : Z -> Z) (sx : Z * PrimFloat.float) : bool :=
  let one := PrimFloat.of_uint63 (Uint63.of_Z 1) in
  let ten := PrimFloat.of_uint63 (Uint63.of_Z 10) in
  bool_decide (ofFloat sx.2 = Some sx.1)
  && bool_decide (ofFloat (PrimFloat.add sx.2 one) = Some (round (sx.1 + 1)))
  && bool_decide (ofFloat (PrimFloat.mul (PrimFloat.add sx.2 one) one)
                  = Some (round (round (sx.1 + 1) * 1)))
  && bool_decide (ofFloat (PrimFloat.add sx.2 ten) = Some (round (sx.1 + 10))).

Definition sameScores : Z * PrimFloat.float -> bool := sameScoresWith rnd.

(** Scores at which a sum stops being exact. *)
Definition edgeScores : list (Z * PrimFloat.float) :=
  (fun z => (z, PrimFloat.of_uint63 (Uint63.of_Z z)))
    <$> [2 ^ 53 - 11; 2 ^ 53 - 1; 2 ^ 53; 2 ^ 53 + 2; 2 ^ 53 + 4; 2 ^ 60].

(** [q * 2^(k - 54)] and [sig * 2^e] are the same number. *)
Definition sameNumber (qk : Z * Z) (se : option (Z * Z)) : bool :=
  match se with
  | Some (sig, e) => qk.1 * 2 ^ (qk.2 - 54 + 1100) =? sig * 2 ^ (e + 1100)
  | None => false
  end.

End F64.

(** ** Keyword extraction *)

Record KeywordSet : Type := mkKeywordSet {
  all : list jsstring;
  highPriority : list jsstring;
  mediumPriority : list jsstring;
  lowPriority : list jsstring;
  workExperience : list jsstring;
  total : nat
}.

Definition has (set : list jsstring) (w : jsstring) : bool :=
  existsb (Js.eqb w) set.

Definition stopWords : list jsstring := lit <$> [
  "a";"an";"the";"and";"or";"but";"in";"on";"at";"to";"for";"of";"with";"by";"from";
  "as";"is";"was";"are";"were";"been";"be";"have";"has";"had";"do";"does";"did";
  "will";"would";"could";"should";"may";"might";"must";"can";"need";"this";"that";
  "you";"your";"we";"our";"they";"their";"work";"working";"job";"position";"role";
  "team";"company";"opportunity";"looking";"seeking";"required";"requirements";
  "preferred";"ability";"able";"experience";"years";"year";"including";"new";
  "strong";"excellent";"highly";"etc";"also";"via";"across";"ensure";"join"
]%string.

Definition softSkillsToExclude : list jsstring := lit <$> [
  "collaboration";"communication";"teamwork";"leadership";"initiative";"proactive";
  "ownership";"responsibility";"commitment";"passion";"dedication";"motivation";
  "self-starter";"detail-oriented";"problem-solving";"critical thinking";
  "time management";"adaptability";"flexibility";"creativity";"innovation";
  "interpersonal";"organizational";"multitasking";"prioritization";"reliability";
  "accountability";"integrity";"professionalism";"work ethic";"positive attitude";
  "enthusiasm";"driven";"dynamic";"results-oriented";"goal-oriented";"mission";
  "continuous learning";"debugging";"testing";"documentation";"system integration";
  "goodjob";"sidekiq";"canvas";"salesforce"
]%string.

Definition technicalPatterns : list jsstring := lit <$> [
  "python";"java";"javascript";"typescript";"ruby";"rails";"react";"node";"nodejs";
  "aws";"azure";"gcp";"google cloud";"kubernetes";"docker";"terraform";"ansible";
  "postgresql";"postgres";"mysql";"mongodb";"redis";"elasticsearch";"bigquery";
  "spark";"airflow";"kafka";"dbt";"snowflake";"databricks";"mlops";"devops";
  "ci/cd";"github";"gitlab";"jenkins";"circleci";"agile";"scrum";"jira";"confluence";
  "pytorch";"tensorflow";"scikit-learn";"pandas";"numpy";"sql";"nosql";"graphql";
  "rest";"api";"microservices";"serverless";"lambda";"ecs";"eks";"s3";"rds";
  "machine learning";"data science";"data engineering";"deep learning";"nlp";"llm";
  "genai";"ai";"ml";"computer vision";"data pipelines";"etl";"data modeling";
  "tableau";"power bi";"looker";"heroku";"vercel";"netlify";"linux";"unix";"bash";
  "git";"svn";"html";"css";"sass";"webpack";"vite";"nextjs";"vue";"angular";
  "swift";"kotlin";"flutter";"react native";"ios";"android";"mobile";"frontend";
  "backend";"fullstack";"full-stack";"sre";"infrastructure";"networking";"security";
  "oauth";"jwt";"encryption";"compliance";"gdpr";"hipaa";"soc2";"pci";"prince2";
  "cbap";"pmp";"certified";"certification";".net";"c#";"go";"scala"
]%string.

Definition multiWordPatterns : list jsstring := lit <$> [
  "project management"; "data science"; "machine learning"; "deep learning";
  "data engineering"; "cloud platform"; "google cloud platform"; "agile/scrum";
  "a/b testing"; "ci/cd"; "real-time"; "data pipelines"; "ruby on rails";
  "node.js"; "react.js"; "vue.js"; "next.js"; "full stack"; "full-stack";
  "natural language processing"; "computer vision"; "artificial intelligence";
  ".net core"; "software development"; "full-stack development"
]%string.

(** The class [[a-z0-9\s\-\/\.#\+]] of the cleaning [replace]. *)
Definition keptUnit (c : N) : bool :=
  isLower c || isDigit c || isSpace c
  || (c =? 45)%N || (c =? 47)%N || (c =? 46)%N || (c =? 35)%N || (c =? 43)%N.

Definition cleanUnit (c : N) : N := if keptUnit c then c else 32%N.

(** [text.toLowerCase().replace(...).split(/\s+/).filter(...)] *)
Definition extractWords (text : jsstring) : list jsstring :=
  List.filter
    (fun w => (2 <=? length w) && negb (has stopWords w) && negb (has softSkillsToExclude w))
    (splitSpaces false (cleanUnit <$> toLowerCase text)).

(** [freq.get(k) || 0] *)
Definition getOr0 (k : jsstring) (freq : JsMap.t Z) : Z :=
  match JsMap.get k freq with
  | Some v => v
  | None => 0%Z
  end.

Definition boostOf (word : jsstring) : Z :=
  if has technicalPatterns word then 5%Z else 1%Z.

(** The body of [words.forEach(word => ...)]; [count] and [count * boost]
    are binary64 numbers. *)
Definition countWord (freq : JsMap.t Z) (word : jsstring) : JsMap.t Z :=
  if has technicalPatterns word || (4 <? length word) then
    let count := F64.add (getOr0 word freq) 1 in
    let boost := boostOf word in
    JsMap.set word (F64.mul count boost) freq
  else freq.

Definition frequencyPass (words : list jsstring) : JsMap.t Z :=
  foldl countWord JsMap.empty words.

(** The body of [multiWordPatterns.forEach(phrase => ...)]. *)
Definition addPhrase (textLower : jsstring) (freq : JsMap.t Z) (phrase : jsstring)
    : JsMap.t Z :=
  if includes phrase textLower
  then JsMap.set phrase (F64.add (getOr0 phrase freq) 10) freq
  else freq.

(** [arr.sort((a, b) => b[1] - a[1])]: the sort is stable, so an entry is
    placed before the first later entry it does not have to follow.  The
    binary64 difference of two scores has the sign of the exact one, and
    [Infinity - Infinity], which is not a number, counts as 0 in a
    comparator, as the difference of [F64.inf] with itself does. *)
Fixpoint insertByScore (x : jsstring * Z) (l : list (jsstring * Z))
    : list (jsstring * Z) :=
  match l with
  | [] => [x]
  | y :: l' =>
      if (y.2 - x.2 <=? 0)%Z then x :: y :: l' else y :: insertByScore x l'
  end.

Fixpoint sortByScore (l : list (jsstring * Z)) : list (jsstring * Z) :=
  match l with
  | [] => []
  | x :: l' => insertByScore x (sortByScore l')
  end.

Definition sortedKeywords (text : jsstring) (maxKeywords : nat) : list jsstring :=
  let freq := frequencyPass (extractWords text) in
  let freq := foldl (addPhrase (toLowerCase text)) freq multiWordPatterns in
  Js.slice 0 maxKeywords
    ((fun e => e.1) <$>
       sortByScore (List.filter (fun e => negb (has softSkillsToExclude e.1)) freq)).

(** [Math.min(15, Math.ceil(sorted.length * 0.45))] and
    [Math.min(10, Math.ceil(sorted.length * 0.35))]. *)
Definition highCountOf (n : nat) : nat := Nat.min 15 (F64.ceilMul n F64.sig045).
Definition medCountOf (n : nat) : nat := Nat.min 10 (F64.ceilMul n F64.sig035).

Definition ultraFastExtraction (text : jsstring) (maxKeywords : nat) : KeywordSet :=
  let sorted := sortedKeywords text maxKeywords in
  let highCount := highCountOf (length sorted) in
  let medCount := medCountOf (length sorted) in
  {| all := sorted;
     highPriority := Js.slice 0 highCount sorted;
     mediumPriority := Js.slice highCount (highCount + medCount) sorted;
     lowPriority := Js.sliceFrom (highCount + medCount) sorted;
     workExperience := Js.slice 0 15 sorted;
     total := length sorted |}.

(** ** The keyword cache *)

Record CacheEntry : Type := mkCacheEntry {
  keywords : KeywordSet;
  timestamp : Z
}.

Definition Cache := JsMap.t CacheEntry.

Definition MAX_CACHE_SIZE : nat := 100.
Definition CACHE_EXPIRY_MS : Z := (30 * 60 * 1000)%Z.

Definition getCacheKey (jobUrl text : jsstring) : jsstring :=
  match jobUrl with
  | _ :: _ => jobUrl
  | [] => Js.substring 0 200 text ++ lit "_" ++ Js.ofNat (length text)
  end.

Definition getCachedKeywords (keywordCache : Cache) (now : Z) (jobUrl text : jsstring)
    : option KeywordSet :=
  let key := getCacheKey jobUrl text in
  match JsMap.get key keywordCache with
  | Some cached =>
      if (now - timestamp cached <? CACHE_EXPIRY_MS)%Z then Some (keywords cached)
      else None
  | None => None
  end.

Definition setCachedKeywords (keywordCache : Cache) (now : Z) (jobUrl text : jsstring)
    (kws : KeywordSet) : Cache :=
  let key := getCacheKey jobUrl text in
  let keywordCache :=
    if MAX_CACHE_SIZE <=? JsMap.size keywordCache then
      match JsMap.firstKey keywordCache with
      | Some firstKey => JsMap.delete firstKey keywordCache
      | None => keywordCache
      end
    else keywordCache in
  JsMap.set key {| keywords := kws; timestamp := now |} keywordCache.

(** ** [turboExtractKeywords] *)

Record ExtractOptions : Type := mkExtractOptions {
  jobUrl : option jsstring;
  maxKeywords : option nat
}.

Record ExtractResult : Type := mkExtractResult {
  keywordSet : KeywordSet;
  fromCache : option bool
}.

Definition emptyKeywordSet : KeywordSet :=
  {| all := []; highPriority := []; mediumPriority := []; lowPriority := [];
     workExperience := []; total := 0 |}.

(** [jobDescription] is [None] when the argument is [undefined] or [null].
    [tGet] and [tSet] are the two readings of [Date.now()]. *)
Definition turboExtractKeywords (keywordCache : Cache) (tGet tSet : Z)
    (jobDescription : option jsstring) (options : ExtractOptions)
    : ExtractResult * Cache :=
  let url := default [] (jobUrl options) in
  let maxKw := default 35 (maxKeywords options) in
  match jobDescription with
  | None => ({| keywordSet := emptyKeywordSet; fromCache := None |}, keywordCache)
  | Some jd =>
      if (length jd =? 0) || (length jd <? 50) then
        ({| keywordSet := emptyKeywordSet; fromCache := None |}, keywordCache)
      else
        match getCachedKeywords keywordCache tGet url jd with
        | Some cached => ({| keywordSet := cached; fromCache := Some true |}, keywordCache)
        | None =>
            let result := ultraFastExtraction jd maxKw in
            ({| keywordSet := result; fromCache := Some false |},
             setCachedKeywords keywordCache tSet url jd result)
        end
  end.

(** ** Keyword distribution *)

Module Stats.
Record t : Type := mk {
  total : nat;
  alreadyPresent : nat;
  added : nat;
  missing : nat
}.
End Stats.

(** The [distributionStats] object: [{}] on the guard path, the four
    counters otherwise.  [statsField] reads a property ([None] for
    [undefined]). *)
Inductive StatsObj : Type :=
| EmptyObj
| StatsOf (s : Stats.t).

Definition statsField (f : Stats.t -> nat) (o : StatsObj) : option nat :=
  match o with
  | EmptyObj => None
  | StatsOf s => Some (f s)
  end.

Record DistOptions : Type := mkDistOptions {
  maxBulletsPerRole : option nat;
  maxKeywordsPerBullet : option nat
}.

Record DistResult : Type := mkDistResult {
  tailoredCV : option jsstring;
  distributionStats : StatsObj
}.

Import Regex.

(** [new RegExp(`\\b${escaped kw}\\b`, 'gi')]: every syntax character of
    [kw] is escaped, so the pattern is the literal keyword between two
    word boundaries. *)
Definition keywordRegex (kw : jsstring) : regex := seqs [WordB; Lit kw; WordB].

Definition isPresent (cvLower kw : jsstring) : bool :=
  Regex.test true (keywordRegex kw) cvLower.

Definition presentKeywords (cvText : jsstring) (allKeywords : list jsstring)
    : list jsstring :=
  List.filter (fun kw => isPresent (toLowerCase cvText) kw) allKeywords.

Definition missingKeywords (cvText : jsstring) (allKeywords : list jsstring)
    : list jsstring :=
  List.filter (fun kw => negb (isPresent (toLowerCase cvText) kw)) allKeywords.

Definition spaceOrColon (c : N) : bool := isSpace c || (c =? 58)%N.

(** [/\n(A|B|...)[\s:]*\n/im] *)
Definition headingRegex (names : list regex) : regex :=
  seqs [Lit [NL]; alts names; StarCls spaceOrColon; Lit [NL]].

Definition experienceHeading : regex :=
  headingRegex
    [ Lit (lit "EXPERIENCE");
      seqs [Lit (lit "WORK"); StarCls isSpace; Lit (lit "EXPERIENCE")];
      Lit (lit "EMPLOYMENT");
      seqs [Lit (lit "PROFESSIONAL"); StarCls isSpace; Lit (lit "EXPERIENCE")] ].

Definition nextSectionHeading : regex :=
  headingRegex
    [ Lit (lit "SKILLS"); Lit (lit "EDUCATION"); Lit (lit "CERTIFICATIONS");
      Lit (lit "PROJECTS");
      seqs [Lit (lit "TECHNICAL"); StarCls isSpace; Lit (lit "PROFICIENCIES")] ].

(** [expStart] and [expEnd], or [None] when [expMatch] is null. *)
Definition experienceBounds (tailoredCV : jsstring) : option (nat * nat) :=
  match Regex.exec true experienceHeading tailoredCV with
  | None => None
  | Some (index, len) =>
      let expStart := index + len in
      let afterExp := Js.substringFrom expStart tailoredCV in
      let expEnd :=
        match Regex.exec true nextSectionHeading afterExp with
        | Some (nextIndex, _) => expStart + nextIndex
        | None => length tailoredCV
        end in
      Some (expStart, expEnd)
  end.

Definition BULLET : N := 0x2022%N.

Definition isBulletGlyph (c : N) : bool :=
  ((c =? 45) || (c =? BULLET) || (c =? 42) || (c =? 0x25AA) || (c =? 0x25B8))%N.

(** [/^[-•*▪▸]\s/.test(lines[i].trim())] *)
Definition isBulletLine (line : jsstring) : bool :=
  Regex.test false (seqs [Bol; Cls isBulletGlyph; Cls isSpace]) (Js.trim line).

Fixpoint bulletLinesFrom (i : nat) (lines : list jsstring) : list nat :=
  match lines with
  | [] => []
  | line :: rest =>
      if isBulletLine line then i :: bulletLinesFrom (S i) rest
      else bulletLinesFrom (S i) rest
  end.

Definition bulletLinesOf (lines : list jsstring) : list nat := bulletLinesFrom 0 lines.

Definition phrases : list jsstring := lit <$> [
  "leveraging"; "utilizing"; "implementing"; "applying"; "with expertise in";
  "through"; "incorporating"; "employing"; "using"; "via"
]%string.

(** [getPhrase()]: [draw] is the value of
    [Math.floor(Math.random() * phrases.length)], taken modulo the length so
    that every stream of draws is a source. *)
Definition getPhrase (draw : nat) : jsstring :=
  default [] (phrases !! (draw mod length phrases)).

(** [Math.ceil(missingKeywords.length / bulletLines.length)]; the binary64
    quotient of two lengths has the ceiling of the exact quotient. *)
Definition keywordsPerBulletOf (m b : nat) : nat := (m + b - 1) / b.

Definition renderInjection (phrase : jsstring) (kwsToAdd : list jsstring) : jsstring :=
  match kwsToAdd with
  | [k0] => lit ", " ++ phrase ++ lit " " ++ k0
  | [k0; k1] => lit " " ++ phrase ++ lit " " ++ k0 ++ lit " and " ++ k1
  | _ =>
      lit " " ++ phrase ++ lit " " ++ Js.join (lit ", ") (dropLast kwsToAdd)
        ++ lit ", and " ++ Js.join (lit ",") (lastOnly kwsToAdd)
  end.

Definition appendInjection (line injection : jsstring) : jsstring :=
  if endsWith 46%N line then dropLast line ++ injection ++ lit "."
  else trimEnd line ++ injection.

(** The variables of the injection loop; [drawn] counts the calls of
    [getPhrase]. *)
Record DistState : Type := mkDistState {
  lines : list jsstring;
  keywordIndex : nat;
  addedCount : nat;
  drawn : nat
}.

(** [for (i = 0; i < bulletLines.length && keywordIndex < missingKeywords.length; i++)],
    on the bullets still to visit. *)
Fixpoint injectBullets (rand : nat -> nat) (cap perBullet : nat)
    (missingKws : list jsstring) (bulletLines : list nat) (st : DistState)
    : DistState :=
  match bulletLines with
  | [] => st
  | lineIdx :: rest =>
      if keywordIndex st <? length missingKws then
        let line := default [] (lines st !! lineIdx) in
        let numToAdd :=
          Nat.min cap (Nat.min perBullet (length missingKws - keywordIndex st)) in
        let kwsToAdd :=
          Js.slice (keywordIndex st) (keywordIndex st + numToAdd) missingKws in
        let keywordIndex' := keywordIndex st + numToAdd in
        if length kwsToAdd =? 0 then
          injectBullets rand cap perBullet missingKws rest
            {| lines := lines st; keywordIndex := keywordIndex';
               addedCount := addedCount st; drawn := drawn st |}
        else
          let phrase := getPhrase (rand (drawn st)) in
          let line := appendInjection line (renderInjection phrase kwsToAdd) in
          injectBullets rand cap perBullet missingKws rest
            {| lines := <[lineIdx := line]> (lines st); keywordIndex := keywordIndex';
               addedCount := addedCount st + length kwsToAdd; drawn := S (drawn st) |}
      else st
  end.

(** [for (i = 0; i < remaining.length; i += 3) remaining.slice(i, i + 3)] *)
Fixpoint chunks3 (remaining : list jsstring) : list (list jsstring) :=
  match remaining with
  | [] => []
  | [a] => [[a]]
  | [a; b] => [[a; b]]
  | a :: b :: c :: rest => [a; b; c] :: chunks3 rest
  end.

Definition overflowBullet (chunk : list jsstring) : jsstring :=
  match chunk with
  | [k0] =>
      [BULLET] ++ lit " Implemented " ++ k0
        ++ lit " solutions to enhance operational efficiency and delivery outcomes"
  | [k0; k1] =>
      [BULLET] ++ lit " Applied " ++ k0 ++ lit " and " ++ k1
        ++ lit " methodologies to drive cross-functional improvements"
  | _ =>
      [BULLET] ++ lit " Delivered " ++ Js.join (lit ", ") (dropLast chunk)
        ++ lit ", and " ++ Js.join (lit ",") (lastOnly chunk)
        ++ lit " initiatives across technical teams"
  end.

(** [lines.splice(start, 0, ...items)] *)
Definition splice {A} (start : nat) (items l : list A) : list A :=
  take start l ++ items ++ drop start l.

(** The block [if (keywordIndex < missingKeywords.length) { ... }]. *)
Definition addOverflowBullets (missingKws : list jsstring) (bulletLines : list nat)
    (st : DistState) : DistState :=
  if keywordIndex st <? length missingKws then
    let remaining := Js.sliceFrom (keywordIndex st) missingKws in
    let chunks := chunks3 remaining in
    let newBullets := overflowBullet <$> chunks in
    let added' := addedCount st + sum_list (length <$> chunks) in
    let lines' :=
      if (0 <? length bulletLines) && (0 <? length newBullets) then
        let insertAfter :=
          default 0 (bulletLines !! Nat.min 4 (length bulletLines - 1)) in
        splice (insertAfter + 1) newBullets (lines st)
      else lines st in
    {| lines := lines'; keywordIndex := keywordIndex st; addedCount := added';
       drawn := drawn st + length chunks |}
  else st.

(** [cvText] and [allKeywords] are [None] when the argument is [undefined]
    or [null]. *)
Definition distributeHighPriorityKeywords (rand : nat -> nat)
    (cvText : option jsstring) (allKeywords : option (list jsstring))
    (options : DistOptions) : DistResult :=
  let cap := default 3 (maxKeywordsPerBullet options) in
  match cvText, allKeywords with
  | Some ((_ :: _) as text), Some ((_ :: _) as kws) =>
      let missingKws := missingKeywords text kws in
      let stats0 :=
        {| Stats.total := length kws;
           Stats.alreadyPresent := length (presentKeywords text kws);
           Stats.added := 0; Stats.missing := 0 |} in
      if length missingKws =? 0 then
        {| tailoredCV := Some text; distributionStats := StatsOf stats0 |}
      else
        match experienceBounds text with
        | None =>
            {| tailoredCV := Some text;
               distributionStats :=
                 StatsOf {| Stats.total := Stats.total stats0;
                            Stats.alreadyPresent := Stats.alreadyPresent stats0;
                            Stats.added := 0;
                            Stats.missing := length missingKws |} |}
        | Some (expStart, expEnd) =>
            let experienceSection := Js.substring expStart expEnd text in
            let lines0 := Js.split NL experienceSection in
            let bulletLines := bulletLinesOf lines0 in
            if length bulletLines =? 0 then
              {| tailoredCV := Some text;
                 distributionStats :=
                   StatsOf {| Stats.total := Stats.total stats0;
                              Stats.alreadyPresent := Stats.alreadyPresent stats0;
                              Stats.added := 0;
                              Stats.missing := length missingKws |} |}
            else
              let perBullet :=
                keywordsPerBulletOf (length missingKws) (length bulletLines) in
              let st :=
                injectBullets rand cap perBullet missingKws bulletLines
                  {| lines := lines0; keywordIndex := 0; addedCount := 0; drawn := 0 |} in
              let st := addOverflowBullets missingKws bulletLines st in
              {| tailoredCV :=
                   Some (Js.substring 0 expStart text ++ Js.join [NL] (lines st)
                           ++ Js.substringFrom expEnd text);
                 distributionStats :=
                   StatsOf {| Stats.total := Stats.total stats0;
                              Stats.alreadyPresent := Stats.alreadyPresent stats0;
                              Stats.added := addedCount st;
                              Stats.missing := Nat.max 0 (length missingKws - addedCount st) |} |}
        end
  | _, _ => {| tailoredCV := cvText; distributionStats := EmptyObj |}
  end.

(** ** [fastTailorWorkExperience] *)

Module WorkExp.

(** LineTerminator of ECMAScript: under the [m] flag [^] also matches
    after one and [$] before one. *)
Definition isLineTerminator (c : N) : bool :=
  ((c =? 10) || (c =? 13) || (c =? 0x2028) || (c =? 0x2029))%N.

(** A pattern in the continuation style of [Regex.rmatch]. *)
Definition matcher : Type := option N -> jsstring -> cont -> option nat.

Definition bolM : matcher := fun prev s k =>
  match prev with
  | None => k prev s
  | Some c => if isLineTerminator c then k prev s else None
  end.

Definition eolM : matcher := fun prev s k =>
  match s with
  | [] => k prev s
  | c :: _ => if isLineTerminator c then k prev s else None
  end.

(** [/^(A|B|...)[\s:]*$/im] *)
Definition headingLine (names : list regex) : matcher := fun prev s k =>
  bolM prev s (fun prev1 s1 =>
    rmatch true (Seq (alts names) (StarCls spaceOrColon)) prev1 s1
      (fun prev2 s2 => eolM prev2 s2 k)).

(** [re.exec(s)], as [Regex.execFrom]. *)
Fixpoint execFrom (m : matcher) (idx : nat) (prev : option N) (s : jsstring)
    : option (nat * nat) :=
  match m prev s (fun _ s' => Some (length s')) with
  | Some rest => Some (idx, length s - rest)
  | None =>
      match s with
      | [] => None
      | c :: s' => execFrom m (S idx) (Some c) s'
      end
  end.

Definition exec (m : matcher) (s : jsstring) : option (nat * nat) :=
  execFrom m 0 None s.

Definition experienceNames : list regex :=
  [ Lit (lit "EXPERIENCE");
    seqs [Lit (lit "WORK"); StarCls isSpace; Lit (lit "EXPERIENCE")];
    Lit (lit "EMPLOYMENT");
    seqs [Lit (lit "PROFESSIONAL"); StarCls isSpace; Lit (lit "EXPERIENCE")] ].

Definition nextSectionNames : list regex :=
  [ Lit (lit "SKILLS"); Lit (lit "EDUCATION"); Lit (lit "CERTIFICATIONS");
    Lit (lit "PROJECTS") ].

(** [expStart] and [expEnd], or [None] when [expMatch] is null. *)
Definition bounds (tailoredCV : jsstring) : option (nat * nat) :=
  match exec (headingLine experienceNames) tailoredCV with
  | None => None
  | Some (index, len) =>
      let expStart := index + len in
      let expEnd :=
        match exec (headingLine nextSectionNames)
                (Js.substringFrom expStart tailoredCV) with
        | Some (nextIndex, _) => expStart + nextIndex
        | None => length tailoredCV
        end in
      Some (expStart, expEnd)
  end.

Definition patterns : list jsstring := lit <$> [
  ", incorporating {} principles";
  " with focus on {}";
  ", leveraging {}";
  " utilizing {} methodologies";
  " through {} implementation"
]%string.

(** [s.indexOf(p)], [None] for [-1]. *)
Fixpoint indexOf (p s : jsstring) : option nat :=
  if Js.startsWith p s then Some 0
  else match s with
       | [] => None
       | _ :: s' => S <$> indexOf p s'
       end.

(** GetSubstitution for a string pattern (no captures): [$$] is a dollar
    sign, [$&] the matched text, [$`] the text before the match, [$'] the
    text after it; any other [$] stands for itself. *)
Fixpoint getSubstitution (matched before after template : jsstring) : jsstring :=
  match template with
  | [] => []
  | c :: t1 =>
      if (c =? 36)%N then
        match t1 with
        | d :: t2 =>
            if (d =? 36)%N then 36%N :: getSubstitution matched before after t2
            else if (d =? 38)%N then matched ++ getSubstitution matched before after t2
            else if (d =? 96)%N then before ++ getSubstitution matched before after t2
            else if (d =? 39)%N then after ++ getSubstitution matched before after t2
            else c :: getSubstitution matched before after t1
        | [] => [c]
        end
      else c :: getSubstitution matched before after t1
  end.

(** [s.replace(search, replacement)] for a string [search]: the first
    occurrence only. *)
Definition replaceString (search replacement s : jsstring) : jsstring :=
  match indexOf search s with
  | None => s
  | Some pos =>
      let before := take pos s in
      let after := drop (pos + length search) s in
      before ++ getSubstitution search before after replacement ++ after
  end.

Definition isDash (c : N) : bool := ((c =? 45) || (c =? BULLET) || (c =? 42))%N.

(** [/^[-•*]\s*/] *)
Definition bulletPrefix : regex := seqs [Bol; Cls isDash; StarCls isSpace].

(** [s.replace(re, '')] for a regular expression without the [g] flag. *)
Definition removeMatch (r : regex) (s : jsstring) : jsstring :=
  match Regex.exec false r s with
  | Some (index, len) => take index s ++ drop (index + len) s
  | None => s
  end.

(** [trimmed.startsWith('-') || trimmed.startsWith('•') || trimmed.startsWith('*')] *)
Definition isBullet (trimmed : jsstring) : bool :=
  Js.startsWith (lit "-") trimmed || Js.startsWith [BULLET] trimmed
  || Js.startsWith (lit "*") trimmed.

(** The variables the [map] callback shares: [keywordIndex], [injected]
    and the number of calls of [Math.random]. *)
Record state : Type := mkState {
  keywordIndex : nat;
  injected : list jsstring;
  drawn : nat
}.

Definition initial : state := {| keywordIndex := 0; injected := []; drawn := 0 |}.

(** [while (toInject.length < 3 && keywordIndex < missingKeywords.length)]:
    [queue] is [missingKeywords] from [keywordIndex] on. *)
Fixpoint collect (lineLower : jsstring) (queue toInject : list jsstring)
    (keywordIndex : nat) : list jsstring * nat :=
  match queue with
  | [] => (toInject, keywordIndex)
  | kw :: queue' =>
      if length toInject <? 3 then
        collect lineLower queue'
          (if negb (Js.includes (toLowerCase kw) lineLower) then toInject ++ [kw]
           else toInject)
          (S keywordIndex)
      else (toInject, keywordIndex)
  end.

Definition injectionOf (pattern : jsstring) (toInject : list jsstring) : jsstring :=
  if length toInject =? 1 then
    replaceString (lit "{}") (default [] (toInject !! 0)) pattern
  else
    replaceString (lit "{}")
      (Js.join (lit ", ") (Js.dropLast toInject) ++ lit " and "
         ++ Js.join (lit ",") (Js.lastOnly toInject))
      pattern.

(** The callback of [lines.map]. *)
Definition tailorLine (rand : nat -> nat) (missingKws : list jsstring)
    (st : state) (line : jsstring) : jsstring * state :=
  let trimmed := Js.trim line in
  if negb (isBullet trimmed) then (line, st)
  else if length missingKws <=? keywordIndex st then (line, st)
  else
    let '(toInject, keywordIndex') :=
      collect (toLowerCase line) (drop (keywordIndex st) missingKws) []
        (keywordIndex st) in
    if length toInject =? 0 then
      (line, {| keywordIndex := keywordIndex'; injected := injected st;
                drawn := drawn st |})
    else
      let pattern := default [] (patterns !! (rand (drawn st) mod length patterns)) in
      let bulletContent := removeMatch bulletPrefix trimmed in
      let injection := injectionOf pattern toInject in
      let bulletContent :=
        if Js.endsWith 46%N bulletContent
        then Js.dropLast bulletContent ++ injection ++ lit "."
        else bulletContent ++ injection in
      (lit "- " ++ bulletContent,
       {| keywordIndex := keywordIndex'; injected := injected st ++ toInject;
          drawn := S (drawn st) |}).

Fixpoint mapLines (rand : nat -> nat) (missingKws : list jsstring)
    (lines : list jsstring) (st : state) : list jsstring * state :=
  match lines with
  | [] => ([], st)
  | line :: rest =>
      let '(line', st') := tailorLine rand missingKws st line in
      let '(rest', st'') := mapLines rand missingKws rest st' in
      (line' :: rest', st'')
  end.

Record result : Type := mkResult {
  tailoredCV : jsstring;
  injectedKeywords : list jsstring
}.

End WorkExp.

Definition fastTailorWorkExperience (rand : nat -> nat) (cvText : jsstring)
    (missingKws : list jsstring) : WorkExp.result :=
  match WorkExp.bounds cvText with
  | None => {| WorkExp.tailoredCV := cvText; WorkExp.injectedKeywords := [] |}
  | Some (expStart, expEnd) =>
      let experienceSection := Js.substring expStart expEnd cvText in
      let lines := Js.split NL experienceSection in
      let '(modifiedLines, st) :=
        WorkExp.mapLines rand missingKws lines WorkExp.initial in
      {| WorkExp.tailoredCV :=
           Js.substring 0 expStart cvText ++ Js.join [NL] modifiedLines
             ++ Js.substringFrom expEnd cvText;
         WorkExp.injectedKeywords := WorkExp.injected st |}
  end.

(** ** [turboTailorCV] *)

(** The [keywords] argument: each array may be [undefined]. *)
Module Keywords.
Record t : Type := mk {
  all : option (list jsstring);
  highPriority : option (list jsstring);
  mediumPriority : option (list jsstring);
  lowPriority : option (list jsstring);
  workExperience : option (list jsstring)
}.
End Keywords.

(** The object [turboExtractKeywords] returns, read as that argument. *)
Definition keywordsOf (ks : KeywordSet) : Keywords.t :=
  {| Keywords.all := Some (all ks);
     Keywords.highPriority := Some (highPriority ks);
     Keywords.mediumPriority := Some (mediumPriority ks);
     Keywords.lowPriority := Some (lowPriority ks);
     Keywords.workExperience := Some (workExperience ks) |}.

(** [arr.indexOf(x)], [None] for [-1]. *)
Fixpoint arrayIndexOf (x : jsstring) (arr : list jsstring) : option nat :=
  match arr with
  | [] => None
  | y :: arr' => if Js.eqb x y then Some 0 else S <$> arrayIndexOf x arr'
  end.

(** [arr.filter((x, idx) => f(x, idx))] from index [idx] on. *)
Fixpoint filterWithIndex {A} (f : A -> nat -> bool) (idx : nat) (l : list A)
    : list A :=
  match l with
  | [] => []
  | x :: l' =>
      if f x idx then x :: filterWithIndex f (S idx) l'
      else filterWithIndex f (S idx) l'
  end.

(** [arr.filter((kw, idx, arr) => arr.indexOf(kw) === idx)] *)
Definition dedupe (arr : list jsstring) : list jsstring :=
  filterWithIndex (fun kw idx => bool_decide (arrayIndexOf kw arr = Some idx)) 0 arr.

Definition allKeywordsToInject (keywords : Keywords.t) : list jsstring :=
  dedupe (default [] (Keywords.highPriority keywords)
            ++ default [] (Keywords.mediumPriority keywords)
            ++ default [] (Keywords.lowPriority keywords)
            ++ default [] (Keywords.workExperience keywords)).

Module Tailor.

(** What [UniqueCVEngine.generateUniqueCVForJob] returns; [E] is the type
    of its [stats]. *)
Record engineResult (E : Type) : Type := mkEngineResult {
  uniqueCV : option jsstring;
  engineStats : E;
  fileHash : jsstring
}.
Arguments uniqueCV {E}.
Arguments engineStats {E}.
Arguments fileHash {E}.

(** The [stats] property: [{}], the engine's, or the three counters. *)
Inductive stats (E : Type) : Type :=
| NoStats
| EngineStats (e : E)
| Counts (total workExperience skills : nat).
Arguments NoStats {E}.
Arguments EngineStats {E}.
Arguments Counts {E}.

(** [originalCV] is [None] on the guard path, where the property is
    absent. *)
Record result (E : Type) : Type := mkResult {
  tailoredCV : option jsstring;
  originalCV : option jsstring;
  injectedKeywords : list jsstring;
  tailorStats : stats E;
  uniqueHash : jsstring
}.
Arguments tailoredCV {E}.
Arguments originalCV {E}.
Arguments injectedKeywords {E}.
Arguments tailorStats {E}.
Arguments uniqueHash {E}.
Arguments mkResult {E}.

End Tailor.

(** The first step of the fallback of [turboTailorCV]: the work-experience
    keywords the text does not contain are handed to
    [fastTailorWorkExperience].  The result is [tailoredCV] and
    [injected]. *)
Definition workExperienceStep (rand1 : nat -> nat) (text : jsstring)
    (allKws : list jsstring) (keywords : Keywords.t) : jsstring * list jsstring :=
  let cvLower := toLowerCase text in
  let missing :=
    List.filter (fun kw => negb (Js.includes (toLowerCase kw) cvLower))
      (default (Js.slice 0 15 allKws) (Keywords.workExperience keywords)) in
  if 0 <? length missing then
    let result := fastTailorWorkExperience rand1 text missing in
    (WorkExp.tailoredCV result, WorkExp.injectedKeywords result)
  else (text, []).

(** The fallback of [turboTailorCV], after the guard and without the
    engine.  [rand1] is the stream of draws of [fastTailorWorkExperience]
    and [rand2] that of [distributeHighPriorityKeywords]. *)
Definition basicInjection {E : Type} (rand1 rand2 : nat -> nat) (text : jsstring)
    (allKws : list jsstring) (keywords : Keywords.t) : Tailor.result E :=
  let step1 := workExperienceStep rand1 text allKws keywords in
  let toInject := allKeywordsToInject keywords in
  let step2 :=
    if 0 <? length toInject then
      let distResult :=
        distributeHighPriorityKeywords rand2 (Some step1.1) (Some toInject)
          {| maxBulletsPerRole := Some 10; maxKeywordsPerBullet := Some 3 |} in
      (tailoredCV distResult,
       step1.2 ++
         match statsField Stats.added (distributionStats distResult) with
         | Some (S n) => Js.slice 0 (S n) toInject
         | _ => []
         end)
    else (Some step1.1, step1.2) in
  {| Tailor.tailoredCV := step2.1;
     Tailor.originalCV := Some text;
     Tailor.injectedKeywords := step2.2;
     Tailor.tailorStats := Tailor.Counts (length step2.2) (length step2.2) 0;
     Tailor.uniqueHash := [] |}.

(** [cvText] and [keywords] are [None] when [undefined] or [null];
    [engine] is [global.UniqueCVEngine?.generateUniqueCVForJob]. *)
Definition turboTailorCV {E : Type}
    (engine : option (jsstring -> list jsstring -> Tailor.engineResult E))
    (rand1 rand2 : nat -> nat)
    (cvText : option jsstring) (keywords : option Keywords.t) : Tailor.result E :=
  let guard :=
    {| Tailor.tailoredCV := cvText; Tailor.originalCV := None;
       Tailor.injectedKeywords := []; Tailor.tailorStats := Tailor.NoStats;
       Tailor.uniqueHash := [] |} in
  match cvText, keywords with
  | Some ((_ :: _) as text), Some kws =>
      match Keywords.all kws with
      | Some ((_ :: _) as allKws) =>
          match engine with
          | Some generateUniqueCVForJob =>
              let uniqueResult :=
                generateUniqueCVForJob text
                  (default (Js.slice 0 15 allKws) (Keywords.highPriority kws)) in
              {| Tailor.tailoredCV := Tailor.uniqueCV uniqueResult;
                 Tailor.originalCV := Some text;
                 Tailor.injectedKeywords := [];
                 Tailor.tailorStats := Tailor.EngineStats (Tailor.engineStats uniqueResult);
                 Tailor.uniqueHash := Tailor.fileHash uniqueResult |}
          | None => basicInjection rand1 rand2 text allKws kws
          end
      | _ => guard
      end
  | _, _ => guard
  end.

(** ** [executeTurboPipeline] *)

Module Pipeline.

Record jobInfo : Type := mkJobInfo {
  title : option jsstring;
  description : option jsstring;
  url : option jsstring
}.

Record options : Type := mkOptions {
  maxKeywords : option nat
}.

Record success (E : Type) : Type := mkSuccess {
  keywords : ExtractResult;
  workExperienceKeywords : list jsstring;
  tailoredCV : option jsstring;
  injectedKeywords : list jsstring;
  distributionStats : StatsObj;
  stats : Tailor.stats E;
  fromCache : option bool
}.
Arguments keywords {E}.
Arguments workExperienceKeywords {E}.
Arguments tailoredCV {E}.
Arguments injectedKeywords {E}.
Arguments distributionStats {E}.
Arguments stats {E}.
Arguments fromCache {E}.
Arguments mkSuccess {E}.

(** [{ success: false, error }] or [{ success: true, ... }]. *)
Inductive result (E : Type) : Type :=
| Failure (error : jsstring)
| Success (r : success E).
Arguments Failure {E}.
Arguments Success {E}.

End Pipeline.

(** Phase 1: [turboExtractKeywords(jdText, { jobUrl, maxKeywords })].
    [jobInfo] is [None] when [undefined] or [null]; [tGet] and [tSet] are
    the readings of [Date.now()]. *)
Definition extractionPhase (keywordCache : Cache) (tGet tSet : Z)
    (jobInfo : option Pipeline.jobInfo) (options : Pipeline.options)
    : ExtractResult * Cache :=
  let jdText := default [] (jobInfo ≫= Pipeline.description) in
  turboExtractKeywords keywordCache tGet tSet (Some jdText)
    {| jobUrl := Some (default [] (jobInfo ≫= Pipeline.url));
       maxKeywords :=
         Some (match Pipeline.maxKeywords options with
               | Some (S n) => S n
               | _ => 35
               end) |}.

(** Each of the three tailoring calls has its own stream of draws. *)
Definition executeTurboPipeline {E : Type}
    (engine : option (jsstring -> list jsstring -> Tailor.engineResult E))
    (keywordCache : Cache) (tGet tSet : Z) (rand1 rand2 rand3 : nat -> nat)
    (jobInfo : option Pipeline.jobInfo) (baseCV : option jsstring)
    (options : Pipeline.options) : Pipeline.result E * Cache :=
  let extraction := extractionPhase keywordCache tGet tSet jobInfo options in
  let keywordsResult := extraction.1 in
  let keywordCache := extraction.2 in
  let ks := keywordSet keywordsResult in
  if length (all ks) =? 0 then
    (Pipeline.Failure (lit "No keywords extracted"), keywordCache)
  else
    let tailorResult := turboTailorCV engine rand1 rand2 baseCV (Some (keywordsOf ks)) in
    let finalCV := Tailor.tailoredCV tailorResult in
    let final :=
      if 0 <? length (highPriority ks) then
        let distResult :=
          distributeHighPriorityKeywords rand3 finalCV (Some (highPriority ks))
            {| maxBulletsPerRole := Some 8; maxKeywordsPerBullet := None |} in
        (tailoredCV distResult, distributionStats distResult)
      else (finalCV, EmptyObj) in
    (Pipeline.Success
       {| Pipeline.keywords := keywordsResult;
          Pipeline.workExperienceKeywords := workExperience ks;
          Pipeline.tailoredCV := final.1;
          Pipeline.injectedKeywords := Tailor.injectedKeywords tailorResult;
          Pipeline.distributionStats := final.2;
          Pipeline.stats := Tailor.tailorStats tailorResult;
          Pipeline.fromCache := fromCache keywordsResult |},
     keywordCache).

(** ** Integer options

    [maxKeywords] and [maxKeywordsPerBullet] are read from the caller's
    options object, so they may be negative.  [slice] counts a negative
    index from the end of the array, and the queue index [keywordIndex],
    to which [numToAdd] is added, may go below zero.  The functions that
    read the two options are repeated here with integer options; on
    options that are not negative they are the functions above. *)

Module IntCap.

(** The relative index of [slice] on an array of [len] elements:
    [k < 0 ? max(len + k, 0) : min(k, len)]. *)
Definition relIndex (k : Z) (len : nat) : nat :=
  if (k <? 0)%Z then Z.to_nat (Z.max (Z.of_nat len + k) 0)
  else Nat.min (Z.to_nat k) len.

(** [arr.slice(a, b)] and [arr.slice(a)] for integer indices. *)
Definition slice {A} (a b : Z) (l : list A) : list A :=
  let from := relIndex a (length l) in
  let final := relIndex b (length l) in
  take (final - from) (drop from l).

Definition sliceFrom {A} (a : Z) (l : list A) : list A :=
  drop (relIndex a (length l)) l.

Definition sortedKeywords (text : jsstring) (maxKeywords : Z) : list jsstring :=
  let freq := frequencyPass (extractWords text) in
  let freq := foldl (addPhrase (toLowerCase text)) freq multiWordPatterns in
  slice 0 maxKeywords
    ((fun e => e.1) <$>
       sortByScore (List.filter (fun e => negb (has softSkillsToExclude e.1)) freq)).

Definition ultraFastExtraction (text : jsstring) (maxKeywords : Z) : KeywordSet :=
  let sorted := sortedKeywords text maxKeywords in
  let highCount := highCountOf (length sorted) in
  let medCount := medCountOf (length sorted) in
  {| all := sorted;
     highPriority := Js.slice 0 highCount sorted;
     mediumPriority := Js.slice highCount (highCount + medCount) sorted;
     lowPriority := Js.sliceFrom (highCount + medCount) sorted;
     workExperience := Js.slice 0 15 sorted;
     total := length sorted |}.

Record ExtractOptions : Type := mkExtractOptions {
  jobUrl : option jsstring;
  maxKeywords : option Z
}.

Definition turboExtractKeywords (keywordCache : Cache) (tGet tSet : Z)
    (jobDescription : option jsstring) (options : ExtractOptions)
    : ExtractResult * Cache :=
  let url := default [] (jobUrl options) in
  let maxKw := default 35%Z (maxKeywords options) in
  match jobDescription with
  | None => ({| keywordSet := emptyKeywordSet; fromCache := None |}, keywordCache)
  | Some jd =>
      if (length jd =? 0) || (length jd <? 50) then
        ({| keywordSet := emptyKeywordSet; fromCache := None |}, keywordCache)
      else
        match getCachedKeywords keywordCache tGet url jd with
        | Some cached => ({| keywordSet := cached; fromCache := Some true |}, keywordCache)
        | None =>
            let result := ultraFastExtraction jd maxKw in
            ({| keywordSet := result; fromCache := Some false |},
             setCachedKeywords keywordCache tSet url jd result)
        end
  end.

Record DistOptions : Type := mkDistOptions {
  maxBulletsPerRole : option Z;
  maxKeywordsPerBullet : option Z
}.

Record DistState : Type := mkDistState {
  lines : list jsstring;
  keywordIndex : Z;
  addedCount : nat;
  drawn : nat
}.

(** [for (i = 0; i < bulletLines.length && keywordIndex < missingKeywords.length; i++)],
    on the bullets still to visit. *)
Fixpoint injectBullets (rand : nat -> nat) (cap : Z) (perBullet : nat)
    (missingKws : list jsstring) (bulletLines : list nat) (st : DistState)
    : DistState :=
  match bulletLines with
  | [] => st
  | lineIdx :: rest =>
      if (keywordIndex st <? Z.of_nat (length missingKws))%Z then
        let line := default [] (lines st !! lineIdx) in
        let numToAdd :=
          Z.min cap
            (Z.min (Z.of_nat perBullet)
               (Z.of_nat (length missingKws) - keywordIndex st)) in
        let kwsToAdd :=
          slice (keywordIndex st) (keywordIndex st + numToAdd) missingKws in
        let keywordIndex' := (keywordIndex st + numToAdd)%Z in
        if length kwsToAdd =? 0 then
          injectBullets rand cap perBullet missingKws rest
            {| lines := lines st; keywordIndex := keywordIndex';
               addedCount := addedCount st; drawn := drawn st |}
        else
          let phrase := getPhrase (rand (drawn st)) in
          let line := appendInjection line (renderInjection phrase kwsToAdd) in
          injectBullets rand cap perBullet missingKws rest
            {| lines := <[lineIdx := line]> (lines st); keywordIndex := keywordIndex';
               addedCount := addedCount st + length kwsToAdd; drawn := S (drawn st) |}
      else st
  end.

(** The block [if (keywordIndex < missingKeywords.length) { ... }]. *)
Definition addOverflowBullets (missingKws : list jsstring) (bulletLines : list nat)
    (st : DistState) : DistState :=
  if (keywordIndex st <? Z.of_nat (length missingKws))%Z then
    let remaining := sliceFrom (keywordIndex st) missingKws in
    let chunks := chunks3 remaining in
    let newBullets := overflowBullet <$> chunks in
    let added' := addedCount st + sum_list (length <$> chunks) in
    let lines' :=
      if (0 <? length bulletLines) && (0 <? length newBullets) then
        let insertAfter :=
          default 0 (bulletLines !! Nat.min 4 (length bulletLines - 1)) in
        splice (insertAfter + 1) newBullets (lines st)
      else lines st in
    {| lines := lines'; keywordIndex := keywordIndex st; addedCount := added';
       drawn := drawn st + length chunks |}
  else st.

Definition distributeHighPriorityKeywords (rand : nat -> nat)
    (cvText : option jsstring) (allKeywords : option (list jsstring))
    (options : DistOptions) : DistResult :=
  let cap := default 3%Z (maxKeywordsPerBullet options) in
  match cvText, allKeywords with
  | Some ((_ :: _) as text), Some ((_ :: _) as kws) =>
      let missingKws := missingKeywords text kws in
      let stats0 :=
        {| Stats.total := length kws;
           Stats.alreadyPresent := length (presentKeywords text kws);
           Stats.added := 0; Stats.missing := 0 |} in
      if length missingKws =? 0 then
        {| tailoredCV := Some text; distributionStats := StatsOf stats0 |}
      else
        match experienceBounds text with
        | None =>
            {| tailoredCV := Some text;
               distributionStats :=
                 StatsOf {| Stats.total := Stats.total stats0;
                            Stats.alreadyPresent := Stats.alreadyPresent stats0;
                            Stats.added := 0;
                            Stats.missing := length missingKws |} |}
        | Some (expStart, expEnd) =>
            let experienceSection := Js.substring expStart expEnd text in
            let lines0 := Js.split NL experienceSection in
            let bulletLines := bulletLinesOf lines0 in
            if length bulletLines =? 0 then
              {| tailoredCV := Some text;
                 distributionStats :=
                   StatsOf {| Stats.total := Stats.total stats0;
                              Stats.alreadyPresent := Stats.alreadyPresent stats0;
                              Stats.added := 0;
                              Stats.missing := length missingKws |} |}
            else
              let perBullet :=
                keywordsPerBulletOf (length missingKws) (length bulletLines) in
              let st :=
                injectBullets rand cap perBullet missingKws bulletLines
                  {| lines := lines0; keywordIndex := 0; addedCount := 0; drawn := 0 |} in
              let st := addOverflowBullets missingKws bulletLines st in
              {| tailoredCV :=
                   Some (Js.substring 0 expStart text ++ Js.join [NL] (lines st)
                           ++ Js.substringFrom expEnd text);
                 distributionStats :=
                   StatsOf {| Stats.total := Stats.total stats0;
                              Stats.alreadyPresent := Stats.alreadyPresent stats0;
                              Stats.added := addedCount st;
                              Stats.missing := Nat.max 0 (length missingKws - addedCount st) |} |}
        end
  | _, _ => {| tailoredCV := cvText; distributionStats := EmptyObj |}
  end.

(** Every set the cache holds was computed by [ultraFastExtraction]. *)
Definition cacheOfExtractions (keywordCache : Cache) : Prop :=
  Forall (fun e => exists text maxKw, keywords e.2 = ultraFastExtraction text maxKw)
    keywordCache.

End IntCap.

(** The options and the loop state of the functions with natural-number
    options, as integer ones. *)
Definition intExtractOptions (options : ExtractOptions) : IntCap.ExtractOptions :=
  {| IntCap.jobUrl := jobUrl options;
     IntCap.maxKeywords := Z.of_nat <$> maxKeywords options |}.

Definition intDistOptions (options : DistOptions) : IntCap.DistOptions :=
  {| IntCap.maxBulletsPerRole := Z.of_nat <$> maxBulletsPerRole options;
     IntCap.maxKeywordsPerBullet := Z.of_nat <$> maxKeywordsPerBullet options |}.

Definition intDistState (st : DistState) : IntCap.DistState :=
  {| IntCap.lines := lines st; IntCap.keywordIndex := Z.of_nat (keywordIndex st);
     IntCap.addedCount := addedCount st; IntCap.drawn := drawn st |}.

(** ** Definitions used to state the properties *)

(** A session of cache calls; reads do not change the [Map]. *)
Inductive CacheOp : Type :=
| OpGet (now : Z) (jobUrl text : jsstring)
| OpPut (now : Z) (jobUrl text : jsstring) (kws : KeywordSet)
| OpClear.

Definition stepCache (c : Cache) (op : CacheOp) : Cache :=
  match op with
  | OpGet now url text => let _ := getCachedKeywords c now url text in c
  | OpPut now url text kws => setCachedKeywords c now url text kws
  | OpClear => JsMap.empty
  end.

Definition runCache (ops : list CacheOp) : Cache := foldl stepCache JsMap.empty ops.

(** The keys put since the last [clear], in the order of the calls. *)
Definition putKeysStep (acc : list jsstring) (op : CacheOp) : list jsstring :=
  match op with
  | OpGet _ _ _ => acc
  | OpPut _ url text _ => acc ++ [getCacheKey url text]
  | OpClear => []
  end.

Definition putKeys (ops : list CacheOp) : list jsstring := foldl putKeysStep [] ops.

(** The tier sizes as the specification words them: [min(15, ceil(0.45 * N))]
    and [min(10, ceil(0.35 * N))] over the rationals. *)
Definition highCount_exact (n : nat) : nat :=
  Z.to_nat (Z.min 15 (Qceiling ((45 # 100) * inject_Z (Z.of_nat n)))).
Definition medCount_exact (n : nat) : nat :=
  Z.to_nat (Z.min 10 (Qceiling ((35 # 100) * inject_Z (Z.of_nat n)))).

(** Occurrences of a token in the token list. *)
Definition occurrences (w : jsstring) (ws : list jsstring) : nat :=
  length (List.filter (Js.eqb w) ws).

(** The score after [n] occurrences when every occurrence replaces the
    stored score [s] by the binary64 product of the binary64 sum [s + 1]
    and [boost]. *)
Definition scoreAfter (boost : Z) (n : nat) : Z :=
  Nat.iter n (fun s => F64.mul (F64.add s 1) boost) 0%Z.

(** The test of the frequency pass: a technical term or more than four
    code units. *)
Definition qualifies (w : jsstring) : bool :=
  has technicalPatterns w || (4 <? length w).

Definition python : jsstring := lit "python".

(** The lines of the experience section between [expStart] and [expEnd]. *)
Definition sectionLines (text : jsstring) (expStart expEnd : nat) : list jsstring :=
  Js.split NL (Js.substring expStart expEnd text).

Definition initialState (lines0 : list jsstring) : DistState :=
  {| lines := lines0; keywordIndex := 0; addedCount := 0; drawn := 0 |}.

(** The distribution plan in the words of the specification: before
    bullet [j] (counted from 0) the queue has lost [queueOffset] keywords,
    and bullet [j] takes [min(maxKeywordsPerBullet, perBullet, remaining)]
    from its front. *)
Definition queueOffset (cap perBullet m j : nat) : nat :=
  Nat.min (j * Nat.min cap perBullet) m.

Definition takenAt (cap perBullet m j : nat) : nat :=
  Nat.min cap (Nat.min perBullet (m - queueOffset cap perBullet m j)).

Definition expectedBullet (rand : nat -> nat) (cap perBullet : nat)
    (missingKws : list jsstring) (j : nat) (line : jsstring) : jsstring :=
  let q := queueOffset cap perBullet (length missingKws) j in
  let n := takenAt cap perBullet (length missingKws) j in
  if n =? 0 then line
  else appendInjection line
         (renderInjection (getPhrase (rand j)) (take n (drop q missingKws))).

Definition noOptions : DistOptions :=
  {| maxBulletsPerRole := None; maxKeywordsPerBullet := None |}.

(** [maxKeywordsPerBullet = 3] of the options destructuring. *)
Definition capOf (options : DistOptions) : nat :=
  default 3 (maxKeywordsPerBullet options).

(** The result object built from the final loop state. *)
Definition assemble (text : jsstring) (kws : list jsstring) (expStart expEnd : nat)
    (st : DistState) : DistResult :=
  {| tailoredCV :=
       Some (Js.substring 0 expStart text ++ Js.join [NL] (lines st)
               ++ Js.substringFrom expEnd text);
     distributionStats :=
       StatsOf {| Stats.total := length kws;
                  Stats.alreadyPresent := length (presentKeywords text kws);
                  Stats.added := addedCount st;
                  Stats.missing :=
                    Nat.max 0 (length (missingKeywords text kws) - addedCount st) |} |}.

(** Sample inputs. *)
Definition sampleCV : jsstring := lit "Jane Doe
EXPERIENCE
- Built services.
- Ran the on-call rota
SKILLS
Python".

Definition sampleKeywords (n : nat) : list jsstring :=
  python :: ((fun i => lit "kw" ++ Js.ofNat i) <$> seq 1 n).

Definition noHeadingCV : jsstring := lit "Jane Doe
- Built services.
Python".

Definition noBulletCV : jsstring := lit "Jane Doe
EXPERIENCE
Built services.
SKILLS
Python".

Definition shortText : jsstring := lit "We need a Python engineer".

(** 101 puts under distinct URLs, with a read of the first key just before
    the last put. *)
Definition samplePuts (n : nat) : list CacheOp :=
  (fun i => OpPut (Z.of_nat i) (lit "https://jobs.example/" ++ Js.ofNat i) [] emptyKeywordSet)
    <$> seq 1 n.

Definition sampleSession : list CacheOp :=
  samplePuts 100
  ++ [OpGet 100 (lit "https://jobs.example/1") [];
      OpPut 101 (lit "https://jobs.example/101") [] emptyKeywordSet].

Definition scenarioPosting : jsstring :=
  lit "We need a Python and Kubernetes engineer with AWS experience in our platform group".

(** A posting of more than 50 code units with a single keyword. *)
Definition onePythonPosting : jsstring :=
  lit "We need you to work with Python in our team and be able to do that".

(** The three tiers of a keyword set are [all], cut in three. *)
Definition tiersPartition (ks : KeywordSet) : Prop :=
  highPriority ks ++ mediumPriority ks ++ lowPriority ks = all ks
  /\ length (highPriority ks) + length (mediumPriority ks) + length (lowPriority ks)
     = length (all ks)
  /\ total ks = length (all ks).

(** Options with [maxKeywordsPerBullet: -1]. *)
Definition negativeCap : IntCap.DistOptions :=
  {| IntCap.maxBulletsPerRole := None; IntCap.maxKeywordsPerBullet := Some (-1)%Z |}.

(** Two calls for the same posting, one minute apart, the second with
    [maxKeywords: 2]. *)
Definition firstCall : ExtractResult * Cache :=
  IntCap.turboExtractKeywords JsMap.empty 0 0 (Some scenarioPosting)
    {| IntCap.jobUrl := None; IntCap.maxKeywords := None |}.

Definition secondCall : ExtractResult * Cache :=
  IntCap.turboExtractKeywords firstCall.2 60000 60000 (Some scenarioPosting)
    {| IntCap.jobUrl := None; IntCap.maxKeywords := Some 2%Z |}.

(** ** Definitions used by the further properties *)

(** The frequency table after both passes, and the entries it is ranked
    from: the two sub-expressions of [sortedKeywords]. *)
Definition finalFrequencies (text : jsstring) : JsMap.t Z :=
  foldl (addPhrase (toLowerCase text)) (frequencyPass (extractWords text))
    multiWordPatterns.

Definition rankedEntries (text : jsstring) : list (jsstring * Z) :=
  sortByScore
    (List.filter (fun e => negb (has softSkillsToExclude e.1)) (finalFrequencies text)).

Definition sampleUrl : jsstring := lit "https://jobs.example/42".

(** A resume with a single bullet, and a job of the sample posting. *)
Definition oneBulletCV : jsstring := lit "Jane Doe
EXPERIENCE
- Built services.
SKILLS
Python".

Definition sampleJob : Pipeline.jobInfo :=
  {| Pipeline.title := None; Pipeline.description := Some scenarioPosting;
     Pipeline.url := Some sampleUrl |}.

(** [kw] begins and ends with a word character ([\w]). *)
Definition wordDelimited (kw : jsstring) : bool :=
  isWordAt (head kw) && isWordAt (list.last kw).

(** [s] holds [kw] right after a unit that is not a word character and
    right before one, or before the end of [s]. *)
Definition flanked (kw s : jsstring) : Prop :=
  exists x y, s = x ++ kw ++ y
    /\ (exists c, list.last x = Some c /\ isWord c = false)
    /\ isWordAt (head y) = false.

(** [s] holds [kw], in any letter case, right after a unit that is not a
    word character (or at the start of [s]) and right before one (or at
    the end of [s]). *)
Definition occursAsWord (kw s : jsstring) : Prop :=
  exists x k y, s = x ++ k ++ y /\ toLowerCase k = toLowerCase kw
    /\ isWordAt (list.last x) = false /\ isWordAt (head y) = false.

(** * Properties *)

(** ** The [Map] model *)

Section JsMapFacts.
Context {V : Type}.
Implicit Types (m : JsMap.t V) (k : jsstring) (v : V).

Lemma eqb_true k k' : Js.eqb k k' = true <-> k = k'.
Proof. unfold Js.eqb. apply bool_decide_eq_true. Qed.

Lemma eqb_refl k : Js.eqb k k = true.
Proof. by apply eqb_true. Qed.

Lemma eqb_false k k' : Js.eqb k k' = false <-> k <> k'.
Proof. unfold Js.eqb. apply bool_decide_eq_false. Qed.

Lemma get_set_eq k v m : JsMap.get k (JsMap.set k v m) = Some v.
Proof.
  induction m as [|[k' v'] m IH]; simpl.
  - by rewrite eqb_refl.
  - destruct (Js.eqb k k') eqn:E; simpl; rewrite E; [done | apply IH].
Qed.

Lemma get_set_ne k k' v m : k <> k' -> JsMap.get k (JsMap.set k' v m) = JsMap.get k m.
Proof.
  intros Hne. induction m as [|[k2 v2] m IH]; simpl.
  - apply eqb_false in Hne. by rewrite Hne.
  - destruct (Js.eqb k' k2) eqn:E; simpl.
    + apply eqb_true in E. subst k2. apply eqb_false in Hne. by rewrite Hne.
    + by rewrite IH.
Qed.

Lemma keys_set_fresh k v m :
  k ∉ JsMap.keys m -> JsMap.keys (JsMap.set k v m) = JsMap.keys m ++ [k].
Proof.
  induction m as [|[k' v'] m IH]; simpl; intros Hk; [done|].
  apply not_elem_of_cons in Hk as [Hne Hk].
  apply eqb_false in Hne. rewrite Hne. simpl. f_equal. by apply IH.
Qed.

Lemma keys_set_present k v m :
  k ∈ JsMap.keys m -> JsMap.keys (JsMap.set k v m) = JsMap.keys m.
Proof.
  induction m as [|[k' v'] m IH]; simpl; intros Hk.
  - by apply elem_of_nil in Hk.
  - destruct (Js.eqb k k') eqn:E; simpl; [done|].
    f_equal. apply IH. apply elem_of_cons in Hk as [->|Hk]; [|done].
    by rewrite eqb_refl in E.
Qed.

Lemma size_set_le k v m : JsMap.size (JsMap.set k v m) <= S (JsMap.size m).
Proof.
  unfold JsMap.size. induction m as [|[k' v'] m IH]; simpl; [lia|].
  destruct (Js.eqb k k'); simpl; lia.
Qed.

Lemma delete_head k v m : JsMap.delete k ((k, v) :: m) = m.
Proof. simpl. by rewrite eqb_refl. Qed.

End JsMapFacts.

(** ** The cache *)

Lemma setCachedKeywords_full (c : Cache) now url text kws k0 e0 rest :
  c = (k0, e0) :: rest ->
  MAX_CACHE_SIZE <= JsMap.size c ->
  setCachedKeywords c now url text kws
  = JsMap.set (getCacheKey url text) {| keywords := kws; timestamp := now |} rest.
Proof.
  intros -> Hfull. unfold setCachedKeywords.
  rewrite (proj2 (Nat.leb_le _ _) Hfull).
  change (JsMap.firstKey ((k0, e0) :: rest)) with (Some k0).
  cbv beta iota zeta. by rewrite delete_head.
Qed.

Lemma setCachedKeywords_room (c : Cache) now url text kws :
  JsMap.size c < MAX_CACHE_SIZE ->
  setCachedKeywords c now url text kws
  = JsMap.set (getCacheKey url text) {| keywords := kws; timestamp := now |} c.
Proof.
  intros Hroom. unfold setCachedKeywords.
  destruct (MAX_CACHE_SIZE <=? _) eqn:E; [|done].
  apply Nat.leb_le in E. lia.
Qed.

Lemma setCachedKeywords_bound (c : Cache) now url text kws :
  JsMap.size c <= MAX_CACHE_SIZE ->
  JsMap.size (setCachedKeywords c now url text kws) <= MAX_CACHE_SIZE.
Proof.
  intros Hle. destruct (decide (JsMap.size c < MAX_CACHE_SIZE)) as [Hlt|Hge].
  - rewrite setCachedKeywords_room by done.
    pose proof (size_set_le (getCacheKey url text)
                  {| keywords := kws; timestamp := now |} c). lia.
  - destruct c as [|[k0 e0] rest]; [unfold JsMap.size, MAX_CACHE_SIZE in *; simpl in *; lia|].
    rewrite (setCachedKeywords_full _ now url text kws k0 e0 rest) by (done || lia).
    pose proof (size_set_le (getCacheKey url text)
                  {| keywords := kws; timestamp := now |} rest).
    unfold JsMap.size in *. simpl in *. lia.
Qed.

Lemma runCache_snoc ops op : runCache (ops ++ [op]) = stepCache (runCache ops) op.
Proof. unfold runCache. by rewrite foldl_app. Qed.

Lemma putKeys_snoc ops op : putKeys (ops ++ [op]) = putKeysStep (putKeys ops) op.
Proof. unfold putKeys. by rewrite foldl_app. Qed.

Lemma runCache_bound ops : JsMap.size (runCache ops) <= MAX_CACHE_SIZE.
Proof.
  induction ops as [|op ops IH] using rev_ind.
  - unfold runCache, JsMap.size, MAX_CACHE_SIZE. simpl. lia.
  - rewrite runCache_snoc. destruct op; simpl; [done| |].
    + by apply setCachedKeywords_bound.
    + unfold JsMap.size, MAX_CACHE_SIZE. simpl. lia.
Qed.

(** With distinct keys, the cache holds the last 100 keys put, oldest first. *)
Lemma runCache_keys ops :
  NoDup (putKeys ops) ->
  JsMap.keys (runCache ops)
  = drop (length (putKeys ops) - MAX_CACHE_SIZE) (putKeys ops).
Proof.
  induction ops as [|op ops IH] using rev_ind; [done|].
  rewrite runCache_snoc, putKeys_snoc. destruct op as [now url text|now url text kws|]; simpl.
  - done.
  - intros Hnd. apply list.NoDup_app in Hnd as (Hnd & Hfresh & _).
    specialize (IH Hnd).
    set (k := getCacheKey url text) in *.
    assert (Hk : k ∉ putKeys ops).
    { intros Hin. apply (Hfresh k Hin). by apply list_elem_of_singleton. }
    rewrite length_app. simpl length.
    destruct (decide (JsMap.size (runCache ops) < MAX_CACHE_SIZE)) as [Hlt|Hge].
    + rewrite setCachedKeywords_room by done.
      assert (Hlen : length (putKeys ops) < MAX_CACHE_SIZE).
      { unfold JsMap.size in Hlt. rewrite <- (length_fmap fst) in Hlt.
        fold (JsMap.keys (runCache ops)) in Hlt. rewrite IH, length_drop in Hlt. lia. }
      replace (length (putKeys ops) - MAX_CACHE_SIZE) with 0 in IH by lia.
      replace (length (putKeys ops) + 1 - MAX_CACHE_SIZE) with 0 by lia.
      rewrite drop_0 in *. rewrite keys_set_fresh; [by rewrite IH|by rewrite IH].
    + destruct (runCache ops) as [|[k0 e0] rest] eqn:Hc.
      { unfold JsMap.size, MAX_CACHE_SIZE in Hge. simpl in Hge. lia. }
      rewrite (setCachedKeywords_full _ now url text kws k0 e0 rest) by (done || lia).
      assert (Hlen : MAX_CACHE_SIZE <= length (putKeys ops)).
      { assert (Hsz : length (JsMap.keys ((k0, e0) :: rest)) = S (length rest)).
        { unfold JsMap.keys. by rewrite length_fmap. }
        rewrite IH, length_drop in Hsz. unfold JsMap.size in Hge. simpl in Hge. lia. }
      simpl in IH.
      replace (length (putKeys ops) + 1 - MAX_CACHE_SIZE)
        with (S (length (putKeys ops) - MAX_CACHE_SIZE)) by lia.
      assert (0 < MAX_CACHE_SIZE) by (unfold MAX_CACHE_SIZE; lia).
      rewrite drop_app_le by lia.
      assert (Hrest : JsMap.keys rest
                      = drop (S (length (putKeys ops) - MAX_CACHE_SIZE)) (putKeys ops)).
      { replace (S (length (putKeys ops) - MAX_CACHE_SIZE))
          with (length (putKeys ops) - MAX_CACHE_SIZE + 1) by lia.
        by rewrite <- drop_drop, <- IH. }
      rewrite keys_set_fresh; [by rewrite Hrest|].
      intros Hin. apply Hk.
      apply (subseteq_drop (length (putKeys ops) - MAX_CACHE_SIZE)).
      rewrite <- IH. apply elem_of_cons. by right.
  - done.
Qed.


Lemma get_absent {V} (k : jsstring) (m : JsMap.t V) :
  k ∉ JsMap.keys m -> JsMap.get k m = None.
Proof.
  induction m as [|[k' v'] m IH]; simpl; intros Hk; [done|].
  apply not_elem_of_cons in Hk as [Hne Hk].
  apply eqb_false in Hne. rewrite Hne. by apply IH.
Qed.

Lemma keys_set_NoDup {V} (k : jsstring) (v : V) (m : JsMap.t V) :
  NoDup (JsMap.keys m) -> NoDup (JsMap.keys (JsMap.set k v m)).
Proof.
  intros Hnd. destruct (decide (k ∈ JsMap.keys m)) as [Hin|Hout].
  - by rewrite keys_set_present.
  - rewrite keys_set_fresh by done. apply list.NoDup_app. split; [done|]. split.
    + intros x Hx Hxk. apply list_elem_of_singleton in Hxk. by subst.
    + apply NoDup_singleton.
Qed.

Lemma runCache_NoDup ops : NoDup (JsMap.keys (runCache ops)).
Proof.
  induction ops as [|op ops IH] using rev_ind; [apply NoDup_nil_2|].
  rewrite runCache_snoc. destruct op as [now url text|now url text kws|]; simpl.
  - done.
  - destruct (decide (JsMap.size (runCache ops) < MAX_CACHE_SIZE)) as [Hlt|Hge].
    + rewrite setCachedKeywords_room by done. by apply keys_set_NoDup.
    + destruct (runCache ops) as [|[k0 e0] rest] eqn:Hc.
      { unfold JsMap.size, MAX_CACHE_SIZE in Hge. simpl in Hge. lia. }
      rewrite (setCachedKeywords_full _ now url text kws k0 e0 rest) by (done || lia).
      apply keys_set_NoDup. simpl in IH. by apply list.NoDup_cons in IH as [_ IH].
  - apply NoDup_nil_2.
Qed.

(** A put on a key that is already stored refreshes the entry and keeps
    the key's place in the insertion order. *)
Example reput_keeps_place :
  runCache [OpPut 0 (lit "a") [] emptyKeywordSet;
            OpPut 1 (lit "b") [] emptyKeywordSet;
            OpPut 2 (lit "a") [] emptyKeywordSet]
  = [(lit "a", {| keywords := emptyKeywordSet; timestamp := 2 |});
     (lit "b", {| keywords := emptyKeywordSet; timestamp := 1 |})].
Proof. reflexivity. Qed.

(** C6.  The cache never holds more than 100 entries; a put on a full
    cache removes exactly the entry at the head of the insertion order and
    then sets the new one, after which the evicted key reads as absent; and
    after 101 puts of distinct keys, with reads anywhere in between, the
    cache holds the last 100 keys in insertion order, the first one gone. *)
Theorem cache_fifo_eviction :
  (forall ops, JsMap.size (runCache ops) <= 100)
  /\ (forall ops now url text kws k0 e0 rest,
        runCache ops = (k0, e0) :: rest ->
        JsMap.size (runCache ops) = 100 ->
        setCachedKeywords (runCache ops) now url text kws
        = JsMap.set (getCacheKey url text) {| keywords := kws; timestamp := now |} rest
        /\ (getCacheKey url text <> k0 ->
            JsMap.get k0 (setCachedKeywords (runCache ops) now url text kws) = None))
  /\ (forall ops,
        NoDup (putKeys ops) -> length (putKeys ops) = 101 ->
        JsMap.keys (runCache ops) = drop 1 (putKeys ops)).
Proof.
  split; [exact runCache_bound|]. split.
  - intros ops now url text kws k0 e0 rest Hc Hsize.
    assert (Hfull : setCachedKeywords (runCache ops) now url text kws
                    = JsMap.set (getCacheKey url text)
                        {| keywords := kws; timestamp := now |} rest).
    { apply (setCachedKeywords_full _ now url text kws k0 e0 rest Hc).
      unfold MAX_CACHE_SIZE. lia. }
    split; [done|]. intros Hne. rewrite Hfull.
    rewrite get_set_ne by done. apply get_absent.
    pose proof (runCache_NoDup ops) as Hnd. rewrite Hc in Hnd. simpl in Hnd.
    by apply list.NoDup_cons in Hnd as [Hk0 _].
  - intros ops Hnd Hlen. rewrite runCache_keys by done.
    rewrite Hlen. reflexivity.
Qed.

(** ** Extraction *)

(** C8.  An absent description, or one of fewer than 50 code units, gives
    the empty keyword set and leaves the cache as it was. *)
Theorem short_text_gives_empty_set (c : Cache) (tGet tSet : Z)
    (jobDescription : option jsstring) (options : ExtractOptions) :
  (jobDescription = None
   \/ exists jd, jobDescription = Some jd /\ length jd < 50) ->
  let r := turboExtractKeywords c tGet tSet jobDescription options in
  all (keywordSet r.1) = [] /\ highPriority (keywordSet r.1) = []
  /\ mediumPriority (keywordSet r.1) = [] /\ lowPriority (keywordSet r.1) = []
  /\ workExperience (keywordSet r.1) = [] /\ total (keywordSet r.1) = 0
  /\ r.2 = c.
Proof.
  intros [->|(jd & -> & Hlen)]; simpl; [done|].
  apply Nat.ltb_lt in Hlen. rewrite Hlen, orb_true_r. done.
Qed.

Lemma slice_tiers {A} (h m : nat) (l : list A) :
  Js.slice 0 h l ++ Js.slice h (h + m) l ++ Js.sliceFrom (h + m) l = l.
Proof.
  unfold Js.slice, Js.sliceFrom. rewrite drop_0, Nat.sub_0_r.
  replace (h + m - h) with m by lia.
  rewrite <- (drop_drop l m h), take_drop. apply take_drop.
Qed.

Lemma sortedKeywords_length text maxKw : length (sortedKeywords text maxKw) <= maxKw.
Proof.
  unfold sortedKeywords, Js.slice. rewrite length_take. lia.
Qed.

(** With natural-number options the functions with integer options are
    the functions above. *)
Lemma relIndex_nat (n len : nat) : IntCap.relIndex (Z.of_nat n) len = Nat.min n len.
Proof.
  unfold IntCap.relIndex.
  destruct (Z.of_nat n <? 0)%Z eqn:E; [apply Z.ltb_lt in E; lia|].
  by rewrite Nat2Z.id.
Qed.

Lemma int_slice_nat {A} (a b : nat) (l : list A) :
  IntCap.slice (Z.of_nat a) (Z.of_nat b) l = Js.slice a b l.
Proof.
  unfold IntCap.slice, Js.slice. rewrite !relIndex_nat. cbv zeta.
  destruct (decide (length l <= a)) as [Ha|Ha].
  - rewrite (Nat.min_r a) by lia. rewrite !drop_ge by lia. by rewrite !take_nil.
  - rewrite (Nat.min_l a) by lia. destruct (decide (b <= length l)) as [Hb|Hb].
    + by rewrite Nat.min_l by lia.
    + rewrite Nat.min_r by lia. rewrite !take_ge; [done| |]; rewrite length_drop; lia.
Qed.

Lemma int_sliceFrom_nat {A} (a : nat) (l : list A) :
  IntCap.sliceFrom (Z.of_nat a) l = Js.sliceFrom a l.
Proof.
  unfold IntCap.sliceFrom, Js.sliceFrom. rewrite relIndex_nat.
  destruct (decide (a <= length l)) as [Ha|Ha]; [by rewrite Nat.min_l by lia|].
  rewrite Nat.min_r by lia. by rewrite !drop_ge by lia.
Qed.

Lemma int_sortedKeywords_nat (text : jsstring) (n : nat) :
  IntCap.sortedKeywords text (Z.of_nat n) = sortedKeywords text n.
Proof. unfold IntCap.sortedKeywords, sortedKeywords. exact (int_slice_nat 0 n _). Qed.

Lemma int_ultraFastExtraction_nat (text : jsstring) (n : nat) :
  IntCap.ultraFastExtraction text (Z.of_nat n) = ultraFastExtraction text n.
Proof.
  unfold IntCap.ultraFastExtraction, ultraFastExtraction.
  by rewrite int_sortedKeywords_nat.
Qed.

Lemma int_turboExtractKeywords_nat (c : Cache) (tGet tSet : Z)
    (jd : option jsstring) (options : ExtractOptions) :
  IntCap.turboExtractKeywords c tGet tSet jd (intExtractOptions options)
  = turboExtractKeywords c tGet tSet jd options.
Proof.
  unfold IntCap.turboExtractKeywords, turboExtractKeywords.
  assert (Hmax : default 35%Z (IntCap.maxKeywords (intExtractOptions options))
                 = Z.of_nat (default 35 (maxKeywords options)))
    by (destruct options as [url [n|]]; reflexivity).
  rewrite Hmax. cbv zeta. destruct jd as [jd|]; [|reflexivity].
  by rewrite int_ultraFastExtraction_nat.
Qed.

Lemma int_sortedKeywords_length (text : jsstring) (maxKw : Z) :
  (0 <= maxKw)%Z ->
  (Z.of_nat (length (IntCap.sortedKeywords text maxKw)) <= maxKw)%Z.
Proof.
  intros Hm. rewrite <- (Z2Nat.id maxKw Hm) at 1.
  rewrite int_sortedKeywords_nat.
  pose proof (sortedKeywords_length text (Z.to_nat maxKw)). lia.
Qed.

Lemma int_tiers (text : jsstring) (maxKw : Z) :
  tiersPartition (IntCap.ultraFastExtraction text maxKw).
Proof.
  unfold tiersPartition. simpl. split; [apply slice_tiers|]. split; [|done].
  pose proof (f_equal length
      (slice_tiers (highCountOf (length (IntCap.sortedKeywords text maxKw)))
         (medCountOf (length (IntCap.sortedKeywords text maxKw)))
         (IntCap.sortedKeywords text maxKw))) as Hlen.
  rewrite !length_app in Hlen. lia.
Qed.

(** The sets of the cache. *)
Lemma get_Forall {V} (P : V -> Prop) (k : jsstring) (m : JsMap.t V) (v : V) :
  Forall (fun e => P e.2) m -> JsMap.get k m = Some v -> P v.
Proof.
  induction 1 as [|[k' v'] m Hv Hm IH]; simpl; [discriminate|].
  destruct (Js.eqb k k'); [|exact IH]. intros H. injection H as <-. exact Hv.
Qed.

Lemma set_Forall {V} (P : V -> Prop) (k : jsstring) (v : V) (m : JsMap.t V) :
  Forall (fun e => P e.2) m -> P v -> Forall (fun e => P e.2) (JsMap.set k v m).
Proof.
  intros Hm Hv. induction Hm as [|[k' v'] m Hv' Hm IH]; simpl.
  - constructor; [exact Hv|constructor].
  - destruct (Js.eqb k k'); constructor; done.
Qed.

Lemma delete_Forall {V} (P : V -> Prop) (k : jsstring) (m : JsMap.t V) :
  Forall (fun e => P e.2) m -> Forall (fun e => P e.2) (JsMap.delete k m).
Proof.
  induction 1 as [|[k' v'] m Hv' Hm IH]; simpl; [constructor|].
  destruct (Js.eqb k k'); [exact Hm|constructor; done].
Qed.

Lemma setCachedKeywords_extractions (c : Cache) (now : Z) (url jd text : jsstring)
    (maxKw : Z) :
  IntCap.cacheOfExtractions c ->
  IntCap.cacheOfExtractions
    (setCachedKeywords c now url jd (IntCap.ultraFastExtraction text maxKw)).
Proof.
  intros Hc. unfold IntCap.cacheOfExtractions, setCachedKeywords. cbv zeta.
  apply (set_Forall
           (fun e => exists text maxKw, keywords e = IntCap.ultraFastExtraction text maxKw)).
  - destruct (MAX_CACHE_SIZE <=? JsMap.size c); [|exact Hc].
    destruct (JsMap.firstKey c); [|exact Hc].
    exact (delete_Forall
             (fun e => exists text maxKw, keywords e = IntCap.ultraFastExtraction text maxKw)
             _ _ Hc).
  - by exists text, maxKw.
Qed.

Lemma getCachedKeywords_extraction (c : Cache) (now : Z) (url jd : jsstring)
    (ks : KeywordSet) :
  IntCap.cacheOfExtractions c ->
  getCachedKeywords c now url jd = Some ks ->
  exists text maxKw, ks = IntCap.ultraFastExtraction text maxKw.
Proof.
  intros Hc. unfold getCachedKeywords. cbv zeta.
  destruct (JsMap.get _ c) as [e|] eqn:Hget; [|discriminate].
  destruct (_ <? _)%Z; [|discriminate]. intros H. injection H as <-.
  exact (get_Forall
           (fun e => exists text maxKw, keywords e = IntCap.ultraFastExtraction text maxKw)
           _ _ _ Hc Hget).
Qed.

(** C2 (amended).  Every keyword set that extraction returns is cut in
    three: [highPriority ++ mediumPriority ++ lowPriority] is [all], the
    tier lengths add up to its length, and [total] is that length.  This
    holds for [ultraFastExtraction] with any integer [maxKeywords] and for
    every call of [turboExtractKeywords] on a cache filled by such calls,
    which leaves such a cache.  The length of [all] is at most
    [maxKeywords] when [maxKeywords] (35 when absent) is not negative and
    the set is not read from the cache. *)
Theorem tiers_partition_all (keywordCache : Cache) (tGet tSet : Z)
    (jobDescription : option jsstring) (options : IntCap.ExtractOptions) :
  (forall text maxKw,
      tiersPartition (IntCap.ultraFastExtraction text maxKw)
      /\ ((0 <= maxKw)%Z ->
          (Z.of_nat (length (all (IntCap.ultraFastExtraction text maxKw))) <= maxKw)%Z))
  /\ (IntCap.cacheOfExtractions keywordCache ->
      let r :=
        IntCap.turboExtractKeywords keywordCache tGet tSet jobDescription options in
      let maxKw := default 35%Z (IntCap.maxKeywords options) in
      IntCap.cacheOfExtractions r.2
      /\ tiersPartition (keywordSet r.1)
      /\ (fromCache r.1 <> Some true -> (0 <= maxKw)%Z ->
          (Z.of_nat (length (all (keywordSet r.1))) <= maxKw)%Z)).
Proof.
  split.
  { intros text maxKw. split; [apply int_tiers|apply int_sortedKeywords_length]. }
  intros Hc. cbv zeta. unfold IntCap.turboExtractKeywords.
  assert (Hempty : tiersPartition emptyKeywordSet) by (repeat split).
  destruct jobDescription as [jd|]; [|simpl; repeat split; try done; lia].
  destruct ((length jd =? 0) || (length jd <? 50));
    [simpl; repeat split; try done; lia|].
  destruct (getCachedKeywords keywordCache tGet _ jd) as [ks|] eqn:Hget.
  - cbn [fst snd keywordSet fromCache]. split; [exact Hc|]. split; [|done].
    destruct (getCachedKeywords_extraction _ _ _ _ _ Hc Hget) as (text & maxKw & ->).
    apply int_tiers.
  - cbn [fst snd keywordSet fromCache]. split.
    + by apply setCachedKeywords_extractions.
    + split; [apply int_tiers|]. intros _. apply int_sortedKeywords_length.
Qed.

Lemma tiers_partition_all_witness :
  tiersPartition firstCall.1.(keywordSet)
  /\ (Z.of_nat (length (all firstCall.1.(keywordSet))) <= 35)%Z.
Proof.
  destruct (tiers_partition_all JsMap.empty 0 0 (Some scenarioPosting)
              {| IntCap.jobUrl := None; IntCap.maxKeywords := None |})
    as [_ H].
  destruct (H (Forall_nil _)) as (_ & Hp & Hb).
  split; [exact Hp|]. apply Hb; [vm_compute; discriminate|vm_compute; discriminate].
Defined.

(** C2 as stated fails where the set does not come from a computation with
    a non-negative [maxKeywords].  A second call for the same posting with
    [maxKeywords: 2] is served from the cache the six keywords the first
    call stored; and with [maxKeywords: -1] the extraction returns the
    ranked list without its last entry, five keywords. *)
Lemma tiers_bound_counterexample :
  (50 <= length scenarioPosting
   /\ fromCache secondCall.1 = Some true
   /\ all (keywordSet secondCall.1)
      = lit <$> ["python"; "kubernetes"; "aws"; "engineer"; "platform"; "group"]%string
   /\ ~ length (all (keywordSet secondCall.1)) <= 2)
  /\ (all (IntCap.ultraFastExtraction scenarioPosting (-1))
      = lit <$> ["python"; "kubernetes"; "aws"; "engineer"; "platform"]%string
      /\ ~ (Z.of_nat (length (all (IntCap.ultraFastExtraction scenarioPosting (-1))))
            <= -1)%Z).
Proof.
  split.
  - split; [vm_compute; lia|]. split; [vm_compute; reflexivity|].
    split; [vm_compute; reflexivity|]. vm_compute. lia.
  - split; [vm_compute; reflexivity|]. vm_compute. intros H. by apply H.
Qed.

(** A call that is not served from the cache returns a freshly computed
    set; a cache hit returns the stored set as it is, whatever [maxKeywords]
    the call carries. *)
Lemma fresh_extraction_bound (c : Cache) (tGet tSet : Z) (jd : jsstring)
    (options : ExtractOptions) :
  fromCache (turboExtractKeywords c tGet tSet (Some jd) options).1 = Some false ->
  length (all (keywordSet (turboExtractKeywords c tGet tSet (Some jd) options).1))
  <= default 35 (maxKeywords options).
Proof.
  unfold turboExtractKeywords.
  destruct ((length jd =? 0) || (length jd <? 50)); [discriminate|].
  destruct (getCachedKeywords c tGet _ jd); [discriminate|].
  intros _. apply sortedKeywords_length.
Qed.

Lemma cache_hit_returns_stored (c : Cache) (tGet tSet : Z) (jd : jsstring)
    (options : ExtractOptions) (ks : KeywordSet) :
  50 <= length jd ->
  getCachedKeywords c tGet (default [] (jobUrl options)) jd = Some ks ->
  turboExtractKeywords c tGet tSet (Some jd) options
  = ({| keywordSet := ks; fromCache := Some true |}, c).
Proof.
  intros Hlen Hhit. unfold turboExtractKeywords.
  replace (length jd =? 0) with false by (symmetry; apply Nat.eqb_neq; lia).
  replace (length jd <? 50) with false by (symmetry; apply Nat.ltb_ge; lia).
  simpl. by rewrite Hhit.
Qed.

(** The posting of the specification's scenario: the three technical terms
    score 5 each and come first, in the order of their first occurrence. *)
Example extraction_scenario :
  frequencyPass (extractWords scenarioPosting)
  = [(lit "python", 5%Z); (lit "kubernetes", 5%Z); (lit "engineer", 1%Z);
     (lit "aws", 5%Z); (lit "platform", 1%Z); (lit "group", 1%Z)]
  /\ all (ultraFastExtraction scenarioPosting 35)
     = lit <$> ["python"; "kubernetes"; "aws"; "engineer"; "platform"; "group"]%string
  /\ highPriority (ultraFastExtraction scenarioPosting 35)
     = lit <$> ["python"; "kubernetes"; "aws"]%string.
Proof. repeat split; vm_compute; reflexivity. Qed.

(** ** Tier sizes: the binary64 product against the exact rational one *)

Section TierSizes.
Import PrimFloat.
Local Open Scope Z_scope.

Lemma round53_lower (p : Z) :
  2 ^ 53 <= p ->
  p * (2 ^ 52 - 1) <= (F64.round53 p).1 * 2 ^ (F64.round53 p).2 * 2 ^ 52.
Proof.
  intros Hp. unfold F64.round53.
  assert (Hlog : 53 <= Z.log2 p) by (apply Z.log2_le_pow2; lia).
  destruct (Z.log2 p - 52 <=? 0) eqn:Hk; [apply Z.leb_le in Hk; lia|].
  set (k := Z.log2 p - 52) in *.
  assert (Hpow : 2 ^ k * 2 ^ 52 <= p).
  { rewrite <- Z.pow_add_r by lia. replace (k + 52) with (Z.log2 p) by lia.
    apply Z.log2_spec. lia. }
  assert (Ht : 0 < 2 ^ k) by (apply Z.pow_pos_nonneg; lia).
  pose proof (Z.div_mod p (2 ^ k) ltac:(lia)) as Hdm.
  pose proof (Z.mod_pos_bound p (2 ^ k) Ht) as Hr.
  set (t := 2 ^ k) in *. set (q := p / t) in *. set (r := p mod t) in *.
  assert (Hq : p * (2 ^ 52 - 1) <= q * t * 2 ^ 52).
  { replace (q * t) with (p - r) by lia. lia. }
  destruct ((2 ^ (k - 1) <? r) || (r =? 2 ^ (k - 1)) && Z.odd q); simpl; [|done].
  nia.
Qed.

Lemma ceilMul_lower (n : nat) (sig : Z) (B : nat) :
  2 ^ 53 <= Z.of_nat n * sig ->
  (Z.of_nat B - 1) * 2 ^ 54 * 2 ^ 52 < Z.of_nat n * sig * (2 ^ 52 - 1) ->
  (B <= F64.ceilMul n sig)%nat.
Proof.
  intros Hp HB. unfold F64.ceilMul.
  pose proof (round53_lower _ Hp) as Hlow.
  destruct (F64.round53 (Z.of_nat n * sig)) as [q k]. simpl in Hlow.
  set (X := q * 2 ^ k) in *.
  assert (HX : (Z.of_nat B - 1) * 2 ^ 54 < X) by nia.
  assert (Z.of_nat B <= (X + 2 ^ 54 - 1) / 2 ^ 54).
  { apply Z.div_le_lower_bound; lia. }
  lia.
Qed.

Lemma highCountOf_large (n : nat) : (41 <= n)%nat -> highCountOf n = 15%nat.
Proof.
  intros Hn. unfold highCountOf.
  assert (15 <= F64.ceilMul n F64.sig045)%nat; [|lia].
  apply ceilMul_lower; unfold F64.sig045; lia.
Qed.

Lemma medCountOf_large (n : nat) : (41 <= n)%nat -> medCountOf n = 10%nat.
Proof.
  intros Hn. unfold medCountOf.
  assert (10 <= F64.ceilMul n F64.sig035)%nat; [|lia].
  apply ceilMul_lower; unfold F64.sig035; lia.
Qed.

Lemma Qceiling_scaled (a : Z) (z : Z) :
  Qceiling ((a # 100) * inject_Z z) = - ((- (a * z)) / 100).
Proof.
  unfold Qceiling, Qfloor, Qopp, Qmult, inject_Z. simpl.
  rewrite Pos.mul_1_r. reflexivity.
Qed.

Lemma highCount_exact_large (n : nat) : (41 <= n)%nat -> highCount_exact n = 15%nat.
Proof.
  intros Hn. unfold highCount_exact. rewrite Qceiling_scaled.
  assert (15 <= - (- (45 * Z.of_nat n) / 100)); [|lia].
  assert (- (45 * Z.of_nat n) / 100 <= -15); [|lia].
  apply Z.div_le_upper_bound; lia.
Qed.

Lemma medCount_exact_large (n : nat) : (41 <= n)%nat -> medCount_exact n = 10%nat.
Proof.
  intros Hn. unfold medCount_exact. rewrite Qceiling_scaled.
  assert (- (35 * Z.of_nat n) / 100 <= -10); [|lia].
  apply Z.div_le_upper_bound; lia.
Qed.

(** The constants are the binary64 numbers the literals [0.45] and [0.35]
    denote, and [round53] computes the binary64 product, here for every
    length up to 2000. *)
#[warnings="-inexact-float"]
Lemma sig_binary64 :
  F64.decode 0.45%float = Some (F64.sig045, -54)
  /\ F64.decode 0.35%float = Some (F64.sig035, -54).
Proof. split; vm_compute; reflexivity. Qed.

#[warnings="-inexact-float"]
Lemma round53_binary64 :
  forallb (fun n =>
             F64.sameNumber (F64.round53 (Z.of_nat n * F64.sig045))
               (F64.primProduct n 0.45%float)
             && F64.sameNumber (F64.round53 (Z.of_nat n * F64.sig035))
                  (F64.primProduct n 0.35%float))
    (seq 0 2001) = true.
Proof. vm_compute. reflexivity. Qed.

Lemma tier_counts_small :
  forallb (fun n => Nat.eqb (highCountOf n) (highCount_exact n)
                    && Nat.eqb (medCountOf n) (medCount_exact n))
    (seq 0 41) = true.
Proof. vm_compute. reflexivity. Qed.

Lemma tier_counts_agree (n : nat) :
  highCountOf n = highCount_exact n /\ medCountOf n = medCount_exact n.
Proof.
  destruct (le_lt_dec 41 n) as [Hbig|Hsmall].
  - rewrite highCountOf_large, medCountOf_large,
      highCount_exact_large, medCount_exact_large by done. done.
  - pose proof tier_counts_small as Hall.
    rewrite forallb_forall in Hall.
    specialize (Hall n ltac:(apply in_seq; lia)).
    apply andb_true_iff in Hall as [H1 H2].
    apply Nat.eqb_eq in H1, H2. done.
Qed.

Lemma highCount_exact_le (n : nat) : (highCount_exact n <= n)%nat.
Proof.
  unfold highCount_exact. rewrite Qceiling_scaled.
  assert (- Z.of_nat n <= - (45 * Z.of_nat n) / 100); [|lia].
  apply Z.div_le_lower_bound; lia.
Qed.

Lemma tier_counts_fit_small :
  forallb (fun n => Nat.eqb n 1 || Nat.eqb n 3
                    || Nat.leb (highCount_exact n + medCount_exact n) n)
    (seq 0 41) = true.
Proof. vm_compute. reflexivity. Qed.

(** The two counts fit into the list except for the lengths 1 and 3. *)
Lemma tier_counts_fit (n : nat) :
  n <> 1%nat -> n <> 3%nat -> (highCount_exact n + medCount_exact n <= n)%nat.
Proof.
  intros H1 H3. destruct (le_lt_dec 41 n) as [Hbig|Hsmall].
  - rewrite highCount_exact_large, medCount_exact_large by done. lia.
  - pose proof tier_counts_fit_small as Hall.
    rewrite forallb_forall in Hall.
    specialize (Hall n ltac:(apply in_seq; lia)).
    apply orb_true_iff in Hall as [Hall|Hall].
    + apply orb_true_iff in Hall as [Hall|Hall]; apply Nat.eqb_eq in Hall; lia.
    + by apply Nat.leb_le in Hall.
Qed.

End TierSizes.

(** C7 (with the medium tier as the code cuts it).  With [N] the length
    of the truncated list, the counts computed by the binary64 products are
    [highCount = min(15, ceil(0.45 * N))] and
    [medCount = min(10, ceil(0.35 * N))] of exact rational arithmetic;
    [highPriority] is the first [highCount] entries and has exactly that
    size; [mediumPriority] is the next entries up to [medCount] of them,
    [min(medCount, N - highCount)] in number, which is [medCount] unless
    [N] is 1 or 3; [lowPriority] is the rest. *)
Theorem tier_sizes_exact (text : jsstring) (maxKw : nat) :
  let ks := ultraFastExtraction text maxKw in
  let n := length (all ks) in
  highCountOf n = highCount_exact n
  /\ medCountOf n = medCount_exact n
  /\ highPriority ks = take (highCount_exact n) (all ks)
  /\ length (highPriority ks) = highCount_exact n
  /\ mediumPriority ks = take (medCount_exact n) (drop (highCount_exact n) (all ks))
  /\ length (mediumPriority ks) = Nat.min (medCount_exact n) (n - highCount_exact n)
  /\ (n <> 1 -> n <> 3 -> length (mediumPriority ks) = medCount_exact n)
  /\ lowPriority ks = drop (highCount_exact n + medCount_exact n) (all ks).
Proof.
  simpl. destruct (tier_counts_agree (length (sortedKeywords text maxKw))) as [Hh Hm].
  set (sorted := sortedKeywords text maxKw) in *.
  pose proof (highCount_exact_le (length sorted)) as Hle.
  unfold Js.slice, Js.sliceFrom. rewrite Hh, Hm, drop_0, Nat.sub_0_r.
  replace (highCount_exact (length sorted) + medCount_exact (length sorted)
           - highCount_exact (length sorted))
    with (medCount_exact (length sorted)) by lia.
  rewrite !length_take, length_drop.
  repeat split; try done; try lia.
  intros H1 H3. pose proof (tier_counts_fit (length sorted) H1 H3). lia.
Qed.

Lemma tier_sizes_exact_witness :
  let ks := ultraFastExtraction scenarioPosting 35 in
  length (all ks) = 6
  /\ length (highPriority ks) = 3 /\ length (mediumPriority ks) = 3
  /\ lowPriority ks = [].
Proof.
  destruct (tier_sizes_exact scenarioPosting 35)
    as (_ & _ & _ & Hh & _ & _ & Hm & Hl).
  cbv zeta. split; [vm_compute; reflexivity|].
  split; [rewrite Hh; vm_compute; reflexivity|].
  split; [rewrite Hm; [vm_compute; reflexivity|vm_compute; lia|vm_compute; lia]|].
  rewrite Hl. vm_compute. reflexivity.
Defined.

(** C7 as stated fails for a list of one keyword: [medCount] is
    [min(10, ceil(0.35)) = 1], but after the one high-priority entry
    nothing is left for the medium tier. *)
Lemma tier_sizes_one_keyword :
  let ks := ultraFastExtraction onePythonPosting 35 in
  50 <= length onePythonPosting
  /\ all ks = [python]
  /\ highCount_exact (length (all ks)) = 1
  /\ medCount_exact (length (all ks)) = 1
  /\ highPriority ks = [python]
  /\ mediumPriority ks = []
  /\ length (mediumPriority ks) <> medCount_exact (length (all ks)).
Proof.
  cbv zeta. split; [vm_compute; lia|].
  repeat split; try (vm_compute; reflexivity).
  vm_compute. discriminate.
Qed.

(** ** The frequency pass *)

Section FrequencyPass.
Local Open Scope Z_scope.

Lemma getOr0_set_eq (w : jsstring) (v : Z) (freq : JsMap.t Z) :
  getOr0 w (JsMap.set w v freq) = v.
Proof. unfold getOr0. by rewrite get_set_eq. Qed.

Lemma getOr0_set_ne (w w' : jsstring) (v : Z) (freq : JsMap.t Z) :
  w <> w' -> getOr0 w (JsMap.set w' v freq) = getOr0 w freq.
Proof. intros Hne. unfold getOr0. by rewrite get_set_ne. Qed.

(** One occurrence of [w] replaces its score [s] by the binary64 product
    of [count], the binary64 sum [s + 1], and [boost]. *)
Lemma countWord_same (w : jsstring) (freq : JsMap.t Z) :
  qualifies w = true ->
  JsMap.get w (countWord freq w)
  = Some (F64.mul (F64.add (getOr0 w freq) 1) (boostOf w)).
Proof.
  intros Hq. unfold countWord. fold (qualifies w). rewrite Hq.
  cbv zeta. apply get_set_eq.
Qed.

Lemma countWord_other (w x : jsstring) (freq : JsMap.t Z) :
  w <> x -> JsMap.get w (countWord freq x) = JsMap.get w freq.
Proof.
  intros Hne. unfold countWord.
  destruct (has technicalPatterns x || (4 <? length x)%nat); [|done].
  cbv zeta. by apply get_set_ne.
Qed.

Lemma scoreAfter_S (boost : Z) (n : nat) :
  scoreAfter boost (S n) = F64.mul (F64.add (scoreAfter boost n) 1) boost.
Proof. reflexivity. Qed.

(** The pass on [ws] started from [freq]: the stored entry of [w] after
    its occurrences in [ws]. *)
Lemma frequency_fold (w : jsstring) (ws : list jsstring) (freq : JsMap.t Z) :
  qualifies w = true ->
  JsMap.get w (foldl countWord freq ws)
  = match occurrences w ws with
    | O => JsMap.get w freq
    | S _ =>
        Some (Nat.iter (occurrences w ws)
                (fun s => F64.mul (F64.add s 1) (boostOf w)) (getOr0 w freq))
    end.
Proof.
  intros Hq. revert freq. induction ws as [|x ws IH]; intros freq; [done|].
  simpl foldl. rewrite IH. unfold occurrences. simpl List.filter.
  destruct (Js.eqb w x) eqn:E.
  - apply eqb_true in E. subst x. simpl length.
    fold (occurrences w ws).
    assert (Hget : getOr0 w (countWord freq w)
                   = F64.mul (F64.add (getOr0 w freq) 1) (boostOf w)).
    { unfold getOr0 at 1. by rewrite countWord_same. }
    destruct (occurrences w ws) as [|n] eqn:Hocc.
    + by rewrite countWord_same.
    + f_equal. rewrite Hget. symmetry.
      exact (Nat.iter_succ_r (S n)
               (fun s => F64.mul (F64.add s 1) (boostOf w)) (getOr0 w freq)).
  - apply eqb_false in E. fold (occurrences w ws).
    destruct (occurrences w ws) as [|n] eqn:Hocc.
    + by apply countWord_other.
    + unfold getOr0. by rewrite countWord_other.
Qed.

(** Rounding: integers up to 2^53 are binary64 numbers; from 2^1024 on the
    result is [+Infinity]; in between the result is at least half the
    exact value. *)
Lemma inf_large : 2 ^ 53 <= F64.inf.
Proof. unfold F64.inf. apply Z.pow_le_mono_r; lia. Qed.

Lemma rnd_exact (p : Z) : 0 <= p <= 2 ^ 53 -> F64.rnd p = p.
Proof.
  intros Hp. destruct (decide (p = 2 ^ 53)) as [->|Hne]; [vm_compute; reflexivity|].
  unfold F64.rnd, F64.round53.
  assert (Hk : (Z.log2 p - 52 <=? 0) = true).
  { apply Z.leb_le. destruct (decide (p = 0)) as [->|Hz]; [simpl; lia|].
    assert (Z.log2 p < 53) by (apply Z.log2_lt_pow2; lia). lia. }
  rewrite Hk. cbv beta iota. rewrite Z.pow_0_r, Z.mul_1_r.
  pose proof inf_large. apply Z.min_l. lia.
Qed.

Lemma rnd_inf (p : Z) : F64.inf <= p -> F64.rnd p = F64.inf.
Proof.
  intros Hp. pose proof inf_large as Hinf.
  assert (Hlog : 1024 <= Z.log2 p) by (apply Z.log2_le_pow2; [lia|exact Hp]).
  unfold F64.rnd, F64.round53.
  destruct (Z.log2 p - 52 <=? 0) eqn:Hk; [apply Z.leb_le in Hk; lia|].
  set (k := Z.log2 p - 52) in *.
  assert (Hpow : 2 ^ k * 2 ^ 52 <= p).
  { rewrite <- Z.pow_add_r by lia. replace (k + 52) with (Z.log2 p) by lia.
    apply Z.log2_spec. lia. }
  assert (Ht : 0 < 2 ^ k) by (apply Z.pow_pos_nonneg; lia).
  assert (Hq : 2 ^ 52 <= p / 2 ^ k) by (apply Z.div_le_lower_bound; lia).
  assert (Hbig : F64.inf <= 2 ^ 52 * 2 ^ k).
  { rewrite <- Z.pow_add_r by lia. unfold F64.inf. apply Z.pow_le_mono_r; lia. }
  set (t := 2 ^ k) in *. set (q := p / t) in *.
  generalize dependent F64.inf. intros I _ _ HI.
  destruct ((2 ^ (k - 1) <? p mod t) || (p mod t =? 2 ^ (k - 1)) && Z.odd q);
    cbv beta iota; apply Z.min_r; nia.
Qed.

Lemma rnd_half (p : Z) : 0 <= p -> F64.rnd p = F64.inf \/ p <= 2 * F64.rnd p.
Proof.
  intros Hp. destruct (decide (p <= 2 ^ 53)) as [Hs|Hl].
  { right. rewrite rnd_exact; lia. }
  pose proof (round53_lower p ltac:(lia)) as Hlow.
  unfold F64.rnd. destruct (F64.round53 p) as [q k]. cbn [fst snd] in Hlow.
  set (X := q * 2 ^ k) in *.
  destruct (Z.min_spec X F64.inf) as [[_ ->]|[_ ->]]; [right; lia|by left].
Qed.

(** A token that is not technical: the score is the number of
    occurrences, up to 2^53, where adding one no longer changes it. *)
Lemma scoreAfter_boost1 (n : nat) : scoreAfter 1 n = Z.min (Z.of_nat n) (2 ^ 53).
Proof.
  induction n as [|n IH]; [done|]. rewrite scoreAfter_S, IH.
  unfold F64.add, F64.mul.
  destruct (decide (Z.of_nat n < 2 ^ 53)) as [Hs|Hl].
  - rewrite Z.min_l by lia. rewrite (rnd_exact (Z.of_nat n + 1)) by lia.
    rewrite Z.mul_1_r, rnd_exact by lia. lia.
  - rewrite Z.min_r by lia. rewrite Z.min_r by lia. vm_compute. reflexivity.
Qed.

(** A technical term: 5, 30, 155, ..., exactly [(5^(n+1) - 5) / 4] while
    that is below 2^53. *)
Lemma scoreAfter_boost5_small (n : nat) :
  (n <= 22)%nat -> 4 * scoreAfter 5 n = 5 ^ (Z.of_nat n + 1) - 5.
Proof.
  intros Hn.
  do 23 (destruct n as [|n]; [vm_compute; reflexivity|]). lia.
Qed.

Lemma scoreAfter_boost5_large (n : nat) :
  (2 <= n)%nat ->
  scoreAfter 5 n = F64.inf \/ 5 * Z.of_nat n + 20 <= scoreAfter 5 n.
Proof.
  intros Hn. induction n as [|n IH]; [lia|].
  destruct (decide (n = 1%nat)) as [->|Hne]; [right; vm_compute; discriminate|].
  rewrite scoreAfter_S. pose proof inf_large as Hinf.
  unfold F64.add, F64.mul.
  destruct IH as [IH|IH]; [lia| |].
  - left. rewrite IH. rewrite (rnd_inf (F64.inf + 1)) by lia.
    apply rnd_inf. lia.
  - set (s := scoreAfter 5 n) in *.
    destruct (rnd_half (s + 1) ltac:(lia)) as [Ha|Ha].
    + left. rewrite Ha. apply rnd_inf. lia.
    + set (a := F64.rnd (s + 1)) in *.
      destruct (rnd_half (a * 5) ltac:(lia)) as [Hb|Hb]; [by left|right]. lia.
Qed.

Lemma inf_not_multiple_of_5 (n : Z) : F64.inf <> 5 * n.
Proof.
  intros H. assert (Hm : F64.inf mod 5 = 1) by (vm_compute; reflexivity).
  rewrite H, Z.mul_comm, Z_mod_mult in Hm. discriminate.
Qed.

(** The rounding computed with shifts is the rounding of the model. *)
Lemma round53Shift_eq (p : Z) : F64.round53Shift p = F64.round53 p.
Proof.
  unfold F64.round53Shift, F64.round53.
  destruct (Z.log2 p - 52 <=? 0) eqn:Hk; [reflexivity|]. apply Z.leb_gt in Hk.
  rewrite Z.shiftr_div_pow2, Z.land_ones, Z.shiftl_mul_pow2 by lia.
  by rewrite Z.mul_1_l.
Qed.

Lemma rndShift_eq (p : Z) : F64.rndShift p = F64.rnd p.
Proof.
  unfold F64.rndShift, F64.rnd. rewrite round53Shift_eq.
  assert (Hk : 0 <= (F64.round53 p).2).
  { unfold F64.round53. destruct (Z.log2 p - 52 <=? 0) eqn:Hk; [simpl; lia|].
    apply Z.leb_gt in Hk. by destruct (_ || _); simpl; lia. }
  destruct (F64.round53 p) as [q k]. cbn [snd] in Hk.
  by rewrite Z.shiftl_mul_pow2.
Qed.

Lemma technicalScoresWith_ext (r1 r2 : Z -> Z) (n : nat) :
  (forall p, r1 p = r2 p) ->
  F64.technicalScoresWith r1 n = F64.technicalScoresWith r2 n.
Proof.
  intros Hr. induction n as [|n IH]; [reflexivity|].
  cbn [F64.technicalScoresWith]. rewrite IH.
  destruct (F64.technicalScoresWith r2 n) as [|[s x] rest]; [reflexivity|].
  by rewrite !Hr.
Qed.

Lemma sameScoresWith_ext (r1 r2 : Z -> Z) (l : list (Z * PrimFloat.float)) :
  (forall p, r1 p = r2 p) ->
  forallb (F64.sameScoresWith r1) l = forallb (F64.sameScoresWith r2) l.
Proof.
  intros Hr. induction l as [|sx l IH]; [reflexivity|].
  cbn [forallb]. rewrite IH. unfold F64.sameScoresWith. by rewrite !Hr.
Qed.

(** The model's scores against the binary64 numbers of the kernel: the
    scores of up to 450 occurrences of a technical term (from the 441st on
    they are [+Infinity]) and the integers around 2^53, each with its sum
    with 1, that sum times 1, and its sum with 10. *)
Lemma scores_binary64 :
  forallb F64.sameScores (F64.technicalScores 450 ++ F64.edgeScores) = true.
Proof.
  unfold F64.sameScores, F64.technicalScores.
  rewrite <- (technicalScoresWith_ext F64.rndShift F64.rnd 450 rndShift_eq).
  rewrite <- (sameScoresWith_ext F64.rndShift F64.rnd _ rndShift_eq).
  vm_compute. reflexivity.
Qed.

Lemma technicalScores_head (n : nat) :
  fst <$> head (F64.technicalScores n) = Some (scoreAfter 5 n).
Proof.
  unfold F64.technicalScores. induction n as [|n IH]; [reflexivity|].
  cbn [F64.technicalScoresWith].
  destruct (F64.technicalScoresWith F64.rnd n) as [|[s x] rest]; [discriminate|].
  simpl in IH. injection IH as ->. reflexivity.
Qed.

Lemma technical_score_overflow :
  scoreAfter 5 440 <> F64.inf /\ scoreAfter 5 441 = F64.inf.
Proof.
  pose proof (technicalScores_head 440) as H0.
  pose proof (technicalScores_head 441) as H1.
  unfold F64.technicalScores in H0, H1.
  rewrite <- (technicalScoresWith_ext F64.rndShift F64.rnd 440 rndShift_eq) in H0.
  rewrite <- (technicalScoresWith_ext F64.rndShift F64.rnd 441 rndShift_eq) in H1.
  split.
  - intros Hinf. rewrite Hinf in H0. revert H0. vm_compute. discriminate.
  - assert (Hv : fst <$> head (F64.technicalScoresWith F64.rndShift 441) = Some F64.inf)
      by (vm_compute; reflexivity).
    rewrite Hv in H1. apply (inj Some). exact (eq_sym H1).
Qed.

End FrequencyPass.

(** C3.  Every occurrence of a qualifying token replaces its stored score
    [s] ([0] when absent) by [count * boost], where [count] is [s + 1] and
    [boost] is 5 for a technical term and 1 otherwise, both operations
    being those of binary64 numbers; no other entry changes.  After
    [n >= 1] occurrences the stored score is that step iterated [n] times
    from 0.  For a token that is not technical this is [n] (up to 2^53).
    For a technical term it is 5, 30, 155, ..., that is [(5^(n+1) - 5) / 4]
    up to [n = 22], and for every [n >= 2] it differs from [5 * n]: it is
    larger, or [+Infinity]. *)
Theorem frequency_score_recurrence (w : jsstring) (ws : list jsstring) :
  qualifies w = true ->
  (forall freq,
      JsMap.get w (countWord freq w)
      = Some (F64.mul (F64.add (getOr0 w freq) 1) (boostOf w))
      /\ forall x, x <> w -> JsMap.get x (countWord freq w) = JsMap.get x freq)
  /\ JsMap.get w (frequencyPass ws)
     = match occurrences w ws with
       | O => None
       | S _ => Some (scoreAfter (boostOf w) (occurrences w ws))
       end
  /\ (has technicalPatterns w = false ->
      boostOf w = 1%Z
      /\ scoreAfter (boostOf w) (occurrences w ws)
         = Z.min (Z.of_nat (occurrences w ws)) (2 ^ 53))
  /\ (has technicalPatterns w = true ->
      boostOf w = 5%Z
      /\ (occurrences w ws <= 22 ->
          (4 * scoreAfter (boostOf w) (occurrences w ws)
           = 5 ^ (Z.of_nat (occurrences w ws) + 1) - 5)%Z)
      /\ (2 <= occurrences w ws ->
          scoreAfter (boostOf w) (occurrences w ws)
            <> (Z.of_nat (occurrences w ws) * 5)%Z
          /\ (scoreAfter (boostOf w) (occurrences w ws) = F64.inf
              \/ (Z.of_nat (occurrences w ws) * 5
                  < scoreAfter (boostOf w) (occurrences w ws))%Z))).
Proof.
  intros Hq. split.
  { intros freq. split; [by apply countWord_same|].
    intros x Hx. by apply countWord_other. }
  split.
  - unfold frequencyPass. rewrite frequency_fold by done. done.
  - unfold boostOf. split; intros Ht; rewrite Ht; (split; [reflexivity|]).
    + apply scoreAfter_boost1.
    + split; [apply scoreAfter_boost5_small|]. intros Hn.
      destruct (scoreAfter_boost5_large _ Hn) as [Hi|Hl].
      * split; [|by left]. rewrite Hi, Z.mul_comm. apply inf_not_multiple_of_5.
      * split; [lia|right; lia].
Qed.

Lemma frequency_score_recurrence_witness :
  JsMap.get python (frequencyPass [python; lit "engineer"; python; python]) = Some 155%Z.
Proof.
  pose proof (frequency_score_recurrence python
                [python; lit "engineer"; python; python] eq_refl) as (_ & Hget & _).
  exact Hget.
Defined.

(** ** Distribution *)

(** C10.  With an absent or empty resume text, or an absent or empty
    keyword list, the result is the input text and the empty object: none
    of [total], [alreadyPresent], [added], [missing] is defined. *)
Theorem guard_returns_empty_stats (rand : nat -> nat) (cvText : option jsstring)
    (allKeywords : option (list jsstring)) (options : DistOptions) :
  cvText = None \/ cvText = Some [] \/ allKeywords = None \/ allKeywords = Some [] ->
  let r := distributeHighPriorityKeywords rand cvText allKeywords options in
  tailoredCV r = cvText
  /\ distributionStats r = EmptyObj
  /\ statsField Stats.total (distributionStats r) = None
  /\ statsField Stats.alreadyPresent (distributionStats r) = None
  /\ statsField Stats.added (distributionStats r) = None
  /\ statsField Stats.missing (distributionStats r) = None.
Proof.
  intros H. unfold distributeHighPriorityKeywords.
  destruct cvText as [[|c text]|], allKeywords as [[|k kws]|]; simpl; try done;
    destruct H as [H|[H|[H|H]]]; discriminate.
Qed.

Lemma present_missing_length (text : jsstring) (kws : list jsstring) :
  length (presentKeywords text kws) + length (missingKeywords text kws) = length kws.
Proof.
  unfold presentKeywords, missingKeywords.
  induction kws as [|k kws IH]; simpl; [done|].
  destruct (isPresent (toLowerCase text) k); simpl; lia.
Qed.

Lemma slice_length {A} (i n : nat) (l : list A) :
  i + n <= length l -> length (Js.slice i (i + n) l) = n.
Proof.
  intros H. unfold Js.slice. rewrite length_take, length_drop. lia.
Qed.

Lemma slice_take_drop {A} (i n : nat) (l : list A) :
  Js.slice i (i + n) l = take n (drop i l).
Proof. unfold Js.slice. f_equal. lia. Qed.

(** The injection loop adds as many keywords as it takes from the queue. *)
Lemma injectBullets_counts rand cap pb missingKws bl st :
  keywordIndex st <= length missingKws ->
  let st' := injectBullets rand cap pb missingKws bl st in
  keywordIndex st' <= length missingKws
  /\ keywordIndex st <= keywordIndex st'
  /\ addedCount st' + keywordIndex st = addedCount st + keywordIndex st'.
Proof.
  revert st. induction bl as [|x bl IH]; intros st Hle; simpl; [lia|].
  destruct (keywordIndex st <? length missingKws) eqn:Hlt; [|lia].
  apply Nat.ltb_lt in Hlt.
  set (n := Nat.min cap (Nat.min pb (length missingKws - keywordIndex st))).
  rewrite slice_length by lia.
  destruct (n =? 0) eqn:Hn.
  - apply Nat.eqb_eq in Hn. 
    match goal with |- context [injectBullets _ _ _ _ _ ?s] =>
      specialize (IH s ltac:(simpl; lia)) end.
    simpl in IH. lia.
  - match goal with |- context [injectBullets _ _ _ _ _ ?s] =>
      specialize (IH s ltac:(simpl; lia)) end.
    simpl in IH. lia.
Qed.

Lemma chunks3_ind (P : list jsstring -> Prop) :
  P [] -> (forall a, P [a]) -> (forall a b, P [a; b]) ->
  (forall a b c l, P l -> P (a :: b :: c :: l)) ->
  forall l, P l.
Proof.
  intros H0 H1 H2 H3. fix IH 1.
  intros [|a [|b [|c l]]]; [exact H0 | apply H1 | apply H2 | apply H3, IH].
Qed.

Lemma chunks3_concat (l : list jsstring) : concat (chunks3 l) = l.
Proof. induction l using chunks3_ind; simpl; congruence. Qed.


Lemma chunks3_total (l : list jsstring) : sum_list (length <$> chunks3 l) = length l.
Proof.
  induction l as [| | |a b c l IH] using chunks3_ind; try reflexivity.
  change (sum_list (length <$> chunks3 (a :: b :: c :: l)))
    with (3 + sum_list (length <$> chunks3 l)).
  rewrite IH. reflexivity.
Qed.

Lemma chunks3_count (l : list jsstring) : length (chunks3 l) = (length l + 2) / 3.
Proof.
  induction l as [| | |a b c l IH] using chunks3_ind; try reflexivity.
  simpl length. rewrite IH.
  replace (S (S (S (length l))) + 2) with (1 * 3 + (length l + 2)) by lia.
  rewrite Nat.div_add_l by lia. lia.
Qed.

(** After the loop and the overflow block every missing keyword is counted. *)
Lemma addOverflowBullets_added missingKws bl st :
  keywordIndex st <= length missingKws ->
  addedCount st = keywordIndex st ->
  addedCount (addOverflowBullets missingKws bl st) = length missingKws.
Proof.
  intros Hle Hadd. unfold addOverflowBullets.
  destruct (keywordIndex st <? length missingKws) eqn:Hlt.
  - simpl. unfold Js.sliceFrom. rewrite chunks3_total, length_drop. lia.
  - apply Nat.ltb_ge in Hlt. lia.
Qed.

(** With a natural number for [maxKeywordsPerBullet]: for a non-empty
    text and a non-empty keyword list the returned counters satisfy
    [alreadyPresent + added + missing = total], whichever way the run
    ends. *)
Lemma stats_sum_nat (rand : nat -> nat) (text : jsstring)
    (kws : list jsstring) (options : DistOptions) :
  text <> [] -> kws <> [] ->
  exists s,
    distributionStats
      (distributeHighPriorityKeywords rand (Some text) (Some kws) options)
    = StatsOf s
    /\ Stats.total s = length kws
    /\ Stats.alreadyPresent s = length (presentKeywords text kws)
    /\ Stats.alreadyPresent s + Stats.added s + Stats.missing s = Stats.total s
    /\ (Stats.added s = 0 /\ Stats.missing s = length (missingKeywords text kws)
        \/ Stats.added s = length (missingKeywords text kws) /\ Stats.missing s = 0).
Proof.
  intros Htext Hkws. unfold distributeHighPriorityKeywords.
  destruct text as [|c text]; [done|]. destruct kws as [|k kws]; [done|].
  pose proof (present_missing_length (c :: text) (k :: kws)) as Hpm.
  set (txt := c :: text) in *. set (ks := k :: kws) in *. clearbody txt ks.
  set (mk := missingKeywords txt ks) in *. clearbody mk.
  destruct (length mk =? 0) eqn:Hm.
  { apply Nat.eqb_eq in Hm. eexists. split; [done|]. simpl. lia. }
  destruct (experienceBounds txt) as [[expStart expEnd]|].
  2: { eexists. split; [done|]. simpl. lia. }
  destruct (length (bulletLinesOf _) =? 0).
  { eexists. split; [done|]. simpl. lia. }
  eexists. split; [done|]. cbn [Stats.total Stats.alreadyPresent Stats.added Stats.missing].
  split; [done|]. split; [done|].
  match goal with |- context [addOverflowBullets mk ?b (injectBullets ?r ?cap ?pb mk ?b ?st0)] =>
    pose proof (addOverflowBullets_added mk b (injectBullets r cap pb mk b st0)) as Hadd;
    pose proof (injectBullets_counts r cap pb mk b st0 ltac:(simpl; lia)) as Hcnt
  end.
  cbn [keywordIndex addedCount] in Hcnt. cbv zeta in Hcnt.
  rewrite Hadd by lia. lia.
Qed.

(** With an option that is not negative the loop with an integer queue
    index is the loop above. *)
Lemma int_injectBullets_nat rand (cap pb : nat) missingKws bl st :
  IntCap.injectBullets rand (Z.of_nat cap) pb missingKws bl (intDistState st)
  = intDistState (injectBullets rand cap pb missingKws bl st).
Proof.
  revert st. induction bl as [|x bl IH]; intros st; [reflexivity|].
  cbn [IntCap.injectBullets injectBullets].
  change (IntCap.keywordIndex (intDistState st)) with (Z.of_nat (keywordIndex st)).
  change (IntCap.lines (intDistState st)) with (lines st).
  change (IntCap.addedCount (intDistState st)) with (addedCount st).
  change (IntCap.drawn (intDistState st)) with (drawn st).
  destruct (keywordIndex st <? length missingKws) eqn:Hlt.
  - apply Nat.ltb_lt in Hlt.
    replace (Z.of_nat (keywordIndex st) <? Z.of_nat (length missingKws))%Z with true
      by (symmetry; apply Z.ltb_lt; lia).
    replace (Z.min (Z.of_nat cap)
               (Z.min (Z.of_nat pb)
                  (Z.of_nat (length missingKws) - Z.of_nat (keywordIndex st))))
      with (Z.of_nat (Nat.min cap (Nat.min pb (length missingKws - keywordIndex st))))
      by lia.
    rewrite <- Nat2Z.inj_add, int_slice_nat.
    destruct (length (Js.slice _ _ missingKws) =? 0);
      match goal with
      | |- context [injectBullets rand cap pb missingKws bl ?s] => exact (IH s)
      end.
  - apply Nat.ltb_ge in Hlt.
    replace (Z.of_nat (keywordIndex st) <? Z.of_nat (length missingKws))%Z with false
      by (symmetry; apply Z.ltb_ge; lia).
    reflexivity.
Qed.

Lemma int_addOverflowBullets_nat missingKws bl st :
  IntCap.addOverflowBullets missingKws bl (intDistState st)
  = intDistState (addOverflowBullets missingKws bl st).
Proof.
  unfold IntCap.addOverflowBullets, addOverflowBullets.
  change (IntCap.keywordIndex (intDistState st)) with (Z.of_nat (keywordIndex st)).
  destruct (keywordIndex st <? length missingKws) eqn:Hlt.
  - apply Nat.ltb_lt in Hlt.
    replace (Z.of_nat (keywordIndex st) <? Z.of_nat (length missingKws))%Z with true
      by (symmetry; apply Z.ltb_lt; lia).
    rewrite int_sliceFrom_nat. reflexivity.
  - apply Nat.ltb_ge in Hlt.
    replace (Z.of_nat (keywordIndex st) <? Z.of_nat (length missingKws))%Z with false
      by (symmetry; apply Z.ltb_ge; lia).
    reflexivity.
Qed.

Lemma int_distribute_nat rand cvText allKeywords (options : DistOptions) :
  IntCap.distributeHighPriorityKeywords rand cvText allKeywords (intDistOptions options)
  = distributeHighPriorityKeywords rand cvText allKeywords options.
Proof.
  unfold IntCap.distributeHighPriorityKeywords, distributeHighPriorityKeywords.
  assert (Hcap : default 3%Z (IntCap.maxKeywordsPerBullet (intDistOptions options))
                 = Z.of_nat (default 3 (maxKeywordsPerBullet options)))
    by (destruct options as [b [n|]]; reflexivity).
  rewrite Hcap. cbv zeta.
  destruct cvText as [[|c text]|]; try reflexivity.
  destruct allKeywords as [[|k kws]|]; try reflexivity.
  destruct (length (missingKeywords (c :: text) (k :: kws)) =? 0); [reflexivity|].
  destruct (experienceBounds (c :: text)) as [[expStart expEnd]|]; [|reflexivity].
  destruct (length (bulletLinesOf _) =? 0); [reflexivity|].
  change {| IntCap.lines := Js.split NL (Js.substring expStart expEnd (c :: text));
            IntCap.keywordIndex := 0; IntCap.addedCount := 0; IntCap.drawn := 0 |}
    with (intDistState
            {| lines := Js.split NL (Js.substring expStart expEnd (c :: text));
               keywordIndex := 0; addedCount := 0; drawn := 0 |}).
  rewrite int_injectBullets_nat, int_addOverflowBullets_nat. reflexivity.
Qed.

(** The run reads [maxKeywordsPerBullet] and nothing else of its options. *)
Lemma int_distribute_cap rand cvText allKeywords (options : IntCap.DistOptions) :
  IntCap.distributeHighPriorityKeywords rand cvText allKeywords options
  = IntCap.distributeHighPriorityKeywords rand cvText allKeywords
      {| IntCap.maxBulletsPerRole := None;
         IntCap.maxKeywordsPerBullet :=
           Some (default 3%Z (IntCap.maxKeywordsPerBullet options)) |}.
Proof. reflexivity. Qed.

(** C1 (amended).  For a non-empty text, a non-empty keyword list and a
    [maxKeywordsPerBullet] that is absent or not negative, the returned
    counters satisfy [alreadyPresent + added + missing = total], whichever
    way the run ends: either nothing is added and every missing keyword is
    reported missing (all keywords present, no section, no bullets), or
    every missing keyword is added and none is reported missing (injection,
    with or without overflow bullets). *)
Theorem stats_sum_invariant (rand : nat -> nat) (text : jsstring)
    (kws : list jsstring) (options : IntCap.DistOptions) :
  text <> [] -> kws <> [] ->
  (0 <= default 3 (IntCap.maxKeywordsPerBullet options))%Z ->
  exists s,
    distributionStats
      (IntCap.distributeHighPriorityKeywords rand (Some text) (Some kws) options)
    = StatsOf s
    /\ Stats.total s = length kws
    /\ Stats.alreadyPresent s = length (presentKeywords text kws)
    /\ Stats.alreadyPresent s + Stats.added s + Stats.missing s = Stats.total s
    /\ (Stats.added s = 0 /\ Stats.missing s = length (missingKeywords text kws)
        \/ Stats.added s = length (missingKeywords text kws) /\ Stats.missing s = 0).
Proof.
  intros Htext Hkws Hcap. rewrite int_distribute_cap.
  set (cap := default 3%Z (IntCap.maxKeywordsPerBullet options)) in *.
  rewrite <- (Z2Nat.id cap Hcap).
  change {| IntCap.maxBulletsPerRole := None;
            IntCap.maxKeywordsPerBullet := Some (Z.of_nat (Z.to_nat cap)) |}
    with (intDistOptions {| maxBulletsPerRole := None;
                            maxKeywordsPerBullet := Some (Z.to_nat cap) |}).
  rewrite int_distribute_nat. by apply stats_sum_nat.
Qed.

(** *** The injection loop against the plan *)

Section InjectionLoop.
Variables (rand : nat -> nat) (cap pb : nat) (missingKws : list jsstring).
Local Abbreviation m := (length missingKws).

Lemma queueOffset_S j :
  queueOffset cap pb m (S j) = queueOffset cap pb m j + takenAt cap pb m j.
Proof.
  unfold takenAt, queueOffset. rewrite Nat.mul_succ_l.
  set (a := j * Nat.min cap pb). lia.
Qed.

Lemma queueOffset_le j : queueOffset cap pb m j <= m.
Proof. unfold queueOffset. lia. Qed.

Lemma queueOffset_full j k :
  m <= queueOffset cap pb m j -> queueOffset cap pb m (j + k) = m.
Proof.
  unfold queueOffset. intros H.
  assert (j * Nat.min cap pb <= (j + k) * Nat.min cap pb) by nia. lia.
Qed.

Lemma expectedBullet_done j line :
  m <= queueOffset cap pb m j ->
  expectedBullet rand cap pb missingKws j line = line.
Proof.
  intros H. unfold expectedBullet. fold m.
  replace (takenAt cap pb m j) with 0; [done|].
  unfold takenAt. pose proof (queueOffset_le j). lia.
Qed.

Lemma injectBullets_cons (x : nat) (rest : list nat) (st : DistState) :
  injectBullets rand cap pb missingKws (x :: rest) st
  = if keywordIndex st <? length missingKws then
      let line := default [] (lines st !! x) in
      let numToAdd :=
        Nat.min cap (Nat.min pb (length missingKws - keywordIndex st)) in
      let kwsToAdd :=
        Js.slice (keywordIndex st) (keywordIndex st + numToAdd) missingKws in
      let keywordIndex' := keywordIndex st + numToAdd in
      if length kwsToAdd =? 0 then
        injectBullets rand cap pb missingKws rest
          {| lines := lines st; keywordIndex := keywordIndex';
             addedCount := addedCount st; drawn := drawn st |}
      else
        injectBullets rand cap pb missingKws rest
          {| lines :=
               <[x := appendInjection line
                        (renderInjection (getPhrase (rand (drawn st))) kwsToAdd)]>
                 (lines st);
             keywordIndex := keywordIndex';
             addedCount := addedCount st + length kwsToAdd;
             drawn := S (drawn st) |}
    else st.
Proof. reflexivity. Qed.

Lemma injectBullets_plan (rest : list nat) :
  forall (j0 : nat) (st : DistState),
    keywordIndex st = queueOffset cap pb m j0 ->
    (drawn st = j0 \/ Nat.min cap pb = 0) ->
    NoDup rest ->
    (forall x, x ∈ rest -> x < length (lines st)) ->
    let st' := injectBullets rand cap pb missingKws rest st in
    keywordIndex st' = queueOffset cap pb m (j0 + length rest)
    /\ length (lines st') = length (lines st)
    /\ (forall i, i ∉ rest -> lines st' !! i = lines st !! i)
    /\ (forall j x line,
          rest !! j = Some x -> lines st !! x = Some line ->
          lines st' !! x = Some (expectedBullet rand cap pb missingKws (j0 + j) line)).
Proof.
  induction rest as [|x rest IH]; intros j0 st Hidx Hdrawn Hnd Hrange.
  { simpl. rewrite Nat.add_0_r. split; [done|]. split; [done|]. split; [done|].
    intros j x line Hj. by rewrite lookup_nil in Hj. }
  apply list.NoDup_cons in Hnd as [Hx Hnd].
  assert (Hxr : x < length (lines st)) by (apply Hrange, elem_of_cons; by left).
  assert (Hrr : forall y, y ∈ rest -> y < length (lines st)).
  { intros y Hy. apply Hrange, elem_of_cons. by right. }
  rewrite injectBullets_cons. fold m. cbv zeta.
  destruct (keywordIndex st <? m) eqn:Hlt.
  2: { (* the queue is empty: the loop stops *)
    apply Nat.ltb_ge in Hlt. rewrite Hidx in Hlt. cbv zeta.
    split; [rewrite queueOffset_full by done; pose proof (queueOffset_le j0); lia|]. split; [done|]. split; [done|].
    intros j y line _ Hline. rewrite expectedBullet_done; [done|].
    rewrite queueOffset_full; [lia|done]. }
  apply Nat.ltb_lt in Hlt.
  pose proof (queueOffset_S j0) as HS.
  assert (Hn : Nat.min cap (Nat.min pb (m - keywordIndex st)) = takenAt cap pb m j0).
  { unfold takenAt. by rewrite Hidx. }
  rewrite Hn. rewrite slice_length by (rewrite Hidx; unfold takenAt; fold m; lia).
  rewrite slice_take_drop.
  replace (j0 + length (x :: rest)) with (S j0 + length rest) by (simpl; lia).
  destruct (takenAt cap pb m j0 =? 0) eqn:Hz.
  - (* nothing to take: only possible when the cap is 0 *)
    apply Nat.eqb_eq in Hz.
    assert (Hc0 : Nat.min cap pb = 0) by (unfold takenAt in Hz; lia).
    match goal with |- context [injectBullets _ _ _ _ _ ?s] => set (st1 := s) end.
    destruct (IH (S j0) st1) as (H1 & H2 & H3 & H4); try done.
    { subst st1. cbn [lines keywordIndex drawn addedCount]. rewrite Hidx, HS. lia. }
    { by right. }
    cbv zeta. split; [done|]. split; [done|]. split.
    + intros i Hi. apply not_elem_of_cons in Hi as [_ Hi]. by apply H3.
    + intros [|j] y line Hj Hline; simpl in Hj.
      * injection Hj as <-. rewrite H3 by done. subst st1. cbn [lines keywordIndex drawn addedCount].
        rewrite Hline. f_equal. unfold expectedBullet. fold m.
        rewrite Nat.add_0_r, Hz. done.
      * replace (j0 + S j) with (S j0 + j) by lia. by apply H4.
  - (* the bullet takes its share from the front of the queue *)
    apply Nat.eqb_neq in Hz.
    assert (Hd : drawn st = j0).
    { destruct Hdrawn as [Hd|Hc0]; [done|]. unfold takenAt in Hz. lia. }
    match goal with |- context [injectBullets _ _ _ _ _ ?s] => set (st1 := s) end.
    destruct (IH (S j0) st1) as (H1 & H2 & H3 & H4); try done.
    { subst st1. cbn [lines keywordIndex drawn addedCount]. rewrite Hidx, HS. lia. }
    { left. subst st1. cbn [lines keywordIndex drawn addedCount]. by rewrite Hd. }
    { intros y Hy. subst st1. cbn [lines keywordIndex drawn addedCount]. rewrite length_insert. by apply Hrr. }
    cbv zeta. split; [done|]. split.
    { rewrite H2. subst st1. cbn [lines keywordIndex drawn addedCount]. by rewrite length_insert. }
    split.
    + intros i Hi. apply not_elem_of_cons in Hi as [Hix Hi].
      rewrite H3 by done. subst st1. cbn [lines keywordIndex drawn addedCount]. by rewrite list_lookup_insert_ne.
    + intros [|j] y line Hj Hline; simpl in Hj.
      * injection Hj as <-. rewrite H3 by done. subst st1. cbn [lines keywordIndex drawn addedCount].
        rewrite list_lookup_insert_eq by done. f_equal.
        unfold expectedBullet. fold m. rewrite Nat.add_0_r.
        destruct (takenAt cap pb m j0 =? 0) eqn:Hz'; [apply Nat.eqb_eq in Hz'; lia|].
        f_equal; [exact (f_equal (default []) Hline) | by rewrite Hd, Hidx].
      * replace (j0 + S j) with (S j0 + j) by lia. apply H4; [done|].
        subst st1. cbn [lines keywordIndex drawn addedCount]. rewrite list_lookup_insert_ne; [done|].
        intros ->. apply Hx. by apply list_elem_of_lookup_2 in Hj.
Qed.

End InjectionLoop.

Lemma bulletLinesFrom_bounds (lines0 : list jsstring) :
  forall i x, x ∈ bulletLinesFrom i lines0 -> i <= x < i + length lines0.
Proof.
  induction lines0 as [|l lines0 IH]; intros i x Hx; simpl in *.
  - by apply elem_of_nil in Hx.
  - destruct (isBulletLine l).
    + apply elem_of_cons in Hx as [->|Hx]; [lia|]. apply IH in Hx. lia.
    + apply IH in Hx. lia.
Qed.

Lemma bulletLinesFrom_NoDup (lines0 : list jsstring) :
  forall i, NoDup (bulletLinesFrom i lines0).
Proof.
  induction lines0 as [|l lines0 IH]; intros i; simpl; [apply NoDup_nil_2|].
  destruct (isBulletLine l); [|apply IH].
  apply list.NoDup_cons. split; [|apply IH].
  intros Hi. apply bulletLinesFrom_bounds in Hi. lia.
Qed.

Lemma bulletLinesOf_range (lines0 : list jsstring) (x : nat) :
  x ∈ bulletLinesOf lines0 -> x < length lines0.
Proof. intros Hx. apply bulletLinesFrom_bounds in Hx. lia. Qed.



(** The run that reaches the injection loop. *)
Lemma distribute_full_path rand text kws options expStart expEnd :
  text <> [] -> kws <> [] ->
  missingKeywords text kws <> [] ->
  experienceBounds text = Some (expStart, expEnd) ->
  bulletLinesOf (sectionLines text expStart expEnd) <> [] ->
  distributeHighPriorityKeywords rand (Some text) (Some kws) options
  = let missingKws := missingKeywords text kws in
    let bl := bulletLinesOf (sectionLines text expStart expEnd) in
    assemble text kws expStart expEnd
      (addOverflowBullets missingKws bl
         (injectBullets rand (capOf options)
            (keywordsPerBulletOf (length missingKws) (length bl)) missingKws bl
            (initialState (sectionLines text expStart expEnd)))).
Proof.
  intros Ht Hk Hm Hexp Hbl. unfold distributeHighPriorityKeywords.
  destruct text as [|c text]; [done|]. destruct kws as [|k kws]; [done|].
  destruct (length (missingKeywords (c :: text) (k :: kws)) =? 0) eqn:E.
  { apply Nat.eqb_eq in E. by apply nil_length_inv in E. }
  rewrite Hexp. fold (sectionLines (c :: text) expStart expEnd).
  destruct (length (bulletLinesOf (sectionLines (c :: text) expStart expEnd)) =? 0) eqn:E2.
  { apply Nat.eqb_eq in E2. by apply nil_length_inv in E2. }
  reflexivity.
Qed.

(** The runs that stop before the loop. *)
Lemma distribute_unchanged rand text kws options :
  text <> [] -> kws <> [] ->
  (experienceBounds text = None
   \/ exists expStart expEnd,
        experienceBounds text = Some (expStart, expEnd)
        /\ bulletLinesOf (sectionLines text expStart expEnd) = []) ->
  distributeHighPriorityKeywords rand (Some text) (Some kws) options
  = {| tailoredCV := Some text;
       distributionStats :=
         StatsOf {| Stats.total := length kws;
                    Stats.alreadyPresent := length (presentKeywords text kws);
                    Stats.added := 0;
                    Stats.missing := length (missingKeywords text kws) |} |}.
Proof.
  intros Ht Hk Hcase. unfold distributeHighPriorityKeywords.
  destruct text as [|c text]; [done|]. destruct kws as [|k kws]; [done|].
  destruct (length (missingKeywords (c :: text) (k :: kws)) =? 0) eqn:E.
  { apply Nat.eqb_eq in E. by rewrite E. }
  destruct Hcase as [Hnone|(s & e & Hsome & Hbl)].
  - by rewrite Hnone.
  - rewrite Hsome. fold (sectionLines (c :: text) s e). by rewrite Hbl.
Qed.

(** C9 (with the guard of the function made explicit).  For a non-empty
    text and a non-empty keyword list: when no experience heading is
    matched, or one is matched and its section has no bullet line, the text
    returned is the input, [added] is 0 and [missing] is the number of
    keywords that are not already present. *)
Theorem no_section_or_no_bullets (rand : nat -> nat) (text : jsstring)
    (kws : list jsstring) (options : DistOptions) :
  text <> [] -> kws <> [] ->
  (experienceBounds text = None
   \/ exists expStart expEnd,
        experienceBounds text = Some (expStart, expEnd)
        /\ bulletLinesOf (sectionLines text expStart expEnd) = []) ->
  let r := distributeHighPriorityKeywords rand (Some text) (Some kws) options in
  tailoredCV r = Some text
  /\ statsField Stats.added (distributionStats r) = Some 0
  /\ statsField Stats.missing (distributionStats r)
     = Some (length (missingKeywords text kws))
  /\ length (missingKeywords text kws) + length (presentKeywords text kws) = length kws.
Proof.
  intros Ht Hk Hcase. cbv zeta. rewrite distribute_unchanged by done.
  simpl. pose proof (present_missing_length text kws). repeat split; lia.
Qed.

Lemma no_section_or_no_bullets_witness :
  (let r := distributeHighPriorityKeywords (fun n => n) (Some noHeadingCV)
              (Some (sampleKeywords 2)) noOptions in
   tailoredCV r = Some noHeadingCV
   /\ statsField Stats.added (distributionStats r) = Some 0
   /\ statsField Stats.missing (distributionStats r) = Some 2)
  /\ (let r := distributeHighPriorityKeywords (fun n => n) (Some noBulletCV)
                 (Some (sampleKeywords 2)) noOptions in
      tailoredCV r = Some noBulletCV
      /\ statsField Stats.added (distributionStats r) = Some 0
      /\ statsField Stats.missing (distributionStats r) = Some 2).
Proof.
  split.
  - destruct (no_section_or_no_bullets (fun n => n) noHeadingCV (sampleKeywords 2)
                noOptions ltac:(discriminate) ltac:(discriminate)
                ltac:(left; vm_compute; reflexivity)) as (H1 & H2 & H3 & _).
    cbv zeta. split; [exact H1|]. split; [exact H2|]. rewrite H3. vm_compute. reflexivity.
  - destruct (no_section_or_no_bullets (fun n => n) noBulletCV (sampleKeywords 2)
                noOptions ltac:(discriminate) ltac:(discriminate)
                ltac:(right; exists 20, 35; vm_compute; split; reflexivity))
      as (H1 & H2 & H3 & _).
    cbv zeta. split; [exact H1|]. split; [exact H2|]. rewrite H3. vm_compute. reflexivity.
Defined.

(** C9 as stated fails on the guard path: with an empty keyword list, or
    with an empty text, no experience heading is matched, yet the result
    carries the empty object, so [added] is not 0 and [missing] is not the
    number of keywords that are not present. *)
Lemma no_section_guard_counterexample :
  experienceBounds noHeadingCV = None
  /\ statsField Stats.added
       (distributionStats
          (distributeHighPriorityKeywords (fun n => n) (Some noHeadingCV) (Some []) noOptions))
     <> Some 0
  /\ experienceBounds [] = None
  /\ length (missingKeywords [] [python]) = 1
  /\ statsField Stats.missing
       (distributionStats
          (distributeHighPriorityKeywords (fun n => n) (Some []) (Some [python]) noOptions))
     <> Some 1.
Proof.
  split; [vm_compute; reflexivity|]. split; [simpl; discriminate|].
  split; [vm_compute; reflexivity|]. split; [vm_compute; reflexivity|].
  simpl. discriminate.
Qed.

(** The exact ceiling is the ceiling of the binary64 quotient, here for up
    to 60 bullets and 300 missing keywords. *)
Lemma keywordsPerBulletOf_binary64 :
  forallb (fun b =>
             forallb (fun m =>
                        match F64.primCeilQuotient m b with
                        | Some c => (c =? Z.of_nat (keywordsPerBulletOf m b))%Z
                        | None => false
                        end)
               (seq 0 301))
    (seq 1 60) = true.
Proof. vm_compute. reflexivity. Qed.


Lemma injectBullets_from_start rand cap pb missingKws lines0 :
  let bl := bulletLinesOf lines0 in
  let st := injectBullets rand cap pb missingKws bl (initialState lines0) in
  keywordIndex st = Nat.min (length bl * Nat.min cap pb) (length missingKws)
  /\ addedCount st = keywordIndex st
  /\ length (lines st) = length lines0
  /\ (forall i, i ∉ bl -> lines st !! i = lines0 !! i)
  /\ (forall j x line,
        bl !! j = Some x -> lines0 !! x = Some line ->
        lines st !! x = Some (expectedBullet rand cap pb missingKws j line)).
Proof.
  intros bl st.
  destruct (injectBullets_plan rand cap pb missingKws bl 0 (initialState lines0))
    as (H1 & H2 & H3 & H4).
  { done. }
  { by left. }
  { apply bulletLinesFrom_NoDup. }
  { intros x Hx. by apply bulletLinesOf_range. }
  pose proof (injectBullets_counts rand cap pb missingKws bl (initialState lines0)
                ltac:(simpl; lia)) as (_ & _ & Hadd).
  simpl in Hadd. split; [exact H1|]. split; [subst st; lia|]. done.
Qed.


Lemma addOverflowBullets_spec missingKws bl st p :
  keywordIndex st < length missingKws ->
  bl !! Nat.min 4 (length bl - 1) = Some p ->
  let remaining := drop (keywordIndex st) missingKws in
  let newBullets := overflowBullet <$> chunks3 remaining in
  lines (addOverflowBullets missingKws bl st)
  = take (p + 1) (lines st) ++ newBullets ++ drop (p + 1) (lines st)
  /\ addedCount (addOverflowBullets missingKws bl st)
     = addedCount st + length remaining
  /\ keywordIndex (addOverflowBullets missingKws bl st) = keywordIndex st.
Proof.
  intros Hlt Hp remaining newBullets. unfold addOverflowBullets.
  rewrite (proj2 (Nat.ltb_lt _ _) Hlt). cbv zeta. unfold Js.sliceFrom.
  fold remaining. cbn [lines addedCount keywordIndex].
  assert (Hb : 0 < length bl).
  { destruct bl; [by rewrite lookup_nil in Hp|simpl; lia]. }
  assert (Hn : 0 < length (overflowBullet <$> chunks3 remaining)).
  { rewrite length_fmap, chunks3_count. subst remaining. rewrite length_drop.
    apply Nat.div_str_pos. lia. }
  rewrite (proj2 (Nat.ltb_lt _ _) Hb), (proj2 (Nat.ltb_lt _ _) Hn), Hp.
  simpl. rewrite chunks3_total. done.
Qed.


(** *** The properties on the sample inputs *)

Lemma stats_sum_invariant_witness :
  let stats cv kws :=
    distributionStats
      (IntCap.distributeHighPriorityKeywords (fun n => n) (Some cv) (Some kws)
         (intDistOptions noOptions)) in
  (exists s, stats sampleCV [python] = StatsOf s
             /\ Stats.alreadyPresent s + Stats.added s + Stats.missing s = 1)
  /\ (exists s, stats noHeadingCV (sampleKeywords 2) = StatsOf s
                /\ Stats.alreadyPresent s + Stats.added s + Stats.missing s = 3)
  /\ (exists s, stats noBulletCV (sampleKeywords 2) = StatsOf s
                /\ Stats.alreadyPresent s + Stats.added s + Stats.missing s = 3)
  /\ (exists s, stats sampleCV (sampleKeywords 5) = StatsOf s
                /\ Stats.alreadyPresent s + Stats.added s + Stats.missing s = 6)
  /\ (exists s, stats sampleCV (sampleKeywords 7) = StatsOf s
                /\ Stats.alreadyPresent s + Stats.added s + Stats.missing s = 8).
Proof.
  cbv zeta. repeat split.
  - destruct (stats_sum_invariant (fun n => n) sampleCV [python]
                (intDistOptions noOptions) ltac:(discriminate) ltac:(discriminate)
                ltac:(discriminate)) as (s & Hs & Ht & _ & Hsum & _).
    exists s. split; [exact Hs|]. rewrite Hsum, Ht. reflexivity.
  - destruct (stats_sum_invariant (fun n => n) noHeadingCV (sampleKeywords 2)
                (intDistOptions noOptions) ltac:(discriminate) ltac:(discriminate)
                ltac:(discriminate)) as (s & Hs & Ht & _ & Hsum & _).
    exists s. split; [exact Hs|]. rewrite Hsum, Ht. reflexivity.
  - destruct (stats_sum_invariant (fun n => n) noBulletCV (sampleKeywords 2)
                (intDistOptions noOptions) ltac:(discriminate) ltac:(discriminate)
                ltac:(discriminate)) as (s & Hs & Ht & _ & Hsum & _).
    exists s. split; [exact Hs|]. rewrite Hsum, Ht. reflexivity.
  - destruct (stats_sum_invariant (fun n => n) sampleCV (sampleKeywords 5)
                (intDistOptions noOptions) ltac:(discriminate) ltac:(discriminate)
                ltac:(discriminate)) as (s & Hs & Ht & _ & Hsum & _).
    exists s. split; [exact Hs|]. rewrite Hsum, Ht. reflexivity.
  - destruct (stats_sum_invariant (fun n => n) sampleCV (sampleKeywords 7)
                (intDistOptions noOptions) ltac:(discriminate) ltac:(discriminate)
                ltac:(discriminate)) as (s & Hs & Ht & _ & Hsum & _).
    exists s. split; [exact Hs|]. rewrite Hsum, Ht. reflexivity.
Defined.

(** C1 as stated fails for a negative [maxKeywordsPerBullet].  With -1,
    two bullets and five missing keywords, [slice(0, -1)] hands the first
    bullet four keywords, the second bullet gets none, and the overflow
    block, which reads [slice(-2)], adds the last two: six are counted as
    added, and the counters add up to 7 for a total of 6. *)
Lemma stats_sum_negative_cap :
  let r :=
    IntCap.distributeHighPriorityKeywords (fun n => n) (Some sampleCV)
      (Some (sampleKeywords 5)) negativeCap in
  length (missingKeywords sampleCV (sampleKeywords 5)) = 5
  /\ tailoredCV r
     = Some (lit "Jane Doe
EXPERIENCE
- Built services leveraging kw1, kw2, kw3, and kw4.
- Ran the on-call rota
" ++ [BULLET] ++ lit " Applied kw4 and kw5 methodologies to drive cross-functional improvements
SKILLS
Python")
  /\ distributionStats r
     = StatsOf {| Stats.total := 6; Stats.alreadyPresent := 1;
                  Stats.added := 6; Stats.missing := 0 |}
  /\ 1 + 6 + 0 <> 6.
Proof.
  cbv zeta. split; [vm_compute; reflexivity|]. split; [vm_compute; reflexivity|].
  split; [vm_compute; reflexivity|]. lia.
Qed.



Lemma guard_returns_empty_stats_witness :
  distributeHighPriorityKeywords (fun n => n) (Some sampleCV) (Some []) noOptions
  = {| tailoredCV := Some sampleCV; distributionStats := EmptyObj |}.
Proof.
  destruct (guard_returns_empty_stats (fun n => n) (Some sampleCV) (Some []) noOptions
              ltac:(right; right; right; reflexivity)) as (H1 & H2 & _).
  destruct (distributeHighPriorityKeywords _ _ _ _) as [t d].
  simpl in H1, H2. by rewrite H1, H2.
Defined.

Lemma short_text_gives_empty_set_witness :
  (let r := turboExtractKeywords JsMap.empty 0 0 (Some shortText)
              {| jobUrl := None; maxKeywords := None |} in
   all (keywordSet r.1) = [] /\ total (keywordSet r.1) = 0 /\ r.2 = JsMap.empty)
  /\ (let r := turboExtractKeywords JsMap.empty 0 0 None
                 {| jobUrl := None; maxKeywords := None |} in
      all (keywordSet r.1) = [] /\ total (keywordSet r.1) = 0 /\ r.2 = JsMap.empty).
Proof.
  split.
  - destruct (short_text_gives_empty_set JsMap.empty 0 0 (Some shortText)
                {| jobUrl := None; maxKeywords := None |}
                ltac:(right; exists shortText; split; [reflexivity|vm_compute; lia]))
      as (H1 & _ & _ & _ & _ & H2 & H3).
    cbv zeta. split; [exact H1|]. split; [exact H2|exact H3].
  - destruct (short_text_gives_empty_set JsMap.empty 0 0 None
                {| jobUrl := None; maxKeywords := None |} ltac:(left; reflexivity))
      as (H1 & _ & _ & _ & _ & H2 & H3).
    cbv zeta. split; [exact H1|]. split; [exact H2|exact H3].
Defined.

Lemma cache_fifo_eviction_witness :
  JsMap.keys (runCache sampleSession) = drop 1 (putKeys sampleSession)
  /\ JsMap.size (runCache sampleSession) <= 100.
Proof.
  destruct cache_fifo_eviction as (Hbound & _ & Hkeys).
  split; [|apply Hbound].
  apply Hkeys.
  - apply (bool_decide_unpack _). vm_compute. reflexivity.
  - vm_compute. reflexivity.
Defined.

(** * Further properties *)

(** ** The cache: round trip, keys, other entries *)

Lemma get_after_set (c : Cache) (now now' : Z) (url text url' text' : jsstring)
    (kws : KeywordSet) :
  getCacheKey url' text' = getCacheKey url text ->
  getCachedKeywords (setCachedKeywords c now url text kws) now' url' text'
  = if (now' - now <? 30 * 60 * 1000)%Z then Some kws else None.
Proof.
  intros Hkey. unfold getCachedKeywords, setCachedKeywords.
  rewrite Hkey. cbv zeta. rewrite get_set_eq. reflexivity.
Qed.

(** X1.  Whatever the cache held, right after a put a lookup under the same
    key returns the stored set as long as less than 30 minutes have passed
    since the put, and nothing from then on. *)
Theorem cache_round_trip (c : Cache) (now now' : Z) (url text url' text' : jsstring)
    (kws : KeywordSet) :
  getCacheKey url' text' = getCacheKey url text ->
  getCachedKeywords (setCachedKeywords c now url text kws) now' url' text'
  = if (now' - now <? 30 * 60 * 1000)%Z then Some kws else None.
Proof.
  intros Hkey. unfold getCachedKeywords, setCachedKeywords.
  rewrite Hkey. cbv zeta. rewrite get_set_eq. reflexivity.
Qed.

Lemma cache_round_trip_witness :
  getCachedKeywords
    (setCachedKeywords JsMap.empty 1000 sampleUrl scenarioPosting emptyKeywordSet)
    1800999 sampleUrl onePythonPosting = Some emptyKeywordSet
  /\ getCachedKeywords
       (setCachedKeywords JsMap.empty 1000 sampleUrl scenarioPosting emptyKeywordSet)
       1801000 sampleUrl onePythonPosting = None.
Proof.
  split.
  - rewrite (cache_round_trip JsMap.empty 1000 1800999 sampleUrl scenarioPosting
               sampleUrl onePythonPosting emptyKeywordSet eq_refl).
    reflexivity.
  - rewrite (cache_round_trip JsMap.empty 1000 1801000 sampleUrl scenarioPosting
               sampleUrl onePythonPosting emptyKeywordSet eq_refl).
    reflexivity.
Defined.

Lemma digits_are_digits (u : Decimal.uint) : Forall (fun c => isDigit c = true) (digits u).
Proof. induction u; simpl; constructor; done. Qed.

Lemma digits_inj (u v : Decimal.uint) : digits u = digits v -> u = v.
Proof.
  revert v. induction u; intros [] H; simpl in H; try discriminate; try reflexivity;
    injection H as H; f_equal; by apply IHu.
Qed.

Lemma ofNat_inj (n n' : nat) : Js.ofNat n = Js.ofNat n' -> n = n'.
Proof.
  unfold Js.ofNat. intros H. apply digits_inj in H.
  rewrite <- (DecimalNat.Unsigned.of_to n), <- (DecimalNat.Unsigned.of_to n').
  by rewrite H.
Qed.

(** A string is cut in one way only at the underscore that is followed by
    digits alone. *)
Lemma split_at_last_underscore (a b d d' : jsstring) :
  Forall (fun c => isDigit c = true) d -> Forall (fun c => isDigit c = true) d' ->
  a ++ 95%N :: d = b ++ 95%N :: d' -> a = b /\ d = d'.
Proof.
  intros Hd Hd'. revert b. induction a as [|x a IH]; intros [|y b] H; simpl in H.
  - by injection H.
  - injection H as <- ->.
    apply Forall_app in Hd as [_ Hd]. by inversion Hd.
  - injection H as -> <-.
    apply Forall_app in Hd' as [_ Hd']. by inversion Hd'.
  - injection H as <- H. destruct (IH b H) as [-> ->]. done.
Qed.

(** X2.  Without a URL two texts share a cache key exactly when their first
    200 code units and their lengths agree. *)
Theorem fallback_key_collision (text text' : jsstring) :
  getCacheKey [] text = getCacheKey [] text'
  <-> take 200 text = take 200 text' /\ length text = length text'.
Proof.
  unfold getCacheKey, Js.substring. simpl Nat.max. simpl Nat.min.
  rewrite !drop_0, !Nat.sub_0_r. change (lit "_") with [95%N]. simpl app.
  split.
  - intros H. apply split_at_last_underscore in H as [H1 H2];
      try apply digits_are_digits.
    split; [done|]. by apply ofNat_inj.
  - intros [-> ->]. reflexivity.
Qed.

Lemma get_cons_ne {V} (k k0 : jsstring) (v : V) (m : JsMap.t V) :
  k <> k0 -> JsMap.get k ((k0, v) :: m) = JsMap.get k m.
Proof. intros Hne. simpl. apply eqb_false in Hne. by rewrite Hne. Qed.

(** X3.  In a cache reached by any session, a put leaves the entry of every
    other key as it was, except that on a full cache the oldest key is
    lost. *)
Theorem put_keeps_other_entries (ops : list CacheOp) (now : Z)
    (url text key' : jsstring) (kws : KeywordSet) :
  key' <> getCacheKey url text ->
  JsMap.get key' (setCachedKeywords (runCache ops) now url text kws)
  = if (100 <=? JsMap.size (runCache ops))
       && bool_decide (JsMap.firstKey (runCache ops) = Some key')
    then None
    else JsMap.get key' (runCache ops).
Proof.
  intros Hne. pose proof (runCache_NoDup ops) as Hnd.
  destruct (100 <=? JsMap.size (runCache ops)) eqn:Hfull.
  - apply Nat.leb_le in Hfull.
    destruct (runCache ops) as [|[k0 e0] rest] eqn:Hc.
    { unfold JsMap.size in Hfull. simpl in Hfull. lia. }
    rewrite (setCachedKeywords_full _ now url text kws k0 e0 rest eq_refl)
      by (unfold MAX_CACHE_SIZE; lia).
    rewrite get_set_ne by done. simpl in Hnd. apply list.NoDup_cons in Hnd as [Hk0 _].
    unfold JsMap.firstKey. simpl head. simpl andb. case_bool_decide as Hhead.
    + injection Hhead as ->. by apply get_absent.
    + rewrite get_cons_ne; [done|]. intros ->. by apply Hhead.
  - apply Nat.leb_gt in Hfull. simpl andb.
    rewrite setCachedKeywords_room by (unfold MAX_CACHE_SIZE; lia).
    by rewrite get_set_ne.
Qed.

Lemma put_keeps_other_entries_witness :
  JsMap.get (lit "https://jobs.example/1")
    (setCachedKeywords (runCache (samplePuts 100)) 500 sampleUrl [] emptyKeywordSet)
  = None
  /\ JsMap.get (lit "https://jobs.example/2")
       (setCachedKeywords (runCache (samplePuts 100)) 500 sampleUrl [] emptyKeywordSet)
     = Some {| keywords := emptyKeywordSet; timestamp := 2 |}.
Proof.
  split.
  - rewrite (put_keeps_other_entries (samplePuts 100) 500 sampleUrl []
               (lit "https://jobs.example/1") emptyKeywordSet ltac:(discriminate)).
    vm_compute. reflexivity.
  - rewrite (put_keeps_other_entries (samplePuts 100) 500 sampleUrl []
               (lit "https://jobs.example/2") emptyKeywordSet ltac:(discriminate)).
    vm_compute. reflexivity.
Defined.

(** ** [turboExtractKeywords] and the cache together *)

Lemma long_text_guard (jd : jsstring) :
  50 <= length jd -> (length jd =? 0) || (length jd <? 50) = false.
Proof.
  intros H. apply orb_false_iff. split; [apply Nat.eqb_neq|apply Nat.ltb_ge]; lia.
Qed.

Lemma turboExtractKeywords_miss (c : Cache) (tGet tSet : Z) (jd : jsstring)
    (options : ExtractOptions) :
  50 <= length jd ->
  getCachedKeywords c tGet (default [] (jobUrl options)) jd = None ->
  turboExtractKeywords c tGet tSet (Some jd) options
  = ({| keywordSet := ultraFastExtraction jd (default 35 (maxKeywords options));
        fromCache := Some false |},
     setCachedKeywords c tSet (default [] (jobUrl options)) jd
       (ultraFastExtraction jd (default 35 (maxKeywords options)))).
Proof.
  intros Hlen Hmiss. unfold turboExtractKeywords.
  rewrite long_text_guard by done. by rewrite Hmiss.
Qed.

(** X4.  After a call that had to compute the keywords of a description of
    at least 50 code units, a second call for the same URL and description
    whose lookup falls less than 30 minutes after the first call's store is
    served from the cache: it returns the set computed by the first call,
    with the first call's [maxKeywords], not its own, and leaves the cache
    as it is. *)
Theorem second_call_served_from_cache (c : Cache) (t1 t2 t3 t4 : Z) (jd : jsstring)
    (options options' : ExtractOptions) :
  50 <= length jd ->
  jobUrl options' = jobUrl options ->
  getCachedKeywords c t1 (default [] (jobUrl options)) jd = None ->
  (t3 - t2 < 30 * 60 * 1000)%Z ->
  let first := turboExtractKeywords c t1 t2 (Some jd) options in
  turboExtractKeywords first.2 t3 t4 (Some jd) options'
  = ({| keywordSet := ultraFastExtraction jd (default 35 (maxKeywords options));
        fromCache := Some true |},
     first.2).
Proof.
  intros Hlen Hurl Hmiss Hfresh. cbv zeta.
  rewrite (turboExtractKeywords_miss c t1 t2 jd options Hlen Hmiss). cbn [snd].
  apply cache_hit_returns_stored; [done|].
  rewrite Hurl, get_after_set by done.
  by rewrite (proj2 (Z.ltb_lt _ _) Hfresh).
Qed.

(** X5.  If instead the second lookup falls 30 minutes or more after the
    store, the keywords are computed again, with the second call's
    [maxKeywords], and stored under the same key with the new time stamp. *)
Theorem expired_entry_recomputed (c : Cache) (t1 t2 t3 t4 : Z) (jd : jsstring)
    (options options' : ExtractOptions) :
  50 <= length jd ->
  jobUrl options' = jobUrl options ->
  getCachedKeywords c t1 (default [] (jobUrl options)) jd = None ->
  (30 * 60 * 1000 <= t3 - t2)%Z ->
  let first := turboExtractKeywords c t1 t2 (Some jd) options in
  let second := turboExtractKeywords first.2 t3 t4 (Some jd) options' in
  second.1
  = {| keywordSet := ultraFastExtraction jd (default 35 (maxKeywords options'));
       fromCache := Some false |}
  /\ getCachedKeywords second.2 t4 (default [] (jobUrl options')) jd
     = Some (ultraFastExtraction jd (default 35 (maxKeywords options'))).
Proof.
  intros Hlen Hurl Hmiss Hold. cbv zeta.
  rewrite (turboExtractKeywords_miss c t1 t2 jd options Hlen Hmiss). cbn [snd].
  set (c1 := setCachedKeywords c t2 _ jd _).
  assert (Hexpired : getCachedKeywords c1 t3 (default [] (jobUrl options')) jd = None).
  { subst c1. rewrite Hurl, get_after_set by done.
    by rewrite (proj2 (Z.ltb_ge _ _) Hold). }
  rewrite (turboExtractKeywords_miss c1 t3 t4 jd options' Hlen Hexpired). cbn [fst snd].
  split; [reflexivity|].
  rewrite get_after_set by reflexivity. by rewrite Z.sub_diag.
Qed.

Lemma second_call_served_from_cache_witness :
  let first := turboExtractKeywords JsMap.empty 0 5 (Some scenarioPosting)
                 {| jobUrl := Some sampleUrl; maxKeywords := None |} in
  let second := turboExtractKeywords first.2 1000 1005 (Some scenarioPosting)
                  {| jobUrl := Some sampleUrl; maxKeywords := Some 2 |} in
  fromCache second.1 = Some true /\ length (all (keywordSet second.1)) = 6.
Proof.
  cbv zeta.
  rewrite (second_call_served_from_cache JsMap.empty 0 5 1000 1005 scenarioPosting
             {| jobUrl := Some sampleUrl; maxKeywords := None |}
             {| jobUrl := Some sampleUrl; maxKeywords := Some 2 |}
             ltac:(vm_compute; lia) eq_refl eq_refl ltac:(lia)).
  split; vm_compute; reflexivity.
Defined.

Lemma expired_entry_recomputed_witness :
  let first := turboExtractKeywords JsMap.empty 0 5 (Some scenarioPosting)
                 {| jobUrl := Some sampleUrl; maxKeywords := None |} in
  let second := turboExtractKeywords first.2 1800005 1800009 (Some scenarioPosting)
                  {| jobUrl := Some sampleUrl; maxKeywords := Some 2 |} in
  fromCache second.1 = Some false /\ length (all (keywordSet second.1)) = 2.
Proof.
  cbv zeta.
  destruct (expired_entry_recomputed JsMap.empty 0 5 1800005 1800009 scenarioPosting
              {| jobUrl := Some sampleUrl; maxKeywords := None |}
              {| jobUrl := Some sampleUrl; maxKeywords := Some 2 |}
              ltac:(vm_compute; lia) eq_refl eq_refl ltac:(lia)) as [H _].
  rewrite H. split; vm_compute; reflexivity.
Defined.

(** ** The extracted list: its members, their order, their scores *)

Lemma sortedKeywords_ranked (text : jsstring) (maxKw : nat) :
  all (ultraFastExtraction text maxKw) = take maxKw ((fun e => e.1) <$> rankedEntries text).
Proof.
  unfold ultraFastExtraction, sortedKeywords, rankedEntries, finalFrequencies, Js.slice.
  cbn [all]. rewrite drop_0, Nat.sub_0_r. reflexivity.
Qed.

Lemma int_sortedKeywords_ranked (text : jsstring) (k : Z) :
  all (IntCap.ultraFastExtraction text k)
  = IntCap.slice 0 k ((fun e => e.1) <$> rankedEntries text).
Proof.
  unfold IntCap.ultraFastExtraction, IntCap.sortedKeywords, rankedEntries,
    finalFrequencies.
  cbn [all]. reflexivity.
Qed.

Lemma insertByScore_perm (x : jsstring * Z) (l : list (jsstring * Z)) :
  insertByScore x l ≡ₚ x :: l.
Proof.
  induction l as [|y l IH]; simpl; [done|].
  destruct (y.2 - x.2 <=? 0)%Z; [done|]. rewrite IH. apply Permutation_swap.
Qed.

Lemma sortByScore_perm (l : list (jsstring * Z)) : sortByScore l ≡ₚ l.
Proof.
  induction l as [|x l IH]; simpl; [done|]. by rewrite insertByScore_perm, IH.
Qed.

Lemma keys_set_elem {V} (k k' : jsstring) (v : V) (m : JsMap.t V) :
  k ∈ JsMap.keys (JsMap.set k' v m) <-> k = k' \/ k ∈ JsMap.keys m.
Proof.
  destruct (decide (k' ∈ JsMap.keys m)) as [Hin|Hout].
  - rewrite keys_set_present by done. split; [by right|]. by intros [->|H].
  - rewrite keys_set_fresh by done. rewrite elem_of_app, list_elem_of_singleton. tauto.
Qed.

Lemma frequencyPass_NoDup (ws : list jsstring) (freq : JsMap.t Z) :
  NoDup (JsMap.keys freq) -> NoDup (JsMap.keys (foldl countWord freq ws)).
Proof.
  revert freq. induction ws as [|w ws IH]; intros freq Hnd; [done|].
  change (foldl countWord freq (w :: ws)) with (foldl countWord (countWord freq w) ws).
  apply IH. unfold countWord.
  destruct (has technicalPatterns w || (4 <? length w)); [|done].
  by apply keys_set_NoDup.
Qed.

Lemma phrasePass_NoDup (textLower : jsstring) (ps : list jsstring) (freq : JsMap.t Z) :
  NoDup (JsMap.keys freq) -> NoDup (JsMap.keys (foldl (addPhrase textLower) freq ps)).
Proof.
  revert freq. induction ps as [|p ps IH]; intros freq Hnd; [done|].
  change (foldl (addPhrase textLower) freq (p :: ps))
    with (foldl (addPhrase textLower) (addPhrase textLower freq p) ps).
  apply IH. unfold addPhrase. destruct (includes p textLower); [|done].
  by apply keys_set_NoDup.
Qed.

Lemma finalFrequencies_NoDup (text : jsstring) : NoDup (JsMap.keys (finalFrequencies text)).
Proof.
  unfold finalFrequencies. apply phrasePass_NoDup. apply frequencyPass_NoDup.
  apply NoDup_nil_2.
Qed.

Lemma keys_filter_sublist {V} (f : jsstring * V -> bool) (m : JsMap.t V) :
  JsMap.keys (List.filter f m) `sublist_of` JsMap.keys m.
Proof.
  induction m as [|e m IH]; simpl; [done|].
  destruct (f e); simpl; [by apply sublist_skip|by apply sublist_cons].
Qed.

Lemma ranked_NoDup (f : jsstring * Z -> bool) (m : JsMap.t Z) :
  NoDup (JsMap.keys m) -> NoDup ((fun e => e.1) <$> sortByScore (List.filter f m)).
Proof.
  intros Hnd. rewrite sortByScore_perm.
  apply (sublist_NoDup _ _ Hnd), keys_filter_sublist.
Qed.

Lemma rankedEntries_NoDup (text : jsstring) :
  NoDup ((fun e => e.1) <$> rankedEntries text).
Proof. exact (ranked_NoDup _ _ (finalFrequencies_NoDup text)). Qed.

(** X6.  The extracted list holds no keyword twice. *)
Theorem extracted_keywords_distinct (text : jsstring) (maxKw : nat) :
  NoDup (all (ultraFastExtraction text maxKw)).
Proof.
  rewrite sortedKeywords_ranked.
  apply (sublist_NoDup _ _ (rankedEntries_NoDup text)), sublist_take.
Qed.

Lemma has_true (set : list jsstring) (w : jsstring) : has set w = true <-> w ∈ set.
Proof.
  unfold has. rewrite existsb_exists. split.
  - intros (x & Hin & Heq). apply eqb_true in Heq. subst x. by apply list_elem_of_In.
  - intros Hin. exists w. split; [by apply list_elem_of_In|apply eqb_refl].
Qed.

Lemma elem_of_List_filter {A} (f : A -> bool) (x : A) (l : list A) :
  x ∈ List.filter f l <-> x ∈ l /\ f x = true.
Proof. rewrite !list_elem_of_In. apply filter_In. Qed.

Lemma keys_frequencyPass (k : jsstring) (ws : list jsstring) (freq : JsMap.t Z) :
  k ∈ JsMap.keys (foldl countWord freq ws) ->
  k ∈ JsMap.keys freq \/ (k ∈ ws /\ qualifies k = true).
Proof.
  revert freq. induction ws as [|w ws IH]; intros freq Hk; [by left|].
  change (foldl countWord freq (w :: ws)) with (foldl countWord (countWord freq w) ws) in Hk.
  apply IH in Hk as [Hk|[Hk Hq]].
  - unfold countWord in Hk. fold (qualifies w) in Hk.
    destruct (qualifies w) eqn:Hq; [|by left].
    apply keys_set_elem in Hk as [->|Hk]; [|by left].
    right. split; [apply elem_of_cons; by left|done].
  - right. split; [apply elem_of_cons; by right|done].
Qed.

Lemma keys_phrasePass (tl k : jsstring) (ps : list jsstring) (freq : JsMap.t Z) :
  k ∈ JsMap.keys (foldl (addPhrase tl) freq ps) ->
  k ∈ JsMap.keys freq \/ (k ∈ ps /\ includes k tl = true).
Proof.
  revert freq. induction ps as [|p ps IH]; intros freq Hk; [by left|].
  change (foldl (addPhrase tl) freq (p :: ps))
    with (foldl (addPhrase tl) (addPhrase tl freq p) ps) in Hk.
  apply IH in Hk as [Hk|[Hk Hq]].
  - unfold addPhrase in Hk. destruct (includes p tl) eqn:Hq; [|by left].
    apply keys_set_elem in Hk as [->|Hk]; [|by left].
    right. split; [apply elem_of_cons; by left|done].
  - right. split; [apply elem_of_cons; by right|done].
Qed.

(** The tokens of [split(/\s+/)] are made of units of the text that are
    not white space. *)
Lemma splitSpaces_units (s : jsstring) :
  forall inSep tok, tok ∈ splitSpaces inSep s ->
    Forall (fun c => c ∈ s /\ isSpace c = false) tok.
Proof.
  induction s as [|c s IH]; intros inSep tok Htok; simpl in Htok.
  - apply list_elem_of_singleton in Htok. subst. constructor.
  - assert (Hmono : forall t, Forall (fun d => d ∈ s /\ isSpace d = false) t ->
                              Forall (fun d => d ∈ c :: s /\ isSpace d = false) t).
    { intros t. apply Forall_impl. intros d [Hd Hs]. split; [|done].
      apply elem_of_cons. by right. }
    destruct (isSpace c) eqn:Hc.
    + destruct inSep.
      * by apply Hmono, (IH true).
      * apply elem_of_cons in Htok as [->|Htok]; [constructor|].
        by apply Hmono, (IH true).
    + destruct (splitSpaces false s) as [|l ls] eqn:Hsplit.
      * apply list_elem_of_singleton in Htok. subst.
        constructor; [|constructor]. split; [apply elem_of_cons; by left|done].
      * apply elem_of_cons in Htok as [->|Htok].
        -- constructor; [split; [apply elem_of_cons; by left|done]|].
           apply Hmono, (IH false). rewrite Hsplit. apply elem_of_cons. by left.
        -- apply Hmono, (IH false). rewrite Hsplit. apply elem_of_cons. by right.
Qed.

Lemma keptUnit_cleanUnit (c : N) : keptUnit (cleanUnit c) = true.
Proof. unfold cleanUnit. destruct (keptUnit c) eqn:E; [done|reflexivity]. Qed.

Lemma keptUnit_not_upper (c : N) : keptUnit c = true -> isUpper c = false.
Proof.
  unfold keptUnit, isUpper, isLower, isDigit, isSpace. intros H.
  apply andb_false_iff.
  destruct (65 <=? c)%N eqn:E1; [|by left]. right.
  destruct (c <=? 90)%N eqn:E2; [|done].
  apply N.leb_le in E1, E2.
  repeat (apply orb_true_iff in H as [H|H]);
    repeat match goal with
           | H : (_ && _) = true |- _ => apply andb_true_iff in H as [? ?]
           | H : (_ <=? _)%N = true |- _ => apply N.leb_le in H
           | H : (_ =? _)%N = true |- _ => apply N.eqb_eq in H
           end; lia.
Qed.

Lemma extractWords_units (text w : jsstring) :
  w ∈ extractWords text ->
  2 <= length w /\ has stopWords w = false /\ has softSkillsToExclude w = false
  /\ Forall (fun c => isUpper c = false /\ isSpace c = false) w.
Proof.
  unfold extractWords. intros Hw. apply elem_of_List_filter in Hw as [Htok Hf].
  apply andb_true_iff in Hf as [Hf Hsoft]. apply andb_true_iff in Hf as [Hlen Hstop].
  apply Nat.leb_le in Hlen. apply negb_true_iff in Hstop, Hsoft.
  split; [done|]. split; [done|]. split; [done|].
  apply splitSpaces_units in Htok. eapply Forall_impl; [|exact Htok].
  intros c [Hc Hs]. split; [|done].
  apply list_elem_of_fmap in Hc as (d & -> & _).
  apply keptUnit_not_upper, keptUnit_cleanUnit.
Qed.

Lemma multiWordPatterns_facts :
  forallb (fun p => negb (has stopWords p) && (2 <=? length p)
                    && forallb (fun c => negb (isUpper c)) p)
    multiWordPatterns = true.
Proof. vm_compute. reflexivity. Qed.

Lemma ranked_members (f : jsstring * Z -> bool) (m : JsMap.t Z) (k : jsstring) :
  k ∈ (fun e => e.1) <$> sortByScore (List.filter f m) ->
  exists v, (k, v) ∈ m /\ f (k, v) = true.
Proof.
  intros Hk. apply list_elem_of_fmap in Hk as ([k' v] & -> & He).
  rewrite sortByScore_perm in He. apply elem_of_List_filter in He as [Hm Hf].
  by exists v.
Qed.

Lemma ranked_not_soft (m : JsMap.t Z) (k : jsstring) :
  k ∈ (fun e => e.1)
        <$> sortByScore (List.filter (fun e => negb (has softSkillsToExclude e.1)) m) ->
  has softSkillsToExclude k = false /\ k ∈ JsMap.keys m.
Proof.
  intros Hk. apply ranked_members in Hk as (v & Hm & Hf).
  split; [by apply negb_true_iff in Hf|].
  apply list_elem_of_fmap. by exists (k, v).
Qed.

Lemma rankedEntries_members (text k : jsstring) :
  k ∈ (fun e => e.1) <$> rankedEntries text ->
  has softSkillsToExclude k = false /\ k ∈ JsMap.keys (finalFrequencies text).
Proof. exact (ranked_not_soft (finalFrequencies text) k). Qed.

Lemma finalFrequencies_eq (text : jsstring) :
  finalFrequencies text
  = foldl (addPhrase (toLowerCase text)) (frequencyPass (extractWords text))
      multiWordPatterns.
Proof. reflexivity. Qed.

Lemma finalFrequencies_members (text k : jsstring) :
  k ∈ JsMap.keys (finalFrequencies text) ->
  (k ∈ extractWords text /\ qualifies k = true)
  \/ (k ∈ multiWordPatterns /\ includes k (toLowerCase text) = true).
Proof.
  rewrite finalFrequencies_eq. intros Hk.
  apply keys_phrasePass in Hk. destruct Hk as [Hk|Hk]; [left|right; exact Hk].
  apply keys_frequencyPass in Hk. destruct Hk as [Hk|Hk]; [|exact Hk].
  apply elem_of_nil in Hk. destruct Hk.
Qed.

(** X7.  Every keyword of the extracted list is either one of the fixed
    multi-word phrases, contained in the lowered text, or a token of the
    text that passed the frequency test; in both cases it has at least two
    code units, holds no upper-case letter, and is neither a stop word nor
    one of the excluded soft skills; a token holds no white space. *)
Theorem extracted_keywords_are_filtered (text : jsstring) (maxKw : nat) (k : jsstring) :
  k ∈ all (ultraFastExtraction text maxKw) ->
  has softSkillsToExclude k = false
  /\ has stopWords k = false
  /\ 2 <= length k
  /\ Forall (fun c => isUpper c = false) k
  /\ (has multiWordPatterns k = true /\ includes k (toLowerCase text) = true
      \/ qualifies k = true /\ k ∈ extractWords text
         /\ Forall (fun c => isSpace c = false) k).
Proof.
  rewrite sortedKeywords_ranked. intros Hk.
  apply (subseteq_take maxKw) in Hk.
  apply rankedEntries_members in Hk. destruct Hk as [Hsoft Hk].
  split; [exact Hsoft|].
  apply finalFrequencies_members in Hk. destruct Hk as [[Hk Hq]|[Hk Hinc]].
  - destruct (extractWords_units _ _ Hk) as (Hlen & Hstop & _ & Hunits).
    split; [exact Hstop|]. split; [exact Hlen|]. split.
    { eapply Forall_impl; [|exact Hunits]. intros c [H1 H2]. exact H1. }
    right. split; [exact Hq|]. split; [exact Hk|].
    eapply Forall_impl; [|exact Hunits]. intros c [H1 H2]. exact H2.
  - pose proof multiWordPatterns_facts as Hall. rewrite forallb_forall in Hall.
    specialize (Hall k (proj1 (list_elem_of_In _ _) Hk)).
    apply andb_true_iff in Hall. destruct Hall as [Hall Hlow].
    apply andb_true_iff in Hall. destruct Hall as [Hstop Hlen].
    apply negb_true_iff in Hstop. apply Nat.leb_le in Hlen.
    split; [exact Hstop|]. split; [exact Hlen|]. split.
    { apply Forall_forall. intros c Hc. rewrite forallb_forall in Hlow.
      apply negb_true_iff, Hlow. first [exact Hc | by apply list_elem_of_In]. }
    left. split; [apply has_true; exact Hk|exact Hinc].
Qed.

Lemma extracted_keywords_are_filtered_witness :
  has softSkillsToExclude (lit "kubernetes") = false
  /\ has stopWords (lit "kubernetes") = false.
Proof.
  destruct (extracted_keywords_are_filtered scenarioPosting 35 (lit "kubernetes")
              ltac:(apply (bool_decide_unpack _); vm_compute; reflexivity))
    as (H1 & H2 & _).
  split; [exact H1|exact H2].
Defined.

(** *** The ranking *)

Section Ranking.
Local Open Scope Z_scope.

Local Abbreviation byScore := (fun a b : jsstring * Z => b.2 <= a.2).

Lemma insertByScore_Forall (P : jsstring * Z -> Prop) x l :
  P x -> Forall P l -> Forall P (insertByScore x l).
Proof.
  intros Hx Hl. induction Hl as [|y l Hy Hl IH]; simpl.
  - by constructor.
  - destruct (y.2 - x.2 <=? 0); repeat constructor; done.
Qed.

Lemma insertByScore_sorted x l :
  Sorted.StronglySorted byScore l -> Sorted.StronglySorted byScore (insertByScore x l).
Proof.
  intros Hl. induction Hl as [|y l Hl IH Hy]; simpl.
  - repeat constructor.
  - destruct (y.2 - x.2 <=? 0) eqn:E.
    + apply Z.leb_le in E. constructor; [by constructor|].
      constructor; [lia|]. eapply Forall_impl; [|exact Hy]. simpl. intros; lia.
    + apply Z.leb_gt in E. constructor; [exact IH|].
      apply insertByScore_Forall; [lia|exact Hy].
Qed.

Lemma sortByScore_sorted l : Sorted.StronglySorted byScore (sortByScore l).
Proof.
  induction l as [|x l IH]; simpl; [constructor|]. by apply insertByScore_sorted.
Qed.

(** Entries of one score keep the order they had before the sort. *)
Lemma insertByScore_stable (v : Z) x l :
  List.filter (fun e => e.2 =? v) (insertByScore x l)
  = List.filter (fun e => e.2 =? v) (x :: l).
Proof.
  induction l as [|y l IH]; [done|]. simpl insertByScore.
  destruct (y.2 - x.2 <=? 0) eqn:E; [done|]. apply Z.leb_gt in E.
  change (List.filter (fun e => e.2 =? v) (y :: insertByScore x l))
    with (if y.2 =? v then y :: List.filter (fun e => e.2 =? v) (insertByScore x l)
          else List.filter (fun e => e.2 =? v) (insertByScore x l)).
  rewrite IH. simpl.
  destruct (x.2 =? v) eqn:Ex, (y.2 =? v) eqn:Ey; try done.
  apply Z.eqb_eq in Ex, Ey. lia.
Qed.

Lemma sortByScore_stable (v : Z) l :
  List.filter (fun e => e.2 =? v) (sortByScore l) = List.filter (fun e => e.2 =? v) l.
Proof.
  induction l as [|x l IH]; [done|]. simpl sortByScore.
  rewrite insertByScore_stable. simpl. by rewrite IH.
Qed.

Lemma get_of_entry (m : JsMap.t Z) (k : jsstring) (v : Z) :
  NoDup (JsMap.keys m) -> (k, v) ∈ m -> JsMap.get k m = Some v.
Proof.
  induction m as [|[k' v'] m IH]; intros Hnd Hin; [by apply elem_of_nil in Hin|].
  simpl in Hnd. apply list.NoDup_cons in Hnd as [Hk' Hnd].
  apply elem_of_cons in Hin as [Heq|Hin].
  - injection Heq as <- <-. simpl. by rewrite eqb_refl.
  - assert (k <> k').
    { intros ->. apply Hk'. apply list_elem_of_fmap. by exists (k', v). }
    rewrite get_cons_ne by done. by apply IH.
Qed.

End Ranking.

Lemma rankedEntries_eq (text : jsstring) :
  rankedEntries text
  = sortByScore
      (List.filter (fun e => negb (has softSkillsToExclude e.1)) (finalFrequencies text)).
Proof. reflexivity. Qed.

(** X8.  The entries the extracted list is cut from are the entries of the
    final frequency table that are not excluded soft skills, each with the
    binary64 score the table holds for it, in non-increasing order of
    score, and entries of equal score stay in the order in which the table
    first saw them.  The list is their first [maxKeywords] keys, and
    [slice(0, maxKeywords)] of the keys for any integer [maxKeywords]. *)
Theorem ranking_by_score (text : jsstring) (maxKw : nat) :
  all (ultraFastExtraction text maxKw) = take maxKw ((fun e => e.1) <$> rankedEntries text)
  /\ (forall k : Z,
        all (IntCap.ultraFastExtraction text k)
        = IntCap.slice 0 k ((fun e => e.1) <$> rankedEntries text))
  /\ rankedEntries text
       ≡ₚ List.filter (fun e => negb (has softSkillsToExclude e.1)) (finalFrequencies text)
  /\ (forall k v, (k, v) ∈ rankedEntries text ->
        JsMap.get k (finalFrequencies text) = Some v)
  /\ Sorted.StronglySorted (fun a b => (b.2 <= a.2)%Z) (rankedEntries text)
  /\ (forall v,
        List.filter (fun e => (e.2 =? v)%Z) (rankedEntries text)
        = List.filter (fun e => (e.2 =? v)%Z)
            (List.filter (fun e => negb (has softSkillsToExclude e.1))
               (finalFrequencies text))).
Proof.
  split; [apply sortedKeywords_ranked|].
  split; [intros k; apply int_sortedKeywords_ranked|].
  rewrite rankedEntries_eq.
  generalize (finalFrequencies_NoDup text). generalize (finalFrequencies text).
  intros m Hnd. split; [apply sortByScore_perm|]. split.
  - intros k v Hin. apply get_of_entry; [exact Hnd|].
    rewrite sortByScore_perm in Hin.
    apply elem_of_List_filter in Hin. exact (proj1 Hin).
  - split; [apply sortByScore_sorted|]. intros v. apply sortByScore_stable.
Qed.

(** *** Letter case *)

Lemma lowerUnit_idem (c : N) : lowerUnit (lowerUnit c) = lowerUnit c.
Proof.
  unfold lowerUnit. destruct (isUpper c) eqn:E; [|by rewrite E].
  unfold isUpper in *. apply andb_true_iff in E as [E1 E2].
  apply N.leb_le in E1, E2.
  replace ((65 <=? c + 32) && (c + 32 <=? 90))%N with false; [done|].
  symmetry. apply andb_false_iff. right. apply N.leb_gt. lia.
Qed.

Lemma toLowerCase_idem (s : jsstring) : toLowerCase (toLowerCase s) = toLowerCase s.
Proof.
  unfold toLowerCase. rewrite <- list_fmap_compose. apply list_fmap_ext.
  intros i c _. apply lowerUnit_idem.
Qed.

(** X9.  Extraction ignores the letter case of a posting written in plain
    units (units below 128, white space, the bullet glyphs): such a text
    and its lower-case form give the same keyword set, for a natural
    number and for any integer as [maxKeywords]. *)
Theorem extraction_ignores_case (text : jsstring) (maxKw : nat) :
  isPlain text = true ->
  ultraFastExtraction (toLowerCase text) maxKw = ultraFastExtraction text maxKw
  /\ forall k : Z,
       IntCap.ultraFastExtraction (toLowerCase text) k
       = IntCap.ultraFastExtraction text k.
Proof.
  intros _. split; [|intros k];
    unfold ultraFastExtraction, sortedKeywords, IntCap.ultraFastExtraction,
      IntCap.sortedKeywords, extractWords;
    rewrite !toLowerCase_idem; reflexivity.
Qed.

Lemma extraction_ignores_case_witness :
  ultraFastExtraction (toLowerCase scenarioPosting) 35
  = ultraFastExtraction scenarioPosting 35.
Proof.
  assert (Hplain : isPlain scenarioPosting = true) by (vm_compute; reflexivity).
  exact (proj1 (extraction_ignores_case scenarioPosting 35 Hplain)).
Defined.

(** *** The phrase pass *)

Lemma phrasePass_score (tl : jsstring) (ps : list jsstring) :
  NoDup ps ->
  forall (freq : JsMap.t Z) (k : jsstring),
    getOr0 k (foldl (addPhrase tl) freq ps)
    = if has ps k && includes k tl then F64.add (getOr0 k freq) 10
      else getOr0 k freq.
Proof.
  induction 1 as [|p ps Hp Hnd IH]; intros freq k; [reflexivity|].
  change (foldl (addPhrase tl) freq (p :: ps))
    with (foldl (addPhrase tl) (addPhrase tl freq p) ps).
  rewrite IH. unfold has at 2. simpl existsb. fold (has ps k).
  destruct (Js.eqb k p) eqn:E.
  - apply eqb_true in E. subst k.
    replace (has ps p) with false
      by (symmetry; apply not_true_iff_false; intros H; by apply has_true in H).
    simpl. unfold addPhrase. destruct (includes p tl).
    + by rewrite getOr0_set_eq.
    + reflexivity.
  - apply eqb_false in E. simpl. unfold addPhrase.
    assert (Hk : getOr0 k (if includes p tl
                           then JsMap.set p (F64.add (getOr0 p freq) 10) freq
                           else freq) = getOr0 k freq).
    { destruct (includes p tl); [by rewrite getOr0_set_ne|reflexivity]. }
    by rewrite Hk.
Qed.

Lemma multiWordPatterns_NoDup : NoDup multiWordPatterns.
Proof. apply (bool_decide_unpack _). vm_compute. reflexivity. Qed.

(** X10.  A multi-word phrase that occurs in the lowered text adds 10 to
    the score its own token may already have, once, however often it
    occurs; every other score is the one of the frequency pass.  The sum
    is the binary64 one: it is the exact sum while the score is at most
    2^53 - 10. *)
Theorem phrase_bonus (text k : jsstring) :
  let s := getOr0 k (frequencyPass (extractWords text)) in
  getOr0 k (finalFrequencies text)
  = (if has multiWordPatterns k && includes k (toLowerCase text)
     then F64.add s 10 else s)
  /\ ((0 <= s <= 2 ^ 53 - 10)%Z -> F64.add s 10 = (s + 10)%Z).
Proof.
  cbv zeta. split.
  - rewrite finalFrequencies_eq. apply phrasePass_score, multiWordPatterns_NoDup.
  - intros Hs. unfold F64.add. apply rnd_exact. lia.
Qed.

Lemma phrase_bonus_witness :
  getOr0 (lit "node.js") (frequencyPass (extractWords (lit "We use Node.js")))
  = 1%Z
  /\ getOr0 (lit "node.js") (finalFrequencies (lit "We use Node.js")) = 11%Z.
Proof.
  split; [vm_compute; reflexivity|].
  destruct (phrase_bonus (lit "We use Node.js") (lit "node.js")) as [Hs Hadd].
  rewrite Hs. change (has multiWordPatterns (lit "node.js")
                      && includes (lit "node.js") (toLowerCase (lit "We use Node.js")))
    with true. cbv iota.
  rewrite Hadd; vm_compute; [reflexivity|split; discriminate].
Defined.

(** ** Distribution: the coverage test, the section, the queue *)

Lemma canon_lower (c : N) : Regex.canon true (lowerUnit c) = Regex.canon true c.
Proof.
  unfold Regex.canon, lowerUnit, upperUnit, isUpper, isLower.
  destruct ((65 <=? c) && (c <=? 90))%N eqn:E.
  - apply andb_true_iff in E as [E1 E2]. apply N.leb_le in E1, E2.
    replace ((97 <=? c + 32) && (c + 32 <=? 122))%N with true
      by (symmetry; apply andb_true_iff; split; apply N.leb_le; lia).
    replace ((97 <=? c) && (c <=? 122))%N with false
      by (symmetry; apply andb_false_iff; left; apply N.leb_gt; lia).
    lia.
  - reflexivity.
Qed.

Lemma matchLit_lower (l : jsstring) :
  forall prev s k,
    Regex.matchLit true (toLowerCase l) prev s k = Regex.matchLit true l prev s k.
Proof.
  induction l as [|a l IH]; intros prev s k; [done|].
  change (toLowerCase (a :: l)) with (lowerUnit a :: toLowerCase l).
  destruct s as [|c s]; [done|]. cbn [Regex.matchLit].
  rewrite canon_lower, IH. reflexivity.
Qed.

Lemma execFrom_ext (i : bool) (r r' : regex) :
  (forall prev s k, Regex.rmatch i r prev s k = Regex.rmatch i r' prev s k) ->
  forall s idx prev, Regex.execFrom i r idx prev s = Regex.execFrom i r' idx prev s.
Proof.
  intros Hext. induction s as [|c s IH]; intros idx prev; simpl; rewrite Hext.
  - done.
  - destruct (Regex.rmatch i r' prev (c :: s) _); [done|apply IH].
Qed.

Lemma isPresent_lower (cvLower kw : jsstring) :
  isPresent cvLower (toLowerCase kw) = isPresent cvLower kw.
Proof.
  unfold isPresent, Regex.test, Regex.exec.
  rewrite (execFrom_ext true (keywordRegex (toLowerCase kw)) (keywordRegex kw)); [done|].
  intros prev s k. unfold keywordRegex. simpl. by rewrite matchLit_lower.
Qed.

(** X11.  For resumes and keywords written in plain units (units below
    128, white space, the bullet glyphs), whether a keyword counts as
    already present depends neither on the letter case of the resume nor
    on that of the keyword. *)
Theorem coverage_ignores_case (text text' kw kw' : jsstring) :
  isPlain text = true -> isPlain text' = true ->
  isPlain kw = true -> isPlain kw' = true ->
  toLowerCase text = toLowerCase text' ->
  toLowerCase kw = toLowerCase kw' ->
  isPresent (toLowerCase text) kw = isPresent (toLowerCase text') kw'.
Proof.
  intros _ _ _ _ Ht Hk. rewrite <- (isPresent_lower _ kw), <- (isPresent_lower _ kw').
  by rewrite Ht, Hk.
Qed.

Lemma coverage_ignores_case_witness :
  isPresent (toLowerCase (lit "Built with PYTHON and Go")) (lit "Python") = true.
Proof.
  rewrite (coverage_ignores_case (lit "Built with PYTHON and Go")
             (lit "built with python and go") (lit "Python") (lit "python")
             eq_refl eq_refl eq_refl eq_refl eq_refl eq_refl).
  vm_compute. reflexivity.
Defined.

(** *** Where a match lies *)

Lemma matchLit_suffix (i : bool) (l : jsstring) :
  forall prev s k n,
    Regex.matchLit i l prev s k = Some n ->
    exists prev' s', s' `suffix_of` s /\ k prev' s' = Some n.
Proof.
  induction l as [|a l IH]; intros prev s k n H; simpl in H.
  - by exists prev, s.
  - destruct s as [|c s]; [done|].
    destruct (Regex.canon i a =? Regex.canon i c)%N; [|done].
    apply IH in H as (prev' & s' & Hs & Hk). exists prev', s'.
    split; [by apply suffix_cons_r|done].
Qed.

Lemma matchStar_suffix (p : N -> bool) :
  forall s prev k n,
    Regex.matchStar p prev s k = Some n ->
    exists prev' s', s' `suffix_of` s /\ k prev' s' = Some n.
Proof.
  induction s as [|c s IH]; intros prev k n H; simpl in H.
  - by exists prev, [].
  - destruct (p c).
    + destruct (Regex.matchStar p (Some c) s k) eqn:E.
      * injection H as ->. apply IH in E as (prev' & s' & Hs & Hk).
        exists prev', s'. split; [by apply suffix_cons_r|done].
      * by exists prev, (c :: s).
    + by exists prev, (c :: s).
Qed.

Lemma rmatch_suffix (i : bool) (r : regex) :
  forall prev s k n,
    Regex.rmatch i r prev s k = Some n ->
    exists prev' s', s' `suffix_of` s /\ k prev' s' = Some n.
Proof.
  induction r as [| |p|l|p|a IHa b IHb|a IHa b IHb]; intros prev s k n H; simpl in H.
  - destruct prev; [done|]. by exists None, s.
  - destruct (xorb _ _); [|done]. by exists prev, s.
  - destruct s as [|c s]; [done|]. destruct (p c); [|done].
    exists (Some c), s. split; [by apply suffix_cons_r|done].
  - by apply matchLit_suffix in H.
  - by apply matchStar_suffix in H.
  - apply IHa in H as (p1 & s1 & Hs1 & H). apply IHb in H as (p2 & s2 & Hs2 & H).
    exists p2, s2. split; [by etrans|done].
  - destruct (Regex.rmatch i a prev s k) eqn:E.
    + injection H as ->. by apply IHa in E.
    + by apply IHb in H.
Qed.

Lemma execFrom_bounds (i : bool) (r : regex) :
  forall s idx prev j len,
    Regex.execFrom i r idx prev s = Some (j, len) ->
    idx <= j /\ j - idx + len <= length s.
Proof.
  induction s as [|c s IH]; intros idx prev j len H; simpl in H.
  - destruct (Regex.rmatch i r prev [] _); [|done].
    injection H as <- <-. simpl. lia.
  - destruct (Regex.rmatch i r prev (c :: s) _).
    + injection H as <- <-. simpl. lia.
    + apply IH in H. simpl. lia.
Qed.

(** The match found by [exec] starts at a position where the pattern
    matches. *)
Lemma execFrom_start (i : bool) (r : regex) :
  forall s idx prev j len,
    Regex.execFrom i r idx prev s = Some (j, len) ->
    exists pre suf prev' n,
      s = pre ++ suf /\ length pre = j - idx
      /\ Regex.rmatch i r prev' suf (fun _ s' => Some (length s')) = Some n.
Proof.
  induction s as [|c s IH]; intros idx prev j len H; simpl in H.
  - destruct (Regex.rmatch i r prev [] _) eqn:E; [|done].
    injection H as <- <-. exists [], [], prev, n. rewrite Nat.sub_diag. done.
  - destruct (Regex.rmatch i r prev (c :: s) _) eqn:E.
    + injection H as <- <-. exists [], (c :: s), prev, n. rewrite Nat.sub_diag. done.
    + pose proof (execFrom_bounds _ _ _ _ _ _ _ H) as [Hle _].
      apply IH in H as (pre & suf & prev' & n & -> & Hlen & Hn).
      exists (c :: pre), suf, prev', n. split; [done|]. split; [simpl; lia|done].
Qed.

Lemma exec_bounds (i : bool) (r : regex) (s : jsstring) (j len : nat) :
  Regex.exec i r s = Some (j, len) -> j + len <= length s.
Proof.
  intros H. apply execFrom_bounds in H. lia.
Qed.

Lemma rmatch_lit_head (i : bool) (a : N) (rest : regex) prev (s : list N) k n :
  Regex.rmatch i (Seq (Lit [a]) rest) prev s k = Some n ->
  exists c s', s = c :: s' /\ Regex.canon i a = Regex.canon i c.
Proof.
  cbn [Regex.rmatch Regex.matchLit]. destruct s as [|c s']; [done|].
  destruct (Regex.canon i a =? Regex.canon i c)%N eqn:E; [|done].
  intros _. exists c, s'. split; [done|]. by apply N.eqb_eq.
Qed.

Lemma canon_NL (c : N) : Regex.canon true NL = Regex.canon true c -> c = NL.
Proof.
  unfold Regex.canon, upperUnit, isLower, NL. simpl.
  destruct ((97 <=? c) && (c <=? 122))%N eqn:E'; [|done].
  apply andb_true_iff in E' as [E1 E2]. apply N.leb_le in E1, E2. lia.
Qed.

(** A match of a heading pattern starts with a line feed. *)
Lemma heading_starts_with_NL (names : list regex) (s : list N) (j len : nat) :
  Regex.exec true (headingRegex names) s = Some (j, len) -> s !! j = Some NL.
Proof.
  intros H. apply execFrom_start in H as (pre & suf & prev' & n & -> & Hlen & Hn).
  rewrite Nat.sub_0_r in Hlen. subst j.
  rewrite lookup_app_r by lia. rewrite Nat.sub_diag.
  change (headingRegex names)
    with (Seq (Lit [NL]) (seqs [alts names; StarCls spaceOrColon; Lit [NL]])) in Hn.
  apply rmatch_lit_head in Hn as (c & s' & -> & Hc).
  apply canon_NL in Hc. by subst c.
Qed.

Lemma experienceBounds_range (text : jsstring) (expStart expEnd : nat) :
  experienceBounds text = Some (expStart, expEnd) ->
  expStart <= expEnd <= length text
  /\ (expEnd < length text -> text !! expEnd = Some NL).
Proof.
  unfold experienceBounds. intros H.
  destruct (Regex.exec true experienceHeading text) as [[index len]|] eqn:E; [|done].
  apply exec_bounds in E.
  destruct (Regex.exec true nextSectionHeading _) as [[nextIndex len']|] eqn:E'.
  - injection H as <- <-.
    pose proof (heading_starts_with_NL _ _ _ _ E') as HNL.
    apply exec_bounds in E'. unfold Js.substringFrom in *.
    rewrite length_drop in E'. rewrite lookup_drop in HNL.
    split; [lia|]. intros _. exact HNL.
  - injection H as <- <-. split; [lia|]. lia.
Qed.

(** X12.  When an experience section is found, it lies within the text:
    its start is not after its end, its end not after the end of the text,
    and when it stops before the end of the text it stops at the line feed
    that precedes the next section heading. *)
Theorem section_within_text (text : jsstring) (expStart expEnd : nat) :
  experienceBounds text = Some (expStart, expEnd) ->
  expStart <= expEnd <= length text
  /\ (expEnd < length text -> text !! expEnd = Some NL).
Proof.
  unfold experienceBounds. intros H.
  destruct (Regex.exec true experienceHeading text) as [[index len]|] eqn:E; [|done].
  apply exec_bounds in E.
  destruct (Regex.exec true nextSectionHeading _) as [[nextIndex len']|] eqn:E'.
  - injection H as <- <-.
    pose proof (heading_starts_with_NL _ _ _ _ E') as HNL.
    apply exec_bounds in E'. unfold Js.substringFrom in *.
    rewrite length_drop in E'. rewrite lookup_drop in HNL.
    split; [lia|]. intros _. exact HNL.
  - injection H as <- <-. split; [lia|]. lia.
Qed.

Lemma section_within_text_witness :
  20 <= 60 <= length sampleCV /\ sampleCV !! 60 = Some NL.
Proof.
  destruct (section_within_text sampleCV 20 60 ltac:(vm_compute; reflexivity))
    as [H1 H2].
  split; [exact H1|]. apply H2. vm_compute. lia.
Defined.

Lemma List_filter_all {A} (f : A -> bool) (l : list A) :
  (forall x, x ∈ l -> f x = true) -> List.filter f l = l.
Proof.
  induction l as [|x l IH]; intros H; [done|]. simpl.
  rewrite (H x) by (apply elem_of_cons; by left).
  f_equal. apply IH. intros y Hy. apply H, elem_of_cons. by right.
Qed.

Lemma List_filter_none {A} (f : A -> bool) (l : list A) :
  (forall x, x ∈ l -> f x = true) -> List.filter (fun x => negb (f x)) l = [].
Proof.
  induction l as [|x l IH]; intros H; [done|]. simpl.
  rewrite (H x) by (apply elem_of_cons; by left). simpl.
  apply IH. intros y Hy. apply H, elem_of_cons. by right.
Qed.

(** X13.  A non-empty resume in which every keyword of a non-empty keyword
    list is already present comes back unchanged, with every keyword
    counted as already present and nothing added or missing, whether or
    not it has an experience section. *)
Theorem covered_resume_unchanged (rand : nat -> nat) (text : jsstring)
    (kws : list jsstring) (options : DistOptions) :
  text <> [] -> kws <> [] ->
  (forall kw, kw ∈ kws -> isPresent (toLowerCase text) kw = true) ->
  distributeHighPriorityKeywords rand (Some text) (Some kws) options
  = {| tailoredCV := Some text;
       distributionStats :=
         StatsOf {| Stats.total := length kws; Stats.alreadyPresent := length kws;
                    Stats.added := 0; Stats.missing := 0 |} |}.
Proof.
  intros Ht Hk Hall. unfold distributeHighPriorityKeywords.
  destruct text as [|c text]; [done|]. destruct kws as [|k kws]; [done|].
  assert (Hm : missingKeywords (c :: text) (k :: kws) = [])
    by exact (List_filter_none _ _ Hall).
  assert (Hp : presentKeywords (c :: text) (k :: kws) = k :: kws)
    by exact (List_filter_all (fun kw => isPresent (toLowerCase (c :: text)) kw) _ Hall).
  rewrite Hm, Hp. reflexivity.
Qed.

Lemma covered_resume_unchanged_witness :
  distributeHighPriorityKeywords (fun n => n) (Some sampleCV)
    (Some [python; lit "services"]) noOptions
  = {| tailoredCV := Some sampleCV;
       distributionStats :=
         StatsOf {| Stats.total := 2; Stats.alreadyPresent := 2;
                    Stats.added := 0; Stats.missing := 0 |} |}.
Proof.
  apply (covered_resume_unchanged (fun n => n) sampleCV [python; lit "services"] noOptions);
    [discriminate|discriminate|].
  intros kw Hkw. apply elem_of_cons in Hkw as [->|Hkw]; [vm_compute; reflexivity|].
  apply list_elem_of_singleton in Hkw. subst kw. vm_compute. reflexivity.
Defined.

Lemma distribute_unchanged_covered rand text kws options :
  text <> [] -> kws <> [] -> missingKeywords text kws = [] ->
  distributeHighPriorityKeywords rand (Some text) (Some kws) options
  = {| tailoredCV := Some text;
       distributionStats :=
         StatsOf {| Stats.total := length kws;
                    Stats.alreadyPresent := length (presentKeywords text kws);
                    Stats.added := 0;
                    Stats.missing := length (missingKeywords text kws) |} |}.
Proof.
  intros Ht Hk Hm. unfold distributeHighPriorityKeywords.
  destruct text as [|c text]; [done|]. destruct kws as [|k kws]; [done|].
  by rewrite Hm.
Qed.

(** Every run on a non-empty text and keyword list either returns the
    text as it is or assembles it from the rewritten section. *)
Lemma distribute_cases rand text kws options :
  text <> [] -> kws <> [] ->
  (distributeHighPriorityKeywords rand (Some text) (Some kws) options
   = {| tailoredCV := Some text;
        distributionStats :=
          StatsOf {| Stats.total := length kws;
                     Stats.alreadyPresent := length (presentKeywords text kws);
                     Stats.added := 0;
                     Stats.missing := length (missingKeywords text kws) |} |})
  \/ exists expStart expEnd,
       experienceBounds text = Some (expStart, expEnd)
       /\ missingKeywords text kws <> []
       /\ bulletLinesOf (sectionLines text expStart expEnd) <> []
       /\ distributeHighPriorityKeywords rand (Some text) (Some kws) options
          = assemble text kws expStart expEnd
              (addOverflowBullets (missingKeywords text kws)
                 (bulletLinesOf (sectionLines text expStart expEnd))
                 (injectBullets rand (capOf options)
                    (keywordsPerBulletOf (length (missingKeywords text kws))
                       (length (bulletLinesOf (sectionLines text expStart expEnd))))
                    (missingKeywords text kws)
                    (bulletLinesOf (sectionLines text expStart expEnd))
                    (initialState (sectionLines text expStart expEnd)))).
Proof.
  intros Ht Hk.
  destruct (experienceBounds text) as [[expStart expEnd]|] eqn:Hexp.
  2: { left. apply distribute_unchanged; [done|done|by left]. }
  destruct (decide (bulletLinesOf (sectionLines text expStart expEnd) = [])) as [Hbl|Hbl].
  { left. apply distribute_unchanged; [done|done|].
    right. by exists expStart, expEnd. }
  destruct (decide (missingKeywords text kws = [])) as [Hm|Hm].
  { left. apply distribute_unchanged_covered; done. }
  right. exists expStart, expEnd. split; [done|]. split; [done|]. split; [done|].
  exact (distribute_full_path rand text kws options expStart expEnd Ht Hk Hm Hexp Hbl).
Qed.

(** X14.  Whatever the run does, the text before the experience section
    and the text from its end on are those of the input. *)
Theorem outside_section_kept (rand : nat -> nat) (text : jsstring)
    (kws : list jsstring) (options : DistOptions) (expStart expEnd : nat) :
  text <> [] -> kws <> [] ->
  experienceBounds text = Some (expStart, expEnd) ->
  exists r,
    tailoredCV (distributeHighPriorityKeywords rand (Some text) (Some kws) options)
    = Some r
    /\ length text - expEnd <= length r
    /\ take expStart r = take expStart text
    /\ drop (length r - (length text - expEnd)) r = drop expEnd text.
Proof.
  intros Ht Hk Hexp.
  destruct (experienceBounds_range _ _ _ Hexp) as [[Hse Hel] _].
  destruct (distribute_cases rand text kws options Ht Hk)
    as [Hr|(s & e & Hexp' & _ & _ & Hr)].
  - exists text. split; [exact (f_equal tailoredCV Hr)|].
    split; [lia|]. split; [done|]. f_equal. lia.
  - rewrite Hexp in Hexp'. injection Hexp' as <- <-.
    eexists. split; [etrans; [exact (f_equal tailoredCV Hr)|reflexivity]|].
    unfold Js.substring, Js.substringFrom. simpl Nat.max. simpl Nat.min.
    rewrite drop_0, Nat.sub_0_r.
    set (body := Js.join [NL] _).
    rewrite !length_app, length_take, length_drop.
    split; [lia|]. split.
    + rewrite take_app_le by (rewrite length_take; lia).
      rewrite take_take. f_equal. lia.
    + rewrite app_assoc. rewrite drop_app_length'; [done|].
      rewrite length_app, length_take. lia.
Qed.

Lemma outside_section_kept_witness :
  exists r,
    tailoredCV (distributeHighPriorityKeywords (fun n => n) (Some sampleCV)
                  (Some (sampleKeywords 7)) noOptions) = Some r
    /\ take 20 r = take 20 sampleCV
    /\ drop (length r - (length sampleCV - 60)) r = drop 60 sampleCV.
Proof.
  destruct (outside_section_kept (fun n => n) sampleCV (sampleKeywords 7) noOptions
              20 60 ltac:(discriminate) ltac:(discriminate)
              ltac:(vm_compute; reflexivity)) as (r & Hr & _ & H1 & H2).
  exists r. split; [exact Hr|]. split; [exact H1|exact H2].
Defined.

(** ** Injected keywords occur in the output *)

Lemma startsWith_app (p b : jsstring) : Js.startsWith p (p ++ b) = true.
Proof. induction p as [|c p IH]; [done|]. simpl. by rewrite N.eqb_refl. Qed.

Lemma includes_app_r (p a s : jsstring) :
  Js.includes p s = true -> Js.includes p (a ++ s) = true.
Proof.
  intros H. induction a as [|d a IH]; [done|].
  change (Js.includes p ((d :: a) ++ s))
    with (Js.startsWith p (d :: a ++ s) || Js.includes p (a ++ s)).
  rewrite IH. apply orb_true_r.
Qed.

Lemma includes_mid (k x y : jsstring) : Js.includes k (x ++ k ++ y) = true.
Proof.
  apply includes_app_r. pose proof (startsWith_app k y) as H.
  destruct (k ++ y); simpl in *; by rewrite H.
Qed.

Lemma flanked_includes (k s : jsstring) : flanked k s -> Js.includes k s = true.
Proof. intros (x & y & -> & _). apply includes_mid. Qed.

Lemma head_app_nonword (y q : jsstring) :
  isWordAt (head y) = false -> isWordAt (head q) = false ->
  isWordAt (head (y ++ q)) = false.
Proof. by destruct y. Qed.

Lemma last_app_some {A} (p x : list A) (c : A) :
  list.last x = Some c -> list.last (p ++ x) = Some c.
Proof. intros H. by rewrite last_app, H. Qed.

Lemma flanked_intro (k x y : jsstring) (c : N) :
  list.last x = Some c -> isWord c = false -> isWordAt (head y) = false ->
  flanked k (x ++ k ++ y).
Proof. intros Hx Hc Hy. exists x, y. split; [done|]. split; [by exists c|done]. Qed.

Lemma flanked_end (k x : jsstring) (c : N) :
  list.last x = Some c -> isWord c = false -> flanked k (x ++ k).
Proof.
  intros Hx Hc. exists x, []. split; [by rewrite app_nil_r|].
  split; [by exists c|done].
Qed.

Lemma flanked_app (k s p q : jsstring) :
  flanked k s -> isWordAt (head q) = false -> flanked k (p ++ s ++ q).
Proof.
  intros (x & y & -> & (c & Hx & Hc) & Hy) Hq.
  exists (p ++ x), (y ++ q). split; [by rewrite <- !app_assoc|].
  split; [exists c; split; [by apply last_app_some|done]|by apply head_app_nonword].
Qed.

Lemma flanked_app_l (k s p : jsstring) : flanked k s -> flanked k (p ++ s).
Proof.
  intros H. rewrite <- (app_nil_r s). by apply flanked_app.
Qed.

(** An element of [arr.join(sep)] lies between separators. *)
Lemma join_flanked_elem (sep : jsstring) (cl ch : N) (k : jsstring) :
  list.last sep = Some cl -> isWord cl = false ->
  head sep = Some ch -> isWord ch = false ->
  forall (l : list jsstring) (p q : jsstring) (c : N),
    k ∈ l -> list.last p = Some c -> isWord c = false ->
    isWordAt (head q) = false ->
    flanked k (p ++ Js.join sep l ++ q).
Proof.
  intros Hl Hcl Hh Hch. induction l as [|y l IH]; intros p q c Hk Hp Hc Hq.
  { by apply elem_of_nil in Hk. }
  destruct l as [|z l].
  { apply list_elem_of_singleton in Hk. subst y. by apply (flanked_intro _ _ _ c). }
  change (Js.join sep (y :: z :: l)) with (y ++ sep ++ Js.join sep (z :: l)).
  apply elem_of_cons in Hk as [->|Hk].
  - rewrite <- !app_assoc. apply (flanked_intro _ _ _ c); [done|done|].
    destruct sep; [done|]. simpl in *. injection Hh as ->. by rewrite Hch.
  - replace (p ++ (y ++ sep ++ Js.join sep (z :: l)) ++ q)
      with ((p ++ y ++ sep) ++ Js.join sep (z :: l) ++ q)
      by (by rewrite <- !app_assoc).
    apply (IH _ _ cl); [done| |done|done].
    rewrite app_assoc. by apply last_app_some.
Qed.

(** A line of [lines.join('\n')] is followed by a line feed or by the end. *)
Lemma join_flanked_line (k : jsstring) (l : list jsstring) (line q : jsstring) :
  line ∈ l -> flanked k line -> isWordAt (head q) = false ->
  flanked k (Js.join [NL] l ++ q).
Proof.
  intros Hx Hf Hq. induction l as [|y l IH]; [by apply elem_of_nil in Hx|].
  destruct l as [|z l].
  { apply list_elem_of_singleton in Hx. subst y.
    change (flanked k ([] ++ line ++ q)). by apply flanked_app. }
  change (Js.join [NL] (y :: z :: l)) with (y ++ [NL] ++ Js.join [NL] (z :: l)).
  apply elem_of_cons in Hx as [->|Hx].
  - rewrite <- app_assoc. change (flanked k ([] ++ y ++ [NL] ++ Js.join [NL] (z :: l) ++ q)).
    by apply flanked_app.
  - rewrite <- !app_assoc. apply flanked_app_l, flanked_app_l. by apply IH.
Qed.

Lemma lastOnly_singleton {A} (l : list A) (x : A) :
  x ∈ Js.lastOnly l -> Js.lastOnly l = [x].
Proof.
  unfold Js.lastOnly. intros Hx.
  assert (Hlen : length (drop (length l - 1) l) <= 1) by (rewrite length_drop; lia).
  destruct (drop (length l - 1) l) as [|y [|z t]]; [by apply elem_of_nil in Hx| |simpl in Hlen; lia].
  apply list_elem_of_singleton in Hx. by subst.
Qed.

Lemma dropLast_lastOnly {A} (l : list A) (x : A) :
  x ∈ l -> x ∈ Js.dropLast l \/ x ∈ Js.lastOnly l.
Proof.
  intros Hx. unfold Js.dropLast, Js.lastOnly.
  rewrite <- (take_drop (length l - 1) l) in Hx at 1.
  by apply elem_of_app in Hx.
Qed.

Lemma last_lit_space (x : jsstring) : list.last (x ++ lit " ") = Some 32%N.
Proof. by apply last_app_some. Qed.

(** The list of three or more keywords: [a, b, and c] between [p] and [q]. *)
Lemma listing_flanked (k : jsstring) (l : list jsstring) (p q : jsstring) :
  k ∈ l -> list.last p = Some 32%N -> isWordAt (head q) = false ->
  flanked k (p ++ Js.join (lit ", ") (Js.dropLast l) ++ lit ", and "
               ++ Js.join (lit ",") (Js.lastOnly l) ++ q).
Proof.
  intros Hk Hp Hq. destruct (dropLast_lastOnly _ _ Hk) as [H|H].
  - apply (join_flanked_elem (lit ", ") 32%N 44%N k eq_refl eq_refl eq_refl eq_refl
             _ _ _ 32%N H Hp eq_refl). done.
  - rewrite (lastOnly_singleton _ _ H).
    change (Js.join (lit ",") [k]) with k.
    rewrite !app_assoc. rewrite <- (app_assoc _ k q).
    apply (flanked_intro _ _ _ 32%N); [|done|done].
    by apply last_app_some.
Qed.

(** The text appended to a bullet names each of its keywords after a space
    and before a comma, a space or the end. *)
Lemma renderInjection_flanked (phrase k : jsstring) (kwsToAdd : list jsstring) :
  k ∈ kwsToAdd -> flanked k (renderInjection phrase kwsToAdd).
Proof.
  intros Hk.
  assert (Hgen : flanked k
            (lit " " ++ phrase ++ lit " " ++ Js.join (lit ", ") (Js.dropLast kwsToAdd)
               ++ lit ", and " ++ Js.join (lit ",") (Js.lastOnly kwsToAdd))).
  { pose proof (listing_flanked k kwsToAdd (lit " " ++ phrase ++ lit " ") [] Hk
                  ltac:(rewrite app_assoc; apply last_lit_space) eq_refl) as H.
    by rewrite !app_nil_r, <- !app_assoc in H. }
  destruct kwsToAdd as [|k0 [|k1 [|k2 l]]]; [by apply elem_of_nil in Hk| | |exact Hgen].
  - apply list_elem_of_singleton in Hk. subst k0. unfold renderInjection.
    rewrite !app_assoc. apply (flanked_end _ _ 32%N); [by apply last_app_some|done].
  - unfold renderInjection. apply elem_of_cons in Hk as [Hk|Hk].
    + subst k0. rewrite !app_assoc. rewrite <- (app_assoc _ (lit " and ") k1).
      rewrite <- (app_assoc _ k (lit " and " ++ k1)).
      apply (flanked_intro _ _ _ 32%N); [by apply last_app_some|done|done].
    + apply list_elem_of_singleton in Hk. subst k1.
      rewrite !app_assoc. apply (flanked_end _ _ 32%N); [by apply last_app_some|done].
Qed.

Lemma appendInjection_flanked (k line injection : jsstring) :
  flanked k injection -> flanked k (appendInjection line injection).
Proof.
  intros H. unfold appendInjection. destruct (Js.endsWith 46 line).
  - by apply flanked_app.
  - by apply flanked_app_l.
Qed.

(** A synthesized bullet names each keyword of its chunk in the same way. *)
Lemma overflowBullet_flanked (k : jsstring) (chunk : list jsstring) :
  k ∈ chunk -> flanked k (overflowBullet chunk).
Proof.
  intros Hk.
  assert (Hgen : flanked k
            ([BULLET] ++ lit " Delivered " ++ Js.join (lit ", ") (Js.dropLast chunk)
               ++ lit ", and " ++ Js.join (lit ",") (Js.lastOnly chunk)
               ++ lit " initiatives across technical teams")).
  { pose proof (listing_flanked k chunk ([BULLET] ++ lit " Delivered ")
                  (lit " initiatives across technical teams") Hk eq_refl eq_refl) as H.
    by rewrite <- !app_assoc in H. }
  destruct chunk as [|k0 [|k1 [|k2 l]]]; [by apply elem_of_nil in Hk| | |exact Hgen].
  - apply list_elem_of_singleton in Hk. subst k0. unfold overflowBullet.
    rewrite app_assoc. by apply (flanked_intro _ _ _ 32%N).
  - unfold overflowBullet. apply elem_of_cons in Hk as [Hk|Hk].
    + subst k0. rewrite app_assoc. by apply (flanked_intro _ _ _ 32%N).
    + apply list_elem_of_singleton in Hk. subst k1.
      rewrite !app_assoc. rewrite <- (app_assoc _ k).
      apply (flanked_intro _ _ _ 32%N); [by apply last_app_some|done|done].
Qed.

(** The overflow block keeps every line of the section. *)
Lemma addOverflowBullets_keeps missingKws bl st (line : jsstring) :
  line ∈ lines st -> line ∈ lines (addOverflowBullets missingKws bl st).
Proof.
  intros H. unfold addOverflowBullets.
  destruct (keywordIndex st <? length missingKws); [|done]. cbn [lines].
  match goal with |- context [if ?c then _ else _] => destruct c end; [|done].
  unfold splice.
  rewrite <- (take_drop (default 0 (bl !! Nat.min 4 (length bl - 1)) + 1) (lines st)) in H.
  apply elem_of_app in H as [H|H]; apply elem_of_app; [by left|right].
  apply elem_of_app. by right.
Qed.

Lemma elem_of_concat {A} (x : A) (ls : list (list A)) :
  x ∈ concat ls -> exists l, x ∈ l /\ l ∈ ls.
Proof.
  induction ls as [|l ls IH]; simpl; intros H; [by apply elem_of_nil in H|].
  apply elem_of_app in H as [H|H].
  - exists l. split; [done|]. apply list_elem_of_here.
  - destruct (IH H) as (l' & H1 & H2). exists l'. split; [done|].
    by apply list_elem_of_further.
Qed.

Lemma experienceBounds_nil : experienceBounds [] = None.
Proof. reflexivity. Qed.

Section Occurrence.
Variables (rand : nat -> nat) (text : jsstring) (kws : list jsstring)
  (options : DistOptions) (expStart expEnd : nat).
Hypothesis Hbl : bulletLinesOf (sectionLines text expStart expEnd) <> [].

Local Abbreviation lines0 := (sectionLines text expStart expEnd).
Local Abbreviation bl := (bulletLinesOf lines0).
Local Abbreviation missingKws := (missingKeywords text kws).
Local Abbreviation pb := (keywordsPerBulletOf (length missingKws) (length bl)).
Local Abbreviation st1 :=
  (injectBullets rand (capOf options) pb missingKws bl (initialState lines0)).
Local Abbreviation st2 := (addOverflowBullets missingKws bl st1).

(** Every missing keyword is named by some line of the rewritten section:
    by the bullet that took it from the queue, or by a synthesized one. *)
Lemma missing_keyword_in_some_line (kw : jsstring) :
  kw ∈ missingKws -> exists line, line ∈ lines st2 /\ flanked kw line.
Proof.
  intros Hkw. apply list_elem_of_lookup_1 in Hkw as [i Hi].
  pose proof (lookup_lt_Some _ _ _ Hi) as Him.
  destruct (injectBullets_from_start rand (capOf options) pb missingKws lines0)
    as (Hki & _ & _ & _ & Hplan).
  set (c := Nat.min (capOf options) pb) in *.
  destruct (decide (i < keywordIndex st1)) as [Hlt|Hge].
  - (* handed to bullet [i / c] *)
    rewrite Hki in Hlt.
    assert (Hc : c <> 0) by (intros E; rewrite E in Hlt; lia).
    pose proof (Nat.div_mod i c Hc) as Hdm.
    pose proof (Nat.mod_upper_bound i c Hc) as Hmod.
    set (j := i / c) in *. set (r := i mod c) in *.
    assert (Hj : j < length bl) by nia.
    destruct (lookup_lt_is_Some_2 bl j Hj) as [x Hx].
    assert (Hxr : x < length lines0).
    { apply bulletLinesOf_range. by eapply list_elem_of_lookup_2. }
    destruct (lookup_lt_is_Some_2 lines0 x Hxr) as [line Hline].
    specialize (Hplan j x line Hx Hline).
    exists (expectedBullet rand (capOf options) pb missingKws j line).
    split.
    { apply addOverflowBullets_keeps. by eapply list_elem_of_lookup_2. }
    unfold expectedBullet. cbv zeta.
    assert (Hq : queueOffset (capOf options) pb (length missingKws) j = c * j).
    { unfold queueOffset. fold c. nia. }
    assert (Hn : r < takenAt (capOf options) pb (length missingKws) j).
    { unfold takenAt. rewrite Hq. fold c in Hmod. unfold c in Hmod |- *. lia. }
    destruct (takenAt (capOf options) pb (length missingKws) j =? 0) eqn:E.
    { apply Nat.eqb_eq in E. lia. }
    apply appendInjection_flanked, renderInjection_flanked.
    apply (list_elem_of_lookup_2 _ r). rewrite lookup_take_lt by exact Hn.
    rewrite lookup_drop, Hq. by replace (c * j + r) with i by lia.
  - (* left over: named by a synthesized bullet *)
    assert (Hrem : kw ∈ drop (keywordIndex st1) missingKws).
    { apply (list_elem_of_lookup_2 _ (i - keywordIndex st1)).
      rewrite lookup_drop. by replace (keywordIndex st1 + (i - keywordIndex st1)) with i by lia. }
    rewrite <- chunks3_concat in Hrem.
    apply elem_of_concat in Hrem as (chunk & Hkc & Hchunk).
    destruct (lookup_lt_is_Some_2 bl (Nat.min 4 (length bl - 1))) as [p Hp].
    { assert (length bl <> 0) by (intros E; by apply nil_length_inv in E). lia. }
    assert (Hlt : keywordIndex st1 < length missingKws) by lia.
    destruct (addOverflowBullets_spec missingKws bl st1 p Hlt Hp) as (Hlines & _).
    exists (overflowBullet chunk). split; [|by apply overflowBullet_flanked].
    rewrite Hlines. apply elem_of_app. right. apply elem_of_app. left.
    apply list_elem_of_fmap. by exists chunk.
Qed.

End Occurrence.

(** The returned text names every missing keyword after a unit that is not
    a word character and before one (or before the end of the text). *)
Lemma missing_keyword_flanked (rand : nat -> nat) (text : jsstring)
    (kws : list jsstring) (options : DistOptions) (expStart expEnd : nat)
    (kw : jsstring) :
  experienceBounds text = Some (expStart, expEnd) ->
  bulletLinesOf (sectionLines text expStart expEnd) <> [] ->
  kw ∈ missingKeywords text kws ->
  exists r,
    tailoredCV (distributeHighPriorityKeywords rand (Some text) (Some kws) options)
    = Some r
    /\ flanked kw r.
Proof.
  intros Hexp Hbl Hkw.
  assert (Ht : text <> []).
  { intros ->. rewrite experienceBounds_nil in Hexp. discriminate. }
  assert (Hm : missingKeywords text kws <> []).
  { intros E. rewrite E in Hkw. by apply elem_of_nil in Hkw. }
  assert (Hk : kws <> []).
  { intros ->. by apply Hm. }
  pose proof (distribute_full_path rand text kws options expStart expEnd
                Ht Hk Hm Hexp Hbl) as Hr. cbv zeta in Hr.
  destruct (missing_keyword_in_some_line rand text kws options expStart expEnd
              Hbl kw Hkw) as (line & Hline & Hf).
  destruct (experienceBounds_range _ _ _ Hexp) as [[Hse Hel] HNL].
  eexists. split; [etrans; [exact (f_equal tailoredCV Hr)|reflexivity]|].
  apply flanked_app_l. apply (join_flanked_line _ _ line); [done|done|].
  unfold Js.substringFrom.
  destruct (decide (expEnd < length text)) as [Hlt|Hge].
  - assert (H0 : drop expEnd text !! 0 = Some NL).
    { rewrite lookup_drop, Nat.add_0_r. exact (HNL Hlt). }
    destruct (drop expEnd text) as [|c rest]; [done|].
    simpl in H0. injection H0 as ->. reflexivity.
  - rewrite drop_ge by lia. reflexivity.
Qed.

(** X15.  When the text has an experience section with at least one
    bullet, the returned text contains every keyword that was missing, as
    a contiguous substring in the keyword's own spelling. *)
Theorem missing_keywords_appear (rand : nat -> nat) (text : jsstring)
    (kws : list jsstring) (options : DistOptions) (expStart expEnd : nat)
    (kw : jsstring) :
  experienceBounds text = Some (expStart, expEnd) ->
  bulletLinesOf (sectionLines text expStart expEnd) <> [] ->
  kw ∈ missingKeywords text kws ->
  exists r,
    tailoredCV (distributeHighPriorityKeywords rand (Some text) (Some kws) options)
    = Some r
    /\ Js.includes kw r = true.
Proof.
  intros Hexp Hbl Hkw.
  destruct (missing_keyword_flanked rand text kws options expStart expEnd kw
              Hexp Hbl Hkw) as (r & Hr & Hf).
  exists r. split; [exact Hr|by apply flanked_includes].
Qed.

Lemma missing_keywords_appear_witness :
  exists r,
    tailoredCV (distributeHighPriorityKeywords (fun n => n) (Some sampleCV)
                  (Some (sampleKeywords 7)) noOptions) = Some r
    /\ Js.includes (lit "kw7") r = true.
Proof.
  apply (missing_keywords_appear (fun n => n) sampleCV (sampleKeywords 7) noOptions
           20 60 (lit "kw7")).
  - vm_compute. reflexivity.
  - vm_compute. discriminate.
  - vm_compute. do 6 apply list_elem_of_further. apply list_elem_of_here.
Defined.

(** ** Injected keywords pass the presence test *)

Lemma isWord_lowerUnit (c : N) : isWord (lowerUnit c) = isWord c.
Proof.
  unfold lowerUnit. destruct (isUpper c) eqn:E; [|done].
  unfold isWord. rewrite E.
  unfold isUpper in E. apply andb_true_iff in E as [E1 E2]. apply N.leb_le in E1, E2.
  unfold isLower.
  replace ((97 <=? c + 32) && (c + 32 <=? 122))%N with true
    by (symmetry; apply andb_true_iff; split; apply N.leb_le; lia).
  by rewrite orb_true_r.
Qed.

Lemma isWordAt_lower_head (s : jsstring) :
  isWordAt (head (toLowerCase s)) = isWordAt (head s).
Proof. destruct s; [done|]. apply isWord_lowerUnit. Qed.

Lemma isWordAt_lower_last (s : jsstring) :
  isWordAt (list.last (toLowerCase s)) = isWordAt (list.last s).
Proof.
  unfold toLowerCase. rewrite fmap_last. destruct (list.last s); [|done].
  apply isWord_lowerUnit.
Qed.

(** The literal of a keyword pattern matches the keyword in any letter
    case and leaves its last unit as the previous one. *)
Lemma matchLit_self (kw : jsstring) :
  forall prev b k,
    Regex.matchLit true kw prev (toLowerCase kw ++ b) k
    = k (match list.last (toLowerCase kw) with Some c => Some c | None => prev end) b.
Proof.
  induction kw as [|a kw IH]; intros prev b k; [done|].
  change (toLowerCase (a :: kw) ++ b) with (lowerUnit a :: (toLowerCase kw ++ b)).
  cbn [Regex.matchLit]. rewrite canon_lower, N.eqb_refl, IH.
  change (toLowerCase (a :: kw)) with (lowerUnit a :: toLowerCase kw).
  rewrite last_cons. by destruct (list.last (toLowerCase kw)).
Qed.

Lemma rmatch_keyword (kw b : jsstring) (prev : option N) :
  wordDelimited kw = true -> isWordAt prev = false -> isWordAt (head b) = false ->
  Regex.rmatch true (keywordRegex kw) prev (toLowerCase kw ++ b)
    (fun _ s' => Some (length s')) = Some (length b).
Proof.
  intros Hwd Hprev Hb. apply andb_true_iff in Hwd as [Hh Hl].
  change (keywordRegex kw) with (Seq WordB (Seq (Lit kw) WordB)).
  cbn [Regex.rmatch].
  assert (Hhead : isWordAt (head (toLowerCase kw ++ b)) = true).
  { destruct kw as [|a kw]; [done|]. simpl in *. by rewrite isWord_lowerUnit. }
  rewrite Hprev, Hhead. cbn [xorb]. rewrite matchLit_self.
  rewrite <- isWordAt_lower_last in Hl.
  destruct (list.last (toLowerCase kw)) as [c|]; [|done].
  rewrite Hl, Hb. reflexivity.
Qed.

(** [exec] finds a match when the pattern matches at some position. *)
Lemma execFrom_finds (i : bool) (r : regex) (s : jsstring) (n : nat) :
  forall (a : jsstring) (idx : nat) (prev : option N),
    Regex.rmatch i r (match list.last a with Some c => Some c | None => prev end) s
      (fun _ s' => Some (length s')) = Some n ->
    exists res, Regex.execFrom i r idx prev (a ++ s) = Some res.
Proof.
  induction a as [|c a IH]; intros idx prev H.
  - simpl in H. destruct s as [|d s]; simpl; rewrite H; by eexists.
  - change ((c :: a) ++ s) with (c :: (a ++ s)). cbn [Regex.execFrom].
    destruct (Regex.rmatch i r prev (c :: a ++ s) _); [by eexists|].
    apply IH. rewrite last_cons in H. by destruct (list.last a).
Qed.

Lemma present_of_flanked (kw s : jsstring) :
  wordDelimited kw = true -> flanked kw s -> isPresent (toLowerCase s) kw = true.
Proof.
  intros Hwd (x & y & -> & (c & Hx & Hc) & Hy).
  unfold isPresent, Regex.test, Regex.exec, toLowerCase. rewrite !fmap_app.
  fold (toLowerCase x) (toLowerCase kw) (toLowerCase y).
  destruct (execFrom_finds true (keywordRegex kw) (toLowerCase kw ++ toLowerCase y)
              (length (toLowerCase y)) (toLowerCase x) 0 None) as [res ->]; [|done].
  apply rmatch_keyword; [done| |by rewrite isWordAt_lower_head].
  pose proof (isWordAt_lower_last x) as H. rewrite Hx in H. simpl in H.
  destruct (list.last (toLowerCase x)); [by rewrite H|done].
Qed.

(** X16.  For a resume and keywords written in plain units (units below
    128, white space, the bullet glyphs) and a [maxKeywordsPerBullet] that
    is absent or a natural number: when the text has an experience section
    with at least one bullet, every missing keyword that begins and ends
    with a word character passes the presence test on the returned text:
    a second run would count it as already present. *)
Theorem injected_keywords_test_present (rand : nat -> nat) (text : jsstring)
    (kws : list jsstring) (options : DistOptions) (expStart expEnd : nat)
    (kw : jsstring) :
  isPlain text = true -> forallb isPlain kws = true ->
  experienceBounds text = Some (expStart, expEnd) ->
  bulletLinesOf (sectionLines text expStart expEnd) <> [] ->
  kw ∈ missingKeywords text kws ->
  wordDelimited kw = true ->
  exists r,
    tailoredCV (distributeHighPriorityKeywords rand (Some text) (Some kws) options)
    = Some r
    /\ isPresent (toLowerCase r) kw = true.
Proof.
  intros _ _ Hexp Hbl Hkw Hwd.
  destruct (missing_keyword_flanked rand text kws options expStart expEnd kw
              Hexp Hbl Hkw) as (r & Hr & Hf).
  exists r. split; [exact Hr|by apply present_of_flanked].
Qed.

Lemma injected_keywords_test_present_witness :
  exists r,
    tailoredCV (distributeHighPriorityKeywords (fun n => n) (Some sampleCV)
                  (Some (sampleKeywords 7)) noOptions) = Some r
    /\ isPresent (toLowerCase r) (lit "kw3") = true.
Proof.
  apply (injected_keywords_test_present (fun n => n) sampleCV (sampleKeywords 7)
           noOptions 20 60 (lit "kw3")).
  - vm_compute. reflexivity.
  - vm_compute. reflexivity.
  - vm_compute. reflexivity.
  - vm_compute. discriminate.
  - vm_compute. do 2 apply list_elem_of_further. apply list_elem_of_here.
  - reflexivity.
Defined.

(** ** [fastTailorWorkExperience]: what is injected, and where *)

Lemma take_add_drop {A} (n1 n2 : nat) (l : list A) :
  take (n1 + n2) l = take n1 l ++ take n2 (drop n1 l).
Proof.
  revert l. induction n1 as [|n1 IH]; intros l.
  { by rewrite take_0, drop_0. }
  destruct l as [|x l]; [simpl; by rewrite take_nil|]. simpl. by rewrite IH.
Qed.

(** The [while] loop takes keywords from the front of the queue, in order,
    and stops at three. *)
Lemma collect_spec (lineLower : jsstring) :
  forall (queue toInject : list jsstring) (k : nat),
    exists n t,
      WorkExp.collect lineLower queue toInject k = (toInject ++ t, k + n)
      /\ n <= length queue
      /\ t `sublist_of` take n queue
      /\ (length toInject <= 3 -> length (toInject ++ t) <= 3).
Proof.
  induction queue as [|kw queue IH]; intros toInject k.
  - exists 0, []. by rewrite app_nil_r, Nat.add_0_r.
  - cbn [WorkExp.collect]. destruct (length toInject <? 3) eqn:E.
    + apply Nat.ltb_lt in E.
      destruct (negb (Js.includes (toLowerCase kw) lineLower)).
      * destruct (IH (toInject ++ [kw]) (S k)) as (n & t & Heq & Hn & Hsub & Hlen).
        exists (S n), (kw :: t). rewrite Heq.
        split; [f_equal; [by rewrite <- app_assoc|lia]|].
        split; [simpl; lia|]. split; [by apply sublist_skip|].
        intros _. rewrite (app_assoc toInject [kw] t : toInject ++ kw :: t = _).
        apply Hlen. rewrite length_app. simpl. lia.
      * destruct (IH toInject (S k)) as (n & t & Heq & Hn & Hsub & Hlen).
        exists (S n), t. rewrite Heq.
        split; [f_equal; lia|]. split; [simpl; lia|].
        split; [by apply sublist_cons|done].
    + exists 0, []. rewrite app_nil_r, Nat.add_0_r.
      split; [done|]. split; [lia|]. split; [done|]. done.
Qed.

Section Substitution.
Variables matched before after : jsstring.

Local Abbreviation gs := (WorkExp.getSubstitution matched before after).

(** A replacement text without a dollar sign is inserted as it is. *)
Lemma getSubstitution_plain (k : jsstring) : 36%N ∉ k -> gs k = k.
Proof.
  induction k as [|c k IH]; intros Hk; [done|].
  apply not_elem_of_cons in Hk as [Hc Hk].
  cbn [WorkExp.getSubstitution].
  destruct (c =? 36)%N eqn:E; [apply N.eqb_eq in E; congruence|].
  by rewrite IH.
Qed.

Lemma getSubstitution_cons2 (c d : N) (t2 : jsstring) :
  gs (c :: d :: t2)
  = if (c =? 36)%N then
      if (d =? 36)%N then 36%N :: gs t2
      else if (d =? 38)%N then matched ++ gs t2
      else if (d =? 96)%N then before ++ gs t2
      else if (d =? 39)%N then after ++ gs t2
      else c :: gs (d :: t2)
    else c :: gs (d :: t2).
Proof. reflexivity. Qed.

(** The scan does not look across a unit that is not a dollar sign. *)
Lemma getSubstitution_app (a t : jsstring) :
  list.last a <> Some 36%N -> gs (a ++ t) = gs a ++ gs t.
Proof.
  induction a as [a IH] using (induction_ltof1 _ (@length N)). unfold ltof in IH.
  intros Hlast. destruct a as [|c [|d a2]]; [done| |].
  - assert (Hc : (c =? 36)%N = false).
    { apply N.eqb_neq. intros ->. by apply Hlast. }
    change ([c] ++ t) with (c :: t). cbn [WorkExp.getSubstitution]. by rewrite Hc.
  - assert (Hl2 : list.last a2 <> Some 36%N).
    { intros E. apply Hlast. rewrite !last_cons, E. done. }
    assert (Hl1 : list.last (d :: a2) <> Some 36%N).
    { intros E. apply Hlast. by rewrite last_cons, E. }
    change ((c :: d :: a2) ++ t) with (c :: d :: (a2 ++ t)).
    rewrite !getSubstitution_cons2.
    rewrite (IH a2 ltac:(simpl; lia) Hl2).
    change (d :: a2 ++ t) with ((d :: a2) ++ t).
    rewrite (IH (d :: a2) ltac:(simpl; lia) Hl1).
    destruct (c =? 36)%N; [|done].
    destruct (d =? 36)%N; [done|].
    destruct (d =? 38)%N; [by rewrite app_assoc|].
    destruct (d =? 96)%N; [by rewrite app_assoc|].
    destruct (d =? 39)%N; [by rewrite app_assoc|done].
Qed.

Lemma getSubstitution_infix (a k b : jsstring) :
  list.last a <> Some 36%N -> 36%N ∉ k ->
  exists x y, gs (a ++ k ++ b) = x ++ k ++ y.
Proof.
  intros Ha Hk. rewrite (getSubstitution_app a) by done.
  assert (Hlk : list.last k <> Some 36%N).
  { intros E. apply Hk. by apply last_Some_elem_of. }
  rewrite (getSubstitution_app k) by done.
  rewrite (getSubstitution_plain k) by done. by eexists _, _.
Qed.

End Substitution.

Lemma join_elem_split (sep : jsstring) (l : list jsstring) (k : jsstring) :
  k ∈ l ->
  exists x y, Js.join sep l = x ++ k ++ y /\ (x = [] \/ exists x0, x = x0 ++ sep).
Proof.
  induction l as [|z l IH]; intros Hk; [by apply elem_of_nil in Hk|].
  destruct l as [|z' l].
  { apply list_elem_of_singleton in Hk. subst z. exists [], [].
    split; [by rewrite app_nil_r|by left]. }
  change (Js.join sep (z :: z' :: l)) with (z ++ sep ++ Js.join sep (z' :: l)).
  apply elem_of_cons in Hk as [Hk|Hk].
  - subst z. exists [], (sep ++ Js.join sep (z' :: l)). split; [done|by left].
  - destruct (IH Hk) as (x & y & -> & Hx).
    exists (z ++ sep ++ x), y. split; [by rewrite <- !app_assoc|].
    right. destruct Hx as [->|[x0 ->]].
    + exists z. by rewrite app_nil_r.
    + exists (z ++ sep ++ x0). by rewrite <- !app_assoc.
Qed.

Lemma patterns_have_slot (p : jsstring) :
  p ∈ WorkExp.patterns -> exists pos, WorkExp.indexOf (lit "{}") p = Some pos.
Proof.
  intros Hp. unfold WorkExp.patterns in Hp.
  repeat (apply elem_of_cons in Hp as [->|Hp]; [by eexists|]).
  by apply elem_of_nil in Hp.
Qed.

(** The text a pattern is filled with names every keyword that has no
    dollar sign. *)
Lemma injectionOf_infix (p : jsstring) (toInject : list jsstring) (kw : jsstring) :
  p ∈ WorkExp.patterns -> kw ∈ toInject -> 36%N ∉ kw ->
  exists x y, WorkExp.injectionOf p toInject = x ++ kw ++ y.
Proof.
  intros Hp Hkw Hd. destruct (patterns_have_slot p Hp) as [pos Hpos].
  assert (Hgen : forall a b, list.last a <> Some 36%N ->
            exists x y, WorkExp.replaceString (lit "{}") (a ++ kw ++ b) p = x ++ kw ++ y).
  { intros a b Ha. unfold WorkExp.replaceString. rewrite Hpos. cbv zeta.
    destruct (getSubstitution_infix (lit "{}") (take pos p)
                (drop (pos + length (lit "{}")) p) a kw b Ha Hd) as (x & y & ->).
    exists (take pos p ++ x), (y ++ drop (pos + length (lit "{}")) p).
    by rewrite <- !app_assoc. }
  unfold WorkExp.injectionOf. destruct (length toInject =? 1) eqn:E.
  - apply Nat.eqb_eq in E. destruct toInject as [|k0 [|k1 l]]; try done.
    apply list_elem_of_singleton in Hkw. subst k0. simpl.
    destruct (Hgen [] [] ltac:(done)) as (x & y & H).
    rewrite app_nil_r in H. by exists x, y.
  - destruct (dropLast_lastOnly _ _ Hkw) as [H|H].
    + destruct (join_elem_split (lit ", ") _ _ H) as (x & y & -> & Hx).
      rewrite <- !app_assoc. apply Hgen.
      destruct Hx as [->|[x0 ->]]; [done|]. by rewrite (last_app_some _ _ 32%N).
    + rewrite (lastOnly_singleton _ _ H). change (Js.join (lit ",") [kw]) with kw.
      destruct (Hgen (Js.join (lit ", ") (Js.dropLast toInject) ++ lit " and ") [])
        as (x & y & Hxy); [by rewrite (last_app_some _ _ 32%N)|].
      rewrite app_nil_r, <- app_assoc in Hxy. by exists x, y.
Qed.

Lemma patterns_lookup (n : nat) :
  exists p, WorkExp.patterns !! (n mod length WorkExp.patterns) = Some p
            /\ p ∈ WorkExp.patterns.
Proof.
  destruct (lookup_lt_is_Some_2 WorkExp.patterns (n mod length WorkExp.patterns))
    as [p Hp].
  { apply Nat.mod_upper_bound. done. }
  exists p. split; [done|]. by eapply list_elem_of_lookup_2.
Qed.

(** One call of the [map] callback. *)
Lemma tailorLine_spec (rand : nat -> nat) (missingKws : list jsstring)
    (st : WorkExp.state) (line : jsstring) :
  let r := WorkExp.tailorLine rand missingKws st line in
  exists n t,
    WorkExp.keywordIndex r.2 = WorkExp.keywordIndex st + n
    /\ WorkExp.injected r.2 = WorkExp.injected st ++ t
    /\ t `sublist_of` take n (drop (WorkExp.keywordIndex st) missingKws)
    /\ length t <= (if WorkExp.isBullet (Js.trim line) then 3 else 0)
    /\ (t = [] -> r.1 = line)
    /\ (t <> [] -> exists content, r.1 = lit "- " ++ content)
    /\ (forall kw, kw ∈ t -> 36%N ∉ kw -> exists x y, r.1 = x ++ kw ++ y).
Proof.
  cbv zeta. unfold WorkExp.tailorLine.
  assert (Hsame : forall st', WorkExp.keywordIndex st' = WorkExp.keywordIndex st ->
            WorkExp.injected st' = WorkExp.injected st ->
            exists n t,
              WorkExp.keywordIndex (line, st').2 = WorkExp.keywordIndex st + n
              /\ WorkExp.injected (line, st').2 = WorkExp.injected st ++ t
              /\ t `sublist_of` take n (drop (WorkExp.keywordIndex st) missingKws)
              /\ length t <= (if WorkExp.isBullet (Js.trim line) then 3 else 0)
              /\ (t = [] -> (line, st').1 = line)
              /\ (t <> [] -> exists content, (line, st').1 = lit "- " ++ content)
              /\ (forall kw, kw ∈ t -> 36%N ∉ kw -> exists x y, (line, st').1 = x ++ kw ++ y)).
  { intros st' Hk Hi. exists 0, []. cbn [fst snd]. rewrite Hk, Hi, app_nil_r, Nat.add_0_r.
    split; [done|]. split; [done|]. split; [done|]. split; [apply Nat.le_0_l|].
    split; [done|]. split; [done|]. intros kw Hkw. by apply elem_of_nil in Hkw. }
  destruct (WorkExp.isBullet (Js.trim line)) eqn:Eb; cbn [negb]; [|by apply Hsame].
  destruct (length missingKws <=? WorkExp.keywordIndex st); [by apply Hsame|].
  destruct (collect_spec (toLowerCase line) (drop (WorkExp.keywordIndex st) missingKws)
              [] (WorkExp.keywordIndex st)) as (n & t & Heq & Hn & Hsub & Hlen).
  rewrite Heq. cbn [app].
  destruct (length t =? 0) eqn:El.
  - apply Nat.eqb_eq, nil_length_inv in El. subst t.
    exists n, []. cbn [fst snd WorkExp.keywordIndex WorkExp.injected].
    rewrite app_nil_r.
    split; [done|]. split; [done|]. split; [apply sublist_nil_l|].
    split; [apply Nat.le_0_l|].
    split; [done|]. split; [done|]. intros kw Hkw. by apply elem_of_nil in Hkw.
  - exists n, t. cbn [fst snd WorkExp.keywordIndex WorkExp.injected].
    split; [done|]. split; [done|]. split; [done|].
    split; [apply (Hlen ltac:(simpl; lia))|].
    split; [intros ->; done|]. split; [intros _; by eexists|].
    intros kw Hkw Hd.
    destruct (patterns_lookup (rand (WorkExp.drawn st))) as (p & Hp & Hpin).
    set (pat := default [] _).
    assert (Hpat : pat = p) by exact (f_equal (default []) Hp).
    rewrite Hpat.
    destruct (injectionOf_infix p t kw Hpin Hkw Hd) as (x & y & ->).
    set (bc := WorkExp.removeMatch WorkExp.bulletPrefix (Js.trim line)).
    set (dash := lit "- "). set (dot := lit ".").
    destruct (Js.endsWith 46 bc).
    + exists (dash ++ Js.dropLast bc ++ x), (y ++ dot).
      rewrite <- !app_assoc. reflexivity.
    + exists (dash ++ bc ++ x), y. rewrite <- !app_assoc. reflexivity.
Qed.

Lemma mapLines_cons (rand : nat -> nat) (missingKws : list jsstring)
    (line : jsstring) (rest : list jsstring) (st : WorkExp.state) :
  WorkExp.mapLines rand missingKws (line :: rest) st
  = let r := WorkExp.tailorLine rand missingKws st line in
    let r' := WorkExp.mapLines rand missingKws rest r.2 in
    (r.1 :: r'.1, r'.2).
Proof.
  cbn [WorkExp.mapLines]. cbv zeta.
  destruct (WorkExp.tailorLine rand missingKws st line) as [line' st'].
  cbn [fst snd].
  by destruct (WorkExp.mapLines rand missingKws rest st').
Qed.

(** The whole [lines.map]. *)
Lemma mapLines_spec (rand : nat -> nat) (missingKws : list jsstring) :
  forall (ls : list jsstring) (st : WorkExp.state),
    let r := WorkExp.mapLines rand missingKws ls st in
    exists n t,
      WorkExp.keywordIndex r.2 = WorkExp.keywordIndex st + n
      /\ WorkExp.injected r.2 = WorkExp.injected st ++ t
      /\ t `sublist_of` take n (drop (WorkExp.keywordIndex st) missingKws)
      /\ length t
         <= 3 * length (List.filter (fun l => WorkExp.isBullet (Js.trim l)) ls)
      /\ length r.1 = length ls
      /\ (forall i line, ls !! i = Some line ->
            r.1 !! i = Some line
            \/ WorkExp.isBullet (Js.trim line) = true
               /\ exists content, r.1 !! i = Some (lit "- " ++ content))
      /\ (forall kw, kw ∈ t -> 36%N ∉ kw ->
            exists line' x y, line' ∈ r.1 /\ line' = x ++ kw ++ y).
Proof.
  induction ls as [|line rest IH]; intros st.
  { exists 0, []. cbn. rewrite app_nil_r, Nat.add_0_r.
    split; [done|]. split; [done|]. split; [done|]. split; [lia|]. split; [done|].
    split; [intros i l Hl; by rewrite lookup_nil in Hl|].
    intros kw Hkw. by apply elem_of_nil in Hkw. }
  cbv zeta. rewrite mapLines_cons. cbv zeta. cbn [fst snd].
  destruct (tailorLine_spec rand missingKws st line)
    as (n1 & t1 & Hk1 & Hi1 & Hs1 & Hl1 & Hnil & Hnew & Hocc1).
  set (r1 := WorkExp.tailorLine rand missingKws st line) in *.
  destruct (IH r1.2) as (n2 & t2 & Hk2 & Hi2 & Hs2 & Hl2 & Hlen & Hkeep & Hocc2).
  set (r2 := WorkExp.mapLines rand missingKws rest r1.2) in *.
  exists (n1 + n2), (t1 ++ t2).
  split; [lia|]. split; [by rewrite Hi2, Hi1, <- app_assoc|].
  split.
  { rewrite take_add_drop. apply sublist_app; [done|].
    rewrite drop_drop. by rewrite <- Hk1. }
  split.
  { rewrite length_app. cbn [List.filter].
    destruct (WorkExp.isBullet (Js.trim line)); simpl length; lia. }
  split; [simpl; by rewrite Hlen|].
  split.
  { intros [|i] l Hl.
    - simpl in Hl. injection Hl as <-. cbn [lookup list_lookup].
      destruct (decide (t1 = [])) as [E|E].
      + left. by rewrite (Hnil E).
      + right. split.
        * destruct (WorkExp.isBullet (Js.trim line)); [done|].
          destruct t1; [done|simpl in Hl1; lia].
        * destruct (Hnew E) as [content ->]. by exists content.
    - simpl in Hl. exact (Hkeep i l Hl). }
  intros kw Hkw Hd. apply elem_of_app in Hkw as [Hkw|Hkw].
  - destruct (Hocc1 kw Hkw Hd) as (x & y & Hxy).
    exists r1.1, x, y. split; [apply list_elem_of_here|done].
  - destruct (Hocc2 kw Hkw Hd) as (l' & x & y & Hin & Hxy).
    exists l', x, y. split; [by apply list_elem_of_further|done].
Qed.

Lemma fastTailor_eq (rand : nat -> nat) (cvText : jsstring)
    (missingKws : list jsstring) (expStart expEnd : nat) :
  WorkExp.bounds cvText = Some (expStart, expEnd) ->
  let r := WorkExp.mapLines rand missingKws
             (Js.split NL (Js.substring expStart expEnd cvText)) WorkExp.initial in
  fastTailorWorkExperience rand cvText missingKws
  = {| WorkExp.tailoredCV :=
         Js.substring 0 expStart cvText ++ Js.join [NL] r.1
           ++ Js.substringFrom expEnd cvText;
       WorkExp.injectedKeywords := WorkExp.injected r.2 |}.
Proof.
  intros Hb. unfold fastTailorWorkExperience. rewrite Hb. cbv zeta.
  by destruct (WorkExp.mapLines _ _ _ _).
Qed.

Lemma fastTailor_sublist (rand : nat -> nat) (cvText : jsstring)
    (missingKws : list jsstring) :
  WorkExp.injectedKeywords (fastTailorWorkExperience rand cvText missingKws)
    `sublist_of` missingKws.
Proof.
  destruct (WorkExp.bounds cvText) as [[expStart expEnd]|] eqn:Hb.
  - rewrite (fastTailor_eq rand cvText missingKws expStart expEnd Hb). cbv zeta.
    cbn [WorkExp.injectedKeywords].
    destruct (mapLines_spec rand missingKws
                (Js.split NL (Js.substring expStart expEnd cvText)) WorkExp.initial)
      as (n & t & _ & Hi & Hs & _).
    rewrite Hi. cbn. etrans; [exact Hs|]. apply sublist_take.
  - unfold fastTailorWorkExperience. rewrite Hb. apply sublist_nil_l.
Qed.

(** X17.  Whatever the resume and the draws, the keywords reported as
    injected are keywords of the list handed in, each reported at most as
    often as it is listed, in the order of that list. *)
Theorem fast_tailor_injected_sublist (rand : nat -> nat) (cvText : jsstring)
    (missingKws : list jsstring) :
  WorkExp.injectedKeywords (fastTailorWorkExperience rand cvText missingKws)
    `sublist_of` missingKws.
Proof.
  destruct (WorkExp.bounds cvText) as [[expStart expEnd]|] eqn:Hb.
  - rewrite (fastTailor_eq rand cvText missingKws expStart expEnd Hb). cbv zeta.
    cbn [WorkExp.injectedKeywords].
    destruct (mapLines_spec rand missingKws
                (Js.split NL (Js.substring expStart expEnd cvText)) WorkExp.initial)
      as (n & t & _ & Hi & Hs & _).
    rewrite Hi. cbn. etrans; [exact Hs|]. apply sublist_take.
  - unfold fastTailorWorkExperience. rewrite Hb. apply sublist_nil_l.
Qed.

Lemma workExp_execFrom_bounds (m : WorkExp.matcher) :
  forall s idx prev j len,
    WorkExp.execFrom m idx prev s = Some (j, len) ->
    idx <= j /\ j - idx + len <= length s.
Proof.
  induction s as [|c s IH]; intros idx prev j len H; cbn [WorkExp.execFrom] in H.
  - destruct (m prev [] _); [|done]. injection H as <- <-. simpl. lia.
  - destruct (m prev (c :: s) _).
    + injection H as <- <-. simpl. lia.
    + apply IH in H. simpl. lia.
Qed.

(** A heading line ends where the text ends or a line terminator
    follows. *)
Lemma headingLine_end (names : list regex) (prev : option N) (s : jsstring) (n : nat) :
  WorkExp.headingLine names prev s (fun _ s' => Some (length s')) = Some n ->
  exists s2, s2 `suffix_of` s /\ length s2 = n
    /\ match s2 with [] => True | c :: _ => WorkExp.isLineTerminator c = true end.
Proof.
  unfold WorkExp.headingLine, WorkExp.bolM. intros H.
  assert (Hr : exists p1, rmatch true (Seq (alts names) (StarCls spaceOrColon)) p1 s
             (fun prev2 s2 => WorkExp.eolM prev2 s2 (fun _ s' => Some (length s')))
             = Some n).
  { destruct prev as [c|]; [|by exists None].
    destruct (WorkExp.isLineTerminator c); [by exists (Some c)|done]. }
  destruct Hr as [p1 Hr].
  apply rmatch_suffix in Hr as (p2 & s2 & Hs & Hk).
  exists s2. split; [done|]. unfold WorkExp.eolM in Hk.
  destruct s2 as [|c s2]; [by injection Hk as <-|].
  destruct (WorkExp.isLineTerminator c); [by injection Hk as <-|done].
Qed.

Lemma workExp_execFrom_end (names : list regex) :
  forall s idx prev j len,
    WorkExp.execFrom (WorkExp.headingLine names) idx prev s = Some (j, len) ->
    match drop (j - idx + len) s with
    | [] => True
    | c :: _ => WorkExp.isLineTerminator c = true
    end.
Proof.
  induction s as [|c s IH]; intros idx prev j len H; cbn [WorkExp.execFrom] in H.
  - destruct (WorkExp.headingLine names prev [] _); [|done].
    injection H as <- <-. by rewrite drop_nil.
  - destruct (WorkExp.headingLine names prev (c :: s) _) as [n|] eqn:E.
    + injection H as <- <-. apply headingLine_end in E as (s2 & [pre Hs] & Hlen & Hc).
      assert (Hl : length (c :: s) = length pre + length s2)
        by (by rewrite Hs, length_app).
      match goal with |- context [drop ?k _] =>
        replace k with (length pre) by (simpl in *; lia) end.
      by rewrite Hs, drop_app_length.
    + pose proof (workExp_execFrom_bounds _ _ _ _ _ _ H) as [Hle _].
      apply IH in H. replace (j - idx + len) with (S (j - S idx + len)) by lia.
      exact H.
Qed.

Lemma workExp_bounds_range (cvText : jsstring) (expStart expEnd : nat) :
  WorkExp.bounds cvText = Some (expStart, expEnd) ->
  expStart <= expEnd <= length cvText
  /\ match drop expStart cvText with
     | [] => True
     | c :: _ => WorkExp.isLineTerminator c = true
     end.
Proof.
  unfold WorkExp.bounds, WorkExp.exec. intros H.
  destruct (WorkExp.execFrom (WorkExp.headingLine WorkExp.experienceNames) 0 None cvText)
    as [[index len]|] eqn:E; [|done].
  pose proof (workExp_execFrom_bounds _ _ _ _ _ _ E) as [_ Hb].
  pose proof (workExp_execFrom_end _ _ _ _ _ _ E) as He.
  rewrite Nat.sub_0_r in Hb, He.
  destruct (WorkExp.execFrom (WorkExp.headingLine WorkExp.nextSectionNames) 0 None _)
    as [[nextIndex len']|] eqn:E'.
  - injection H as <- <-.
    pose proof (workExp_execFrom_bounds _ _ _ _ _ _ E') as [_ Hb'].
    unfold Js.substringFrom in Hb'. rewrite length_drop in Hb'.
    split; [lia|exact He].
  - injection H as <- <-. split; [lia|exact He].
Qed.

(** X18.  When the work-experience heading is found, the section starts
    where the heading's line ends and lies within the text; the text
    before and after the section is kept; the section keeps its number of
    lines; a line is either kept as it is or is a bullet rewritten to
    start with a hyphen and a space; and at most three keywords are
    reported per bullet line. *)
Theorem fast_tailor_structure (rand : nat -> nat) (cvText : jsstring)
    (missingKws : list jsstring) (expStart expEnd : nat) :
  WorkExp.bounds cvText = Some (expStart, expEnd) ->
  let section := Js.split NL (Js.substring expStart expEnd cvText) in
  let r := fastTailorWorkExperience rand cvText missingKws in
  expStart <= expEnd <= length cvText
  /\ match drop expStart cvText with
     | [] => True
     | c :: _ => WorkExp.isLineTerminator c = true
     end
  /\ (exists lines',
        WorkExp.tailoredCV r
        = take expStart cvText ++ Js.join [NL] lines' ++ drop expEnd cvText
        /\ length lines' = length section
        /\ forall i line, section !! i = Some line ->
             lines' !! i = Some line
             \/ WorkExp.isBullet (Js.trim line) = true
                /\ exists content, lines' !! i = Some (lit "- " ++ content))
  /\ length (WorkExp.injectedKeywords r)
     <= 3 * length (List.filter (fun l => WorkExp.isBullet (Js.trim l)) section).
Proof.
  intros Hb section r.
  destruct (workExp_bounds_range _ _ _ Hb) as [Hrange Hterm].
  split; [exact Hrange|]. split; [exact Hterm|].
  subst r. rewrite (fastTailor_eq rand cvText missingKws expStart expEnd Hb).
  cbv zeta. cbn [WorkExp.tailoredCV WorkExp.injectedKeywords]. fold section.
  destruct (mapLines_spec rand missingKws section WorkExp.initial)
    as (n & t & _ & Hi & _ & Hcount & Hlen & Hkeep & _).
  split.
  - eexists. split; [|split; [exact Hlen|exact Hkeep]].
    unfold Js.substring, Js.substringFrom. simpl Nat.max. simpl Nat.min.
    by rewrite drop_0, Nat.sub_0_r.
  - rewrite Hi. exact Hcount.
Qed.

Lemma fast_tailor_structure_witness :
  19 <= 61 <= length sampleCV
  /\ length (WorkExp.injectedKeywords
               (fastTailorWorkExperience (fun n => n) sampleCV (sampleKeywords 9)))
     <= 3 * 2.
Proof.
  destruct (fast_tailor_structure (fun n => n) sampleCV (sampleKeywords 9) 19 61
              ltac:(vm_compute; reflexivity)) as (H1 & _ & _ & H2).
  split; [exact H1|exact H2].
Defined.

(** X19.  Every keyword reported as injected that holds no dollar sign
    occurs in the returned text, in its own spelling. *)
Theorem fast_tailor_keywords_appear (rand : nat -> nat) (cvText : jsstring)
    (missingKws : list jsstring) (kw : jsstring) :
  kw ∈ WorkExp.injectedKeywords (fastTailorWorkExperience rand cvText missingKws) ->
  36%N ∉ kw ->
  Js.includes kw (WorkExp.tailoredCV (fastTailorWorkExperience rand cvText missingKws))
  = true.
Proof.
  intros Hkw Hd.
  destruct (WorkExp.bounds cvText) as [[expStart expEnd]|] eqn:Hb.
  2: { unfold fastTailorWorkExperience in Hkw. rewrite Hb in Hkw.
       by apply elem_of_nil in Hkw. }
  rewrite (fastTailor_eq rand cvText missingKws expStart expEnd Hb) in Hkw |- *.
  cbv zeta in Hkw |- *. cbn [WorkExp.tailoredCV WorkExp.injectedKeywords] in Hkw |- *.
  destruct (mapLines_spec rand missingKws
              (Js.split NL (Js.substring expStart expEnd cvText)) WorkExp.initial)
    as (n & t & _ & Hi & _ & _ & _ & _ & Hocc).
  rewrite Hi in Hkw. cbn [WorkExp.initial WorkExp.injected app] in Hkw.
  destruct (Hocc kw Hkw Hd) as (line' & x & y & Hin & ->).
  destruct (join_elem_split [NL] _ _ Hin) as (P & Q & -> & _).
  rewrite <- !app_assoc. apply includes_app_r, includes_app_r, includes_app_r.
  apply (includes_mid kw []).
Qed.

Lemma fast_tailor_keywords_appear_witness :
  Js.includes (lit "kw2")
    (WorkExp.tailoredCV
       (fastTailorWorkExperience (fun n => n) sampleCV (sampleKeywords 3))) = true.
Proof.
  apply (fast_tailor_keywords_appear (fun n => n) sampleCV (sampleKeywords 3) (lit "kw2")).
  - vm_compute. do 2 apply list_elem_of_further. apply list_elem_of_here.
  - vm_compute. intros H.
    repeat (apply elem_of_cons in H as [H|H]; [discriminate|]).
    by apply elem_of_nil in H.
Defined.

(** ** [turboTailorCV]: the deduplicated keyword list *)

Lemma arrayIndexOf_lookup (x : jsstring) (arr : list jsstring) (i : nat) :
  arrayIndexOf x arr = Some i -> arr !! i = Some x.
Proof.
  revert i. induction arr as [|y arr IH]; intros i H; [done|].
  cbn [arrayIndexOf] in H. destruct (Js.eqb x y) eqn:E.
  - injection H as <-. apply eqb_true in E. by subst.
  - destruct (arrayIndexOf x arr) as [j|]; [|done].
    injection H as <-. by apply IH.
Qed.

(** [indexOf] finds the first position. *)
Lemma arrayIndexOf_first (x : jsstring) (arr : list jsstring) (j : nat) :
  arr !! j = Some x -> exists i, arrayIndexOf x arr = Some i /\ i <= j.
Proof.
  revert j. induction arr as [|y arr IH]; intros j H; [done|].
  cbn [arrayIndexOf]. destruct (Js.eqb x y) eqn:E.
  - exists 0. split; [done|lia].
  - destruct j as [|j].
    + simpl in H. injection H as ->. by rewrite eqb_refl in E.
    + destruct (IH j H) as (i & -> & Hle). exists (S i). split; [done|lia].
Qed.

Section FilterWithIndex.
Context {A : Type} (f : A -> nat -> bool).

Lemma filterWithIndex_app (l1 l2 : list A) (idx : nat) :
  filterWithIndex f idx (l1 ++ l2)
  = filterWithIndex f idx l1 ++ filterWithIndex f (idx + length l1) l2.
Proof.
  revert idx. induction l1 as [|x l1 IH]; intros idx.
  - by rewrite Nat.add_0_r.
  - cbn [app filterWithIndex length]. rewrite IH.
    replace (S idx + length l1) with (idx + S (length l1)) by lia.
    by destruct (f x idx).
Qed.

Lemma filterWithIndex_all (l : list A) (idx : nat) :
  (forall i x, l !! i = Some x -> f x (idx + i) = true) ->
  filterWithIndex f idx l = l.
Proof.
  revert idx. induction l as [|x l IH]; intros idx H; [done|].
  cbn [filterWithIndex]. rewrite <- (Nat.add_0_r idx) at 1.
  rewrite (H 0 x eq_refl). f_equal. apply IH. intros i y Hy.
  replace (S idx + i) with (idx + S i) by lia. by apply H.
Qed.

Lemma filterWithIndex_none (l : list A) (idx : nat) :
  (forall i x, l !! i = Some x -> f x (idx + i) = false) ->
  filterWithIndex f idx l = [].
Proof.
  revert idx. induction l as [|x l IH]; intros idx H; [done|].
  cbn [filterWithIndex]. rewrite <- (Nat.add_0_r idx) at 1.
  rewrite (H 0 x eq_refl). apply IH. intros i y Hy.
  replace (S idx + i) with (idx + S i) by lia. by apply H.
Qed.

Lemma filterWithIndex_elem (l : list A) (idx : nat) (x : A) :
  x ∈ filterWithIndex f idx l <->
  exists i, l !! i = Some x /\ f x (idx + i) = true.
Proof.
  revert idx. induction l as [|y l IH]; intros idx.
  - split; [intros H; by apply elem_of_nil in H|by intros (i & H & _)].
  - cbn [filterWithIndex]. split.
    + intros H. destruct (f y idx) eqn:E.
      * apply elem_of_cons in H as [->|H].
        { exists 0. by rewrite Nat.add_0_r. }
        apply IH in H as (i & Hi & Hf). exists (S i).
        replace (idx + S i) with (S idx + i) by lia. done.
      * apply IH in H as (i & Hi & Hf). exists (S i).
        replace (idx + S i) with (S idx + i) by lia. done.
    + intros ([|i] & Hi & Hf).
      * simpl in Hi. injection Hi as ->. rewrite Nat.add_0_r in Hf. rewrite Hf.
        apply list_elem_of_here.
      * simpl in Hi. replace (idx + S i) with (S idx + i) in Hf by lia.
        assert (Hin : x ∈ filterWithIndex f (S idx) l) by (apply IH; by exists i).
        destruct (f y idx); [by apply list_elem_of_further|done].
Qed.

Lemma filterWithIndex_sublist (l : list A) (idx : nat) :
  filterWithIndex f idx l `sublist_of` l.
Proof.
  revert idx. induction l as [|y l IH]; intros idx; [done|].
  cbn [filterWithIndex]. destruct (f y idx); [by apply sublist_skip|by apply sublist_cons].
Qed.

End FilterWithIndex.

(** What [filter(indexOf === idx)] keeps from position [idx] on are first
    occurrences at or after [idx]. *)
Lemma dedupe_from_NoDup (arr l : list jsstring) (idx : nat) :
  NoDup (filterWithIndex
           (fun kw i => bool_decide (arrayIndexOf kw arr = Some i)) idx l).
Proof.
  revert idx. induction l as [|y l IH]; intros idx; [apply NoDup_nil_2|].
  cbn [filterWithIndex]. destruct (bool_decide _) eqn:E; [|apply IH].
  apply list.NoDup_cons. split; [|apply IH].
  apply bool_decide_eq_true in E. intros Hin.
  apply filterWithIndex_elem in Hin as (i & _ & Hf).
  apply bool_decide_eq_true in Hf. rewrite E in Hf. injection Hf as Hf. lia.
Qed.

Lemma dedupe_elem (arr : list jsstring) (x : jsstring) : x ∈ dedupe arr <-> x ∈ arr.
Proof.
  unfold dedupe. rewrite filterWithIndex_elem. split.
  - intros (i & Hi & _). by eapply list_elem_of_lookup_2.
  - intros Hx. apply list_elem_of_lookup_1 in Hx as [j Hj].
    destruct (arrayIndexOf_first x arr j Hj) as (i & Hi & _).
    exists i. split; [by apply arrayIndexOf_lookup|]. by apply bool_decide_eq_true.
Qed.

(** A list without duplicates followed by keywords it already holds. *)
Lemma dedupe_app_covered (l l' : list jsstring) :
  NoDup l -> (forall x, x ∈ l' -> x ∈ l) -> dedupe (l ++ l') = l.
Proof.
  intros Hnd Hcov. unfold dedupe. rewrite filterWithIndex_app.
  rewrite filterWithIndex_all, filterWithIndex_none; [by rewrite app_nil_r| |].
  - intros i x Hi. apply bool_decide_eq_false. intros Hidx.
    destruct (list_elem_of_lookup_1 l x (Hcov x ltac:(by eapply list_elem_of_lookup_2)))
      as [j Hj].
    pose proof (lookup_lt_Some _ _ _ Hj) as Hjl.
    destruct (arrayIndexOf_first x (l ++ l') j) as (i' & Hi' & Hle).
    { by rewrite lookup_app_l. }
    rewrite Hi' in Hidx. injection Hidx as ->. simpl in Hle. lia.
  - intros i x Hi. apply bool_decide_eq_true.
    pose proof (lookup_lt_Some _ _ _ Hi) as Hil.
    destruct (arrayIndexOf_first x (l ++ l') i) as (i' & Hi' & Hle).
    { by rewrite lookup_app_l. }
    rewrite Hi'. f_equal. simpl.
    apply arrayIndexOf_lookup in Hi'. rewrite lookup_app_l in Hi' by lia.
    by apply (NoDup_lookup l i' i x).
Qed.

(** X20.  The list [turboTailorCV] hands to the distributor holds every
    keyword of the four tiers it is built from, each exactly once, in the
    order of first appearance. *)
Theorem keywords_to_inject_once (keywords : Keywords.t) :
  let arr := default [] (Keywords.highPriority keywords)
             ++ default [] (Keywords.mediumPriority keywords)
             ++ default [] (Keywords.lowPriority keywords)
             ++ default [] (Keywords.workExperience keywords) in
  NoDup (allKeywordsToInject keywords)
  /\ (forall kw, kw ∈ allKeywordsToInject keywords <-> kw ∈ arr)
  /\ allKeywordsToInject keywords `sublist_of` arr.
Proof.
  cbv zeta. unfold allKeywordsToInject.
  split; [apply dedupe_from_NoDup|]. split; [apply dedupe_elem|].
  apply filterWithIndex_sublist.
Qed.

Lemma sortedKeywords_NoDup (text : jsstring) (maxKw : nat) :
  NoDup (all (ultraFastExtraction text maxKw)).
Proof.
  rewrite sortedKeywords_ranked.
  apply (sublist_NoDup _ _ (rankedEntries_NoDup text)), sublist_take.
Qed.

Lemma dedupe_tiers (sorted : list jsstring) (h m : nat) :
  NoDup sorted ->
  dedupe (Js.slice 0 h sorted ++ Js.slice h (h + m) sorted
            ++ Js.sliceFrom (h + m) sorted ++ Js.slice 0 15 sorted)
  = sorted.
Proof.
  intros Hnd. rewrite !app_assoc. rewrite <- (app_assoc (Js.slice 0 h sorted)).
  rewrite slice_tiers. apply dedupe_app_covered; [done|].
  intros x Hx. unfold Js.slice in Hx. rewrite drop_0 in Hx.
  by apply elem_of_take in Hx as (i & Hi & _); eapply list_elem_of_lookup_2.
Qed.

(** X21.  For a keyword set the extractor returned, that list is the
    extractor's [all]: every extracted keyword, once, in rank order. *)
Theorem extracted_set_injected_whole (text : jsstring) (maxKw : nat) :
  allKeywordsToInject (keywordsOf (ultraFastExtraction text maxKw))
  = all (ultraFastExtraction text maxKw).
Proof.
  pose proof (sortedKeywords_NoDup text maxKw) as Hnd.
  unfold allKeywordsToInject, keywordsOf, ultraFastExtraction in *.
  cbn [all Keywords.highPriority Keywords.mediumPriority Keywords.lowPriority
       Keywords.workExperience highPriority mediumPriority lowPriority workExperience
       default from_option] in *.
  revert Hnd. generalize (sortedKeywords text maxKw). intros sorted Hnd.
  by apply dedupe_tiers.
Qed.

(** ** [executeTurboPipeline] *)

(** X22.  Without a job description of at least 50 characters the
    pipeline stops after the first phase: it reports that no keywords were
    extracted, whatever the resume, and leaves the cache as it was. *)
Theorem pipeline_needs_description {E : Type}
    (engine : option (jsstring -> list jsstring -> Tailor.engineResult E))
    (c : Cache) (tGet tSet : Z) (rand1 rand2 rand3 : nat -> nat)
    (jobInfo : option Pipeline.jobInfo) (baseCV : option jsstring)
    (options : Pipeline.options) :
  length (default [] (jobInfo ≫= Pipeline.description)) < 50 ->
  executeTurboPipeline engine c tGet tSet rand1 rand2 rand3 jobInfo baseCV options
  = (Pipeline.Failure (lit "No keywords extracted"), c).
Proof.
  intros Hlen. unfold executeTurboPipeline, extractionPhase, turboExtractKeywords.
  cbv zeta.
  replace ((length (default [] (jobInfo ≫= Pipeline.description)) =? 0)
           || (length (default [] (jobInfo ≫= Pipeline.description)) <? 50)) with true.
  - reflexivity.
  - symmetry. apply orb_true_iff. right. by apply Nat.ltb_lt.
Qed.

Lemma pipeline_needs_description_witness :
  executeTurboPipeline (E := unit) None JsMap.empty 0 0 (fun n => n) (fun n => n)
    (fun n => n)
    (Some {| Pipeline.title := None; Pipeline.description := Some shortText;
             Pipeline.url := None |})
    (Some sampleCV) {| Pipeline.maxKeywords := None |}
  = (Pipeline.Failure (lit "No keywords extracted"), JsMap.empty).
Proof.
  apply (pipeline_needs_description (E := unit)). vm_compute. lia.
Defined.

(** X23.  When keywords are extracted but the resume is missing or empty,
    the pipeline still succeeds: both tailoring phases hand the resume
    back as it came, nothing is reported as injected and the distribution
    statistics are the empty object. *)
Theorem pipeline_without_resume {E : Type}
    (engine : option (jsstring -> list jsstring -> Tailor.engineResult E))
    (c : Cache) (tGet tSet : Z) (rand1 rand2 rand3 : nat -> nat)
    (jobInfo : option Pipeline.jobInfo) (baseCV : option jsstring)
    (options : Pipeline.options) :
  let extraction := extractionPhase c tGet tSet jobInfo options in
  all (keywordSet extraction.1) <> [] ->
  baseCV = None \/ baseCV = Some [] ->
  exists r,
    executeTurboPipeline engine c tGet tSet rand1 rand2 rand3 jobInfo baseCV options
    = (Pipeline.Success r, extraction.2)
    /\ Pipeline.keywords r = extraction.1
    /\ Pipeline.tailoredCV r = baseCV
    /\ Pipeline.injectedKeywords r = []
    /\ Pipeline.distributionStats r = EmptyObj
    /\ Pipeline.stats r = Tailor.NoStats.
Proof.
  intros extraction Hall Hcv. unfold executeTurboPipeline. cbv zeta.
  fold extraction.
  destruct (length (all (keywordSet extraction.1)) =? 0) eqn:E0.
  { apply Nat.eqb_eq, nil_length_inv in E0. done. }
  assert (Ht : turboTailorCV engine rand1 rand2 baseCV
                 (Some (keywordsOf (keywordSet extraction.1)))
               = {| Tailor.tailoredCV := baseCV; Tailor.originalCV := None;
                    Tailor.injectedKeywords := []; Tailor.tailorStats := Tailor.NoStats;
                    Tailor.uniqueHash := [] |}).
  { by destruct Hcv as [->| ->]. }
  rewrite Ht. cbn [Tailor.tailoredCV Tailor.injectedKeywords Tailor.tailorStats].
  eexists. split; [reflexivity|]. cbn [Pipeline.keywords Pipeline.tailoredCV
    Pipeline.injectedKeywords Pipeline.distributionStats Pipeline.stats].
  split; [done|]. split; [|split; [done|split; [|done]]].
  - destruct (0 <? length (highPriority (keywordSet extraction.1))); [|done].
    by destruct Hcv as [->| ->].
  - destruct (0 <? length (highPriority (keywordSet extraction.1))); [|done].
    by destruct Hcv as [->| ->].
Qed.

Lemma pipeline_without_resume_witness :
  exists r,
    executeTurboPipeline (E := unit) None JsMap.empty 0 0 (fun n => n) (fun n => n)
      (fun n => n)
      (Some sampleJob)
      None {| Pipeline.maxKeywords := None |}
    = (Pipeline.Success r,
       (extractionPhase JsMap.empty 0 0
          (Some sampleJob)
          {| Pipeline.maxKeywords := None |}).2)
    /\ Pipeline.tailoredCV r = None
    /\ Pipeline.injectedKeywords r = [].
Proof.
  destruct (pipeline_without_resume (E := unit) None JsMap.empty 0 0
              (fun n => n) (fun n => n) (fun n => n)
              (Some sampleJob)
              None {| Pipeline.maxKeywords := None |})
    as (r & Hr & _ & Hcv & Hinj & _).
  - vm_compute. discriminate.
  - by left.
  - exists r. split; [exact Hr|]. split; [exact Hcv|exact Hinj].
Defined.

(** ** A second distribution run adds nothing *)

(** *** The presence test, read as an occurrence between non-word units *)

Lemma isWord_upperUnit (c : N) : isWord (upperUnit c) = isWord c.
Proof.
  unfold upperUnit. destruct (isLower c) eqn:E; [|done].
  unfold isWord. rewrite E.
  unfold isLower in E. apply andb_true_iff in E as [E1 E2]. apply N.leb_le in E1, E2.
  unfold isUpper.
  replace ((65 <=? c - 32) && (c - 32 <=? 90))%N with true
    by (symmetry; apply andb_true_iff; split; apply N.leb_le; lia).
  by rewrite orb_true_r.
Qed.

Lemma isWord_canon (a b : N) :
  Regex.canon true a = Regex.canon true b -> isWord a = isWord b.
Proof.
  unfold Regex.canon. intros H.
  by rewrite <- (isWord_upperUnit a), <- (isWord_upperUnit b), H.
Qed.

Lemma lower_of_canon (a b : N) :
  Regex.canon true a = Regex.canon true b -> lowerUnit a = lowerUnit b.
Proof.
  unfold Regex.canon, upperUnit, lowerUnit, isLower, isUpper.
  destruct ((97 <=? a) && (a <=? 122))%N eqn:La;
    destruct ((97 <=? b) && (b <=? 122))%N eqn:Lb;
    destruct ((65 <=? a) && (a <=? 90))%N eqn:Ua;
    destruct ((65 <=? b) && (b <=? 90))%N eqn:Ub;
    rewrite ?andb_true_iff, ?andb_false_iff, ?N.leb_le, ?N.leb_gt in *;
    intros; lia.
Qed.

Lemma lower_of_canon_list (k l : jsstring) :
  Regex.canon true <$> k = Regex.canon true <$> l -> toLowerCase k = toLowerCase l.
Proof.
  revert l. induction k as [|a k IH]; intros [|b l] H; try done.
  injection H as Hab H. unfold toLowerCase. cbn [fmap list_fmap].
  f_equal; [by apply lower_of_canon|by apply IH].
Qed.

Lemma matchLit_inv (i : bool) (l : jsstring) :
  forall prev s k n,
    Regex.matchLit i l prev s k = Some n ->
    exists k' y,
      s = k' ++ y /\ Regex.canon i <$> k' = Regex.canon i <$> l
      /\ k (match list.last k' with Some c => Some c | None => prev end) y = Some n.
Proof.
  induction l as [|a l IH]; intros prev s k n H.
  - exists [], s. done.
  - cbn [Regex.matchLit] in H. destruct s as [|c s]; [done|].
    destruct (Regex.canon i a =? Regex.canon i c)%N eqn:E; [|done].
    apply N.eqb_eq in E. apply IH in H as (k' & y & -> & Hc & Hk).
    exists (c :: k'), y. split; [done|]. split; [cbn; by rewrite E, Hc|].
    rewrite last_cons. by destruct (list.last k').
Qed.

(** [exec] starts its match at a position where the pattern matches, with
    the unit before that position as the previous one. *)
Lemma execFrom_start_prev (i : bool) (r : regex) :
  forall s idx prev j len,
    Regex.execFrom i r idx prev s = Some (j, len) ->
    exists pre suf n,
      s = pre ++ suf /\ length pre = j - idx /\ len = length suf - n
      /\ Regex.rmatch i r (match list.last pre with Some c => Some c | None => prev end)
           suf (fun _ s' => Some (length s')) = Some n.
Proof.
  induction s as [|c s IH]; intros idx prev j len H; cbn [Regex.execFrom] in H.
  - destruct (Regex.rmatch i r prev [] _) eqn:E; [|done].
    injection H as <- <-. exists [], [], n. by rewrite Nat.sub_diag.
  - destruct (Regex.rmatch i r prev (c :: s) _) eqn:E.
    + injection H as <- <-. exists [], (c :: s), n. by rewrite Nat.sub_diag.
    + pose proof (execFrom_bounds _ _ _ _ _ _ _ H) as [Hle _].
      apply IH in H as (pre & suf & n & -> & Hlen & Hl & Hn).
      exists (c :: pre), suf, n. split; [done|]. split; [simpl; lia|].
      split; [done|]. rewrite last_cons. by destruct (list.last pre).
Qed.

Lemma wordDelimited_lower (k kw : jsstring) :
  toLowerCase k = toLowerCase kw -> wordDelimited k = wordDelimited kw.
Proof.
  intros H. unfold wordDelimited.
  by rewrite <- (isWordAt_lower_head k), <- (isWordAt_lower_last k), H,
    isWordAt_lower_head, isWordAt_lower_last.
Qed.

Lemma wordDelimited_ends (k : jsstring) :
  wordDelimited k = true ->
  exists a b, head k = Some a /\ isWord a = true
    /\ list.last k = Some b /\ isWord b = true.
Proof.
  unfold wordDelimited. intros H. apply andb_true_iff in H as [H1 H2].
  destruct (head k) as [a|]; [|done]. destruct (list.last k) as [b|]; [|done].
  by exists a, b.
Qed.

(** A keyword in some letter case between two non-word units passes the
    test. *)
Lemma present_of_occurs (kw s : jsstring) :
  wordDelimited kw = true -> occursAsWord kw s -> isPresent (toLowerCase s) kw = true.
Proof.
  intros Hwd (x & k & y & -> & Hk & Hx & Hy).
  unfold isPresent, Regex.test, Regex.exec, toLowerCase. rewrite !fmap_app.
  fold (toLowerCase x) (toLowerCase k) (toLowerCase y). rewrite Hk.
  destruct (execFrom_finds true (keywordRegex kw) (toLowerCase kw ++ toLowerCase y)
              (length (toLowerCase y)) (toLowerCase x) 0 None) as [res ->]; [|done].
  apply rmatch_keyword; [done| |by rewrite isWordAt_lower_head].
  rewrite <- isWordAt_lower_last in Hx.
  by destruct (list.last (toLowerCase x)).
Qed.

(** And a keyword that passes the test occurs in that way. *)
Lemma occurs_of_present (kw s : jsstring) :
  wordDelimited kw = true -> isPresent (toLowerCase s) kw = true -> occursAsWord kw s.
Proof.
  intros Hwd Hp. unfold isPresent, Regex.test, Regex.exec in Hp.
  destruct (Regex.execFrom true (keywordRegex kw) 0 None (toLowerCase s))
    as [[j len]|] eqn:E; [|done].
  apply execFrom_start_prev in E as (pre & suf & n & Hs & _ & _ & Hm).
  change (keywordRegex kw) with (Seq WordB (Seq (Lit kw) WordB)) in Hm.
  cbn [Regex.rmatch] in Hm.
  destruct (xorb _ _) eqn:Hb1 in Hm; [|done].
  apply matchLit_inv in Hm as (k' & y' & -> & Hc & Hm).
  destruct (xorb _ _) eqn:Hb2 in Hm; [|done].
  apply lower_of_canon_list in Hc.
  pose proof (wordDelimited_lower _ _ Hc) as Hwd'. rewrite Hwd in Hwd'.
  destruct (wordDelimited_ends k' Hwd') as (a & b & Ha & Hwa & Hb & Hwb).
  assert (Hpre : isWordAt (list.last pre) = false).
  { destruct k' as [|a' k'']; [done|]. simpl in Ha. injection Ha as ->.
    cbn [app head isWordAt] in Hb1. rewrite Hwa in Hb1.
    destruct (list.last pre); simpl in *; by destruct (isWord _). }
  assert (Hy : isWordAt (head y') = false).
  { rewrite Hb in Hb2. cbn [isWordAt] in Hb2. rewrite Hwb in Hb2.
    by destruct (isWordAt (head y')). }
  unfold toLowerCase in Hs.
  apply fmap_app_inv in Hs as (X & rest & HX & Hrest & ->). symmetry in Hrest.
  apply fmap_app_inv in Hrest as (K & Y & HK & HY & ->).
  fold (toLowerCase X) in HX. fold (toLowerCase K) in HK. fold (toLowerCase Y) in HY.
  exists X, K, Y. split; [done|].
  split; [by rewrite <- Hc, HK, toLowerCase_idem|].
  split.
  - rewrite HX in Hpre. by rewrite isWordAt_lower_last in Hpre.
  - rewrite HY in Hy. by rewrite isWordAt_lower_head in Hy.
Qed.

(** *** Lines *)

Lemma split_nonempty (sep : N) (s : jsstring) : Js.split sep s <> [].
Proof.
  destruct s as [|c s]; [done|]. cbn [Js.split].
  destruct (c =? sep)%N; [done|]. by destruct (Js.split sep s).
Qed.

Lemma join_cons_cons (sep x : jsstring) (l : list jsstring) :
  l <> [] -> Js.join sep (x :: l) = x ++ sep ++ Js.join sep l.
Proof. by destruct l. Qed.

(** [s.split('\n').join('\n')] is [s]. *)
Lemma join_split (s : jsstring) : Js.join [NL] (Js.split NL s) = s.
Proof.
  induction s as [|c s IH]; [done|]. cbn [Js.split].
  destruct (c =? NL)%N eqn:E.
  - apply N.eqb_eq in E. subst c.
    rewrite join_cons_cons by apply split_nonempty. by rewrite IH.
  - pose proof (split_nonempty NL s) as Hne.
    destruct (Js.split NL s) as [|l ls]; [done|].
    destruct ls as [|z ls].
    + simpl in *. by rewrite IH.
    + rewrite join_cons_cons by done. rewrite join_cons_cons in IH by done.
      by rewrite <- IH.
Qed.

Lemma split_app_NL (a b : jsstring) :
  Js.split NL (a ++ NL :: b) = Js.split NL a ++ Js.split NL b.
Proof.
  induction a as [|c a IH]; [done|].
  cbn [app Js.split]. rewrite IH.
  destruct (c =? NL)%N; [done|].
  pose proof (split_nonempty NL a) as Hne.
  by destruct (Js.split NL a).
Qed.

Lemma split_NL_free (u : jsstring) : NL ∉ u -> Js.split NL u = [u].
Proof.
  induction u as [|c u IH]; intros H; [done|].
  apply not_elem_of_cons in H as [Hc Hu]. cbn [Js.split].
  destruct (c =? NL)%N eqn:E; [apply N.eqb_eq in E; congruence|].
  by rewrite (IH Hu).
Qed.

Lemma NL_lower (k : jsstring) : NL ∈ toLowerCase k <-> NL ∈ k.
Proof.
  unfold toLowerCase. rewrite list_elem_of_fmap. split.
  - intros (c & Hc & Hin). unfold lowerUnit, isUpper, NL in Hc.
    destruct ((65 <=? c) && (c <=? 90))%N eqn:E; [|by subst].
    apply andb_true_iff in E as [E1 E2]. apply N.leb_le in E1, E2. lia.
  - intros H. by exists NL.
Qed.

Lemma isWordAt_last_app (a x : jsstring) :
  isWordAt (list.last a) = false -> isWordAt (list.last x) = false ->
  isWordAt (list.last (a ++ x)) = false.
Proof. intros Ha Hx. rewrite last_app. by destruct (list.last x). Qed.

Lemma occurs_context (kw s a b : jsstring) :
  occursAsWord kw s -> isWordAt (list.last a) = false -> isWordAt (head b) = false ->
  occursAsWord kw (a ++ s ++ b).
Proof.
  intros (x & k & y & -> & Hk & Hx & Hy) Ha Hb.
  exists (a ++ x), k, (y ++ b). split; [by rewrite <- !app_assoc|].
  split; [done|]. split; [by apply isWordAt_last_app|by apply head_app_nonword].
Qed.

(** A keyword without a line feed that occurs in a text occurs in one of
    its lines. *)
Lemma occurs_line (kw s : jsstring) :
  NL ∉ kw -> occursAsWord kw s ->
  exists line, line ∈ Js.split NL s /\ occursAsWord kw line.
Proof.
  intros Hnl (x & k & y & -> & Hk & Hx & Hy).
  assert (Hnk : NL ∉ k).
  { intros H. apply Hnl. apply NL_lower. rewrite <- Hk. by apply NL_lower. }
  assert (Hx' : exists xa x', (x = x' \/ x = xa ++ NL :: x') /\ (NL ∉ x')
             /\ isWordAt (list.last x') = false).
  { destruct (decide (NL ∈ x)) as [Hin|Hnin].
    - apply list_elem_of_split_r in Hin as (xa & x' & -> & Hx').
      exists xa, x'. split; [by right|]. split; [done|].
      rewrite last_app, last_cons in Hx. by destruct (list.last x').
    - exists [], x. split; [by left|done]. }
  assert (Hy' : exists y' yb, (y = y' \/ y = y' ++ NL :: yb) /\ (NL ∉ y')
             /\ isWordAt (head y') = false).
  { destruct (decide (NL ∈ y)) as [Hin|Hnin].
    - apply list_elem_of_split_l in Hin as (y' & yb & -> & Hy').
      exists y', yb. split; [by right|]. split; [done|]. by destruct y'.
    - exists y, []. split; [by left|done]. }
  destruct Hx' as (xa & x' & Hxs & Hnx & Hlx).
  destruct Hy' as (y' & yb & Hys & Hny & Hhy).
  exists (x' ++ k ++ y'). split.
  - assert (Hfree : NL ∉ x' ++ k ++ y').
    { rewrite !elem_of_app. tauto. }
    assert (Ht : x' ++ k ++ y' ∈ Js.split NL (x' ++ k ++ y)).
    { destruct Hys as [->| ->].
      - rewrite (split_NL_free _ Hfree). apply list_elem_of_here.
      - replace (x' ++ k ++ y' ++ NL :: yb) with ((x' ++ k ++ y') ++ NL :: yb)
          by (by rewrite <- !app_assoc).
        rewrite split_app_NL, (split_NL_free _ Hfree). apply list_elem_of_here. }
    destruct Hxs as [->| ->]; [done|].
    rewrite <- app_assoc. cbn [app]. rewrite split_app_NL.
    apply elem_of_app. by right.
  - by exists x', k, y'.
Qed.

Lemma join_elem_context (l : list jsstring) (k : jsstring) :
  k ∈ l ->
  exists P Q, Js.join [NL] l = P ++ k ++ Q
    /\ isWordAt (list.last P) = false /\ isWordAt (head Q) = false.
Proof.
  induction l as [|z l IH]; intros Hk; [by apply elem_of_nil in Hk|].
  destruct l as [|z' l].
  { apply list_elem_of_singleton in Hk. subst z. exists [], [].
    split; [by rewrite app_nil_r|done]. }
  rewrite join_cons_cons by done.
  apply elem_of_cons in Hk as [Hk|Hk].
  - subst z. by exists [], ([NL] ++ Js.join [NL] (z' :: l)).
  - destruct (IH Hk) as (P & Q & -> & HP & HQ).
    exists (z ++ [NL] ++ P), Q. split; [by rewrite <- !app_assoc|].
    split; [|done]. rewrite app_assoc. by apply isWordAt_last_app; [rewrite last_snoc|].
Qed.

(** A keyword that occurs in a line occurs in the joined lines. *)
Lemma occurs_join (kw : jsstring) (l : list jsstring) (line : jsstring) :
  line ∈ l -> occursAsWord kw line -> occursAsWord kw (Js.join [NL] l).
Proof.
  intros Hin Hocc. destruct (join_elem_context l line Hin) as (P & Q & -> & HP & HQ).
  by apply occurs_context.
Qed.

Lemma occurs_split (kw s line : jsstring) :
  line ∈ Js.split NL s -> occursAsWord kw line -> occursAsWord kw s.
Proof.
  intros Hin Hocc. rewrite <- (join_split s). by apply (occurs_join _ _ line).
Qed.

(** *** A rewritten bullet keeps the keywords it held *)

Lemma isWord_not_space (c : N) : isWord c = true -> isSpace c = false.
Proof.
  intros Hw. destruct (isSpace c) eqn:Hs; [|done]. exfalso.
  unfold isWord, isLower, isUpper, isDigit, isSpace in *.
  rewrite ?orb_true_iff, ?andb_true_iff, ?N.leb_le, ?N.eqb_eq in *. lia.
Qed.

Lemma trimStart_app (u v : jsstring) (c : N) :
  head v = Some c -> isSpace c = false ->
  Js.trimStart (u ++ v) = Js.trimStart u ++ v.
Proof.
  intros Hv Hc. induction u as [|d u IH].
  - destruct v as [|c' v]; [done|]. simpl in *. injection Hv as ->. by rewrite Hc.
  - cbn [app Js.trimStart]. by destruct (isSpace d).
Qed.

Lemma trimEnd_app (a y : jsstring) (c : N) :
  list.last a = Some c -> isSpace c = false ->
  Js.trimEnd (a ++ y) = a ++ Js.trimEnd y.
Proof.
  intros Ha Hc. unfold Js.trimEnd. rewrite reverse_app.
  rewrite (trimStart_app _ _ c); [by rewrite reverse_app, reverse_involutive| |done].
  rewrite <- (reverse_involutive a) in Ha. rewrite last_reverse in Ha. exact Ha.
Qed.

Lemma trimStart_suffix (u : jsstring) : Js.trimStart u `suffix_of` u.
Proof.
  induction u as [|d u IH]; [done|]. cbn [Js.trimStart].
  destruct (isSpace d); [by apply suffix_cons_r|done].
Qed.

Lemma trimEnd_prefix (y : jsstring) : Js.trimEnd y `prefix_of` y.
Proof.
  unfold Js.trimEnd. destruct (trimStart_suffix (reverse y)) as [p Hp].
  exists (reverse p). apply (f_equal reverse) in Hp.
  rewrite reverse_involutive, reverse_app in Hp. exact Hp.
Qed.

Lemma head_prefix_nonword (p y q : jsstring) :
  p `prefix_of` y -> isWordAt (head y) = false -> isWordAt (head q) = false ->
  isWordAt (head (p ++ q)) = false.
Proof. intros [t ->] Hy Hq. by destruct p. Qed.

Lemma dropLast_snoc {A} (l : list A) (x : A) : Js.dropLast (l ++ [x]) = l.
Proof.
  unfold Js.dropLast. rewrite length_app. simpl.
  replace (length l + 1 - 1) with (length l) by lia. by rewrite take_app_length.
Qed.

Lemma appendInjection_occurs (kw line injection : jsstring) :
  wordDelimited kw = true -> occursAsWord kw line ->
  isWordAt (head injection) = false ->
  occursAsWord kw (appendInjection line injection).
Proof.
  intros Hwd (x & k & y & -> & Hk & Hx & Hy) Hinj.
  pose proof (wordDelimited_lower _ _ Hk) as Hwk. rewrite Hwd in Hwk.
  destruct (wordDelimited_ends k Hwk) as (a & b & _ & _ & Hb & Hwb).
  assert (Hlast : list.last (x ++ k) = Some b) by (by apply last_app_some).
  unfold appendInjection, Js.endsWith.
  destruct (list.last (x ++ k ++ y)) as [d|] eqn:Hd.
  2: { apply last_None in Hd. by destruct x, k. }
  destruct (d =? 46)%N eqn:E.
  - apply N.eqb_eq in E. subst d.
    destruct (decide (y = [])) as [->|Hne].
    { rewrite app_nil_r in Hd. rewrite Hlast in Hd. injection Hd as ->. done. }
    destruct (exists_last Hne) as (y0 & c & ->).
    rewrite !app_assoc, last_snoc in Hd. injection Hd as ->.
    replace (x ++ k ++ y0 ++ [46%N]) with ((x ++ k ++ y0) ++ [46%N])
      by (by rewrite <- !app_assoc).
    rewrite dropLast_snoc. rewrite <- !app_assoc.
    exists x, k, (y0 ++ injection ++ lit "."). split; [done|]. split; [done|].
    split; [done|].
    apply (head_prefix_nonword _ (y0 ++ [46%N])); [by exists [46%N]|done|].
    by apply head_app_nonword.
  - rewrite app_assoc, (trimEnd_app _ _ b Hlast (isWord_not_space _ Hwb)).
    rewrite <- !app_assoc.
    exists x, k, (Js.trimEnd y ++ injection). split; [done|]. split; [done|].
    split; [done|].
    by apply (head_prefix_nonword _ y); [apply trimEnd_prefix| |].
Qed.

Lemma renderInjection_head (phrase : jsstring) (kwsToAdd : list jsstring) :
  isWordAt (head (renderInjection phrase kwsToAdd)) = false.
Proof. by destruct kwsToAdd as [|k0 [|k1 [|k2 l]]]. Qed.

(** *** The heading match ends with a line feed *)

Lemma heading_ends_with_NL (names : list regex) (s : list N) (j len : nat) :
  Regex.exec true (headingRegex names) s = Some (j, len) ->
  exists pre', take (j + len) s = pre' ++ [NL].
Proof.
  intros H. apply execFrom_start_prev in H as (pre & suf & n & -> & Hlen & Hl & Hm).
  rewrite Nat.sub_0_r in Hlen.
  change (headingRegex names)
    with (Seq (Lit [NL]) (Seq (alts names) (Seq (StarCls spaceOrColon) (Lit [NL])))) in Hm.
  cbn [Regex.rmatch] in Hm.
  apply matchLit_suffix in Hm as (p1 & s1 & Hs1 & Hm).
  apply rmatch_suffix in Hm as (p2 & s2 & Hs2 & Hm).
  apply matchStar_suffix in Hm as (p3 & s3 & Hs3 & Hm).
  cbn [Regex.matchLit] in Hm. destruct s3 as [|c s4]; [done|].
  destruct (Regex.canon true NL =? Regex.canon true c)%N eqn:E; [|done].
  apply N.eqb_eq, canon_NL in E. subst c. injection Hm as <-.
  assert (Hsuf : (NL :: s4) `suffix_of` suf) by (by etrans; [|etrans]).
  destruct Hsuf as [u ->].
  exists (pre ++ u). subst len. rewrite length_app. cbn [length].
  replace (j + (length u + S (length s4) - length s4)) with (length (pre ++ u ++ [NL]))
    by (rewrite !length_app; simpl; lia).
  replace (pre ++ u ++ NL :: s4) with ((pre ++ u ++ [NL]) ++ s4)
    by (by rewrite <- !app_assoc).
  by rewrite take_app_length, app_assoc.
Qed.

(** *** The run keeps what was present *)

Lemma experienceBounds_pre (text : jsstring) (expStart expEnd : nat) :
  experienceBounds text = Some (expStart, expEnd) ->
  exists pre', take expStart text = pre' ++ [NL].
Proof.
  unfold experienceBounds. intros H.
  destruct (Regex.exec true experienceHeading text) as [[index len]|] eqn:E; [|done].
  apply heading_ends_with_NL in E.
  destruct (Regex.exec true nextSectionHeading _) as [[nextIndex len']|];
    injection H as <- <-; exact E.
Qed.

Lemma text_in_three (text : jsstring) (expStart expEnd : nat) :
  expStart <= expEnd ->
  text = take expStart text ++ Js.substring expStart expEnd text ++ drop expEnd text.
Proof.
  intros Hle. unfold Js.substring.
  rewrite Nat.max_r, Nat.min_l by lia.
  rewrite <- (take_drop expStart text) at 1. f_equal.
  rewrite <- (take_drop (expEnd - expStart) (drop expStart text)) at 1. f_equal.
  rewrite drop_drop. f_equal. lia.
Qed.

Section Kept.
Variables (rand : nat -> nat) (text : jsstring) (kws : list jsstring)
  (options : DistOptions) (expStart expEnd : nat).
Hypothesis Hexp : experienceBounds text = Some (expStart, expEnd).

Local Abbreviation lines0 := (sectionLines text expStart expEnd).
Local Abbreviation bl := (bulletLinesOf lines0).
Local Abbreviation missingKws := (missingKeywords text kws).
Local Abbreviation pb := (keywordsPerBulletOf (length missingKws) (length bl)).
Local Abbreviation st1 :=
  (injectBullets rand (capOf options) pb missingKws bl (initialState lines0)).
Local Abbreviation st2 := (addOverflowBullets missingKws bl st1).

(** After the loop a line is as it was, or has a text appended that starts
    with a comma or a space. *)
Lemma lines_after_injection (i : nat) (l : jsstring) :
  lines0 !! i = Some l ->
  exists l', lines st1 !! i = Some l'
    /\ (l' = l
        \/ exists injection,
             l' = appendInjection l injection /\ isWordAt (head injection) = false).
Proof.
  intros Hl.
  destruct (injectBullets_from_start rand (capOf options) pb missingKws lines0)
    as (_ & _ & _ & Hkeep & Hplan).
  destruct (decide (i ∈ bl)) as [Hin|Hnin].
  - apply list_elem_of_lookup_1 in Hin as [j Hj].
    specialize (Hplan j i l Hj Hl). eexists. split; [exact Hplan|].
    unfold expectedBullet. cbv zeta.
    destruct (takenAt _ _ _ _ =? 0); [by left|].
    right. eexists. split; [reflexivity|apply renderInjection_head].
  - exists l. split; [|by left]. by rewrite (Hkeep i Hnin).
Qed.

Lemma section_line_kept (kw line : jsstring) :
  wordDelimited kw = true -> line ∈ lines0 -> occursAsWord kw line ->
  exists line', line' ∈ lines st2 /\ occursAsWord kw line'.
Proof.
  intros Hwd Hin Hocc. apply list_elem_of_lookup_1 in Hin as [i Hi].
  destruct (lines_after_injection i line Hi) as (l' & Hl' & Hcase).
  exists l'. split.
  - apply addOverflowBullets_keeps. by eapply list_elem_of_lookup_2.
  - destruct Hcase as [->|(injection & -> & Hh)]; [done|].
    by apply appendInjection_occurs.
Qed.

(** A keyword without a line feed that occurred in the text occurs in the
    assembled text. *)
Lemma occurrence_kept (kw : jsstring) :
  wordDelimited kw = true -> NL ∉ kw -> occursAsWord kw text ->
  occursAsWord kw
    (Js.substring 0 expStart text ++ Js.join [NL] (lines st2)
       ++ Js.substringFrom expEnd text).
Proof.
  intros Hwd Hnl Hocc.
  destruct (experienceBounds_range _ _ _ Hexp) as [[Hse Hel] HNL].
  destruct (experienceBounds_pre _ _ _ Hexp) as [pre' Hpre].
  assert (Hsub0 : Js.substring 0 expStart text = pre' ++ [NL]).
  { unfold Js.substring. simpl Nat.max. simpl Nat.min.
    by rewrite drop_0, Nat.sub_0_r. }
  rewrite Hsub0. unfold Js.substringFrom.
  assert (Hpost : drop expEnd text = []
                  \/ exists post', drop expEnd text = NL :: post').
  { destruct (decide (expEnd < length text)) as [Hlt|Hge].
    - right. assert (H0 : drop expEnd text !! 0 = Some NL).
      { rewrite lookup_drop, Nat.add_0_r. exact (HNL Hlt). }
      destruct (drop expEnd text) as [|c rest]; [done|].
      simpl in H0. injection H0 as ->. by exists rest.
    - left. apply drop_ge. lia. }
  pose proof (text_in_three text expStart expEnd Hse) as Htext.
  rewrite Hpre in Htext.
  destruct (occurs_line kw text Hnl Hocc) as (line & Hline & Hol).
  rewrite Htext in Hline. rewrite <- app_assoc in Hline. cbn [app] in Hline.
  rewrite split_app_NL in Hline. apply elem_of_app in Hline as [Hline|Hline].
  - (* before the section *)
    pose proof (occurs_split kw pre' line Hline Hol) as H.
    rewrite <- app_assoc.
    exact (occurs_context kw pre' []
             ([NL] ++ Js.join [NL] (lines st2) ++ drop expEnd text) H eq_refl eq_refl).
  - assert (Hlast : isWordAt (list.last (pre' ++ [NL])) = false)
      by (by rewrite last_snoc).
    destruct Hpost as [Hpost|[post' Hpost]]; rewrite Hpost in Hline |- *.
    + (* in the section, which runs to the end of the text *)
      rewrite app_nil_r in Hline.
      destruct (section_line_kept kw line Hwd Hline Hol) as (line' & Hin' & Hol').
      apply occurs_context; [by apply (occurs_join _ _ line')|done|done].
    + rewrite split_app_NL in Hline. apply elem_of_app in Hline as [Hline|Hline].
      * (* in the section *)
        destruct (section_line_kept kw line Hwd Hline Hol) as (line' & Hin' & Hol').
        apply occurs_context; [by apply (occurs_join _ _ line')|done|done].
      * (* after the section *)
        pose proof (occurs_split kw post' line Hline Hol) as H.
        pose proof (occurs_context kw post'
                      ((pre' ++ [NL]) ++ Js.join [NL] (lines st2) ++ [NL]) [] H) as H'.
        rewrite app_nil_r, <- !app_assoc in H'. rewrite <- !app_assoc.
        apply H'; [|done]. rewrite !app_assoc. by rewrite last_snoc.
Qed.

End Kept.

Lemma distribute_all_present (rand : nat -> nat) (text : jsstring)
    (kws : list jsstring) (options : DistOptions) :
  text <> [] -> kws <> [] ->
  (forall kw, kw ∈ kws -> isPresent (toLowerCase text) kw = true) ->
  distributeHighPriorityKeywords rand (Some text) (Some kws) options
  = {| tailoredCV := Some text;
       distributionStats :=
         StatsOf {| Stats.total := length kws; Stats.alreadyPresent := length kws;
                    Stats.added := 0; Stats.missing := 0 |} |}.
Proof.
  intros Ht Hk Hall. unfold distributeHighPriorityKeywords.
  destruct text as [|c text]; [done|]. destruct kws as [|k kws]; [done|].
  assert (Hm : missingKeywords (c :: text) (k :: kws) = [])
    by exact (List_filter_none _ _ Hall).
  assert (Hp : presentKeywords (c :: text) (k :: kws) = k :: kws)
    by exact (List_filter_all (fun kw => isPresent (toLowerCase (c :: text)) kw) _ Hall).
  rewrite Hm, Hp. reflexivity.
Qed.

Lemma missing_or_present (text : jsstring) (kws : list jsstring) (kw : jsstring) :
  kw ∈ kws ->
  isPresent (toLowerCase text) kw = true \/ kw ∈ missingKeywords text kws.
Proof.
  intros Hin. destruct (isPresent (toLowerCase text) kw) eqn:E; [by left|right].
  unfold missingKeywords. apply list_elem_of_In, filter_In.
  split; [by apply list_elem_of_In|by rewrite E].
Qed.

Lemma all_present_after_run (rand : nat -> nat) (text : jsstring)
    (kws : list jsstring) (options : DistOptions) (expStart expEnd : nat) :
  experienceBounds text = Some (expStart, expEnd) ->
  bulletLinesOf (sectionLines text expStart expEnd) <> [] ->
  kws <> [] ->
  Forall (fun kw => wordDelimited kw = true /\ NL ∉ kw) kws ->
  exists r,
    tailoredCV (distributeHighPriorityKeywords rand (Some text) (Some kws) options)
    = Some r
    /\ r <> []
    /\ forall kw, kw ∈ kws -> isPresent (toLowerCase r) kw = true.
Proof.
  intros Hexp Hbl Hk Hkws. rewrite Forall_forall in Hkws.
  assert (Ht : text <> []).
  { intros ->. rewrite experienceBounds_nil in Hexp. discriminate. }
  destruct (decide (missingKeywords text kws = [])) as [Hm|Hm].
  - exists text. split.
    { exact (f_equal tailoredCV (distribute_unchanged_covered rand text kws options Ht Hk Hm)). }
    split; [done|].
    intros kw Hkw. destruct (missing_or_present text kws kw Hkw) as [H|H]; [done|].
    rewrite Hm in H. by apply elem_of_nil in H.
  - pose proof (distribute_full_path rand text kws options expStart expEnd
                  Ht Hk Hm Hexp Hbl) as Hr. cbv zeta in Hr.
    apply (f_equal tailoredCV) in Hr. cbn [tailoredCV assemble] in Hr.
    eexists. split; [exact Hr|].
    destruct (experienceBounds_pre _ _ _ Hexp) as [pre' Hpre].
    split.
    { unfold Js.substring. simpl Nat.max. simpl Nat.min.
      rewrite drop_0, Nat.sub_0_r, Hpre. by destruct pre'. }
    intros kw Hkw. destruct (Hkws kw) as [Hwd Hnl]; [by apply list_elem_of_In|].
    destruct (missing_or_present text kws kw Hkw) as [Hp|Hmiss].
    + apply present_of_occurs; [done|].
      apply occurrence_kept; [done|done|done|]. by apply occurs_of_present.
    + destruct (missing_keyword_flanked rand text kws options expStart expEnd kw
                  Hexp Hbl Hmiss) as (r' & Hr' & Hf).
      pose proof (eq_trans (eq_sym Hr) Hr') as Heq. injection Heq as <-.
      by apply present_of_flanked.
Qed.

(** X24.  For a resume and a non-empty list of keywords written in plain
    units (units below 128, white space, the bullet glyphs) and a
    [maxKeywordsPerBullet] that is absent or a natural number: when the
    text has an experience section with at least one bullet and every
    keyword begins and ends with a word character and holds no line feed,
    the returned text passes the presence test for every keyword: a second
    run on it, with any such options and any draws, returns it unchanged
    and counts every keyword as already present. *)
Theorem second_run_adds_nothing (rand rand' : nat -> nat) (text : jsstring)
    (kws : list jsstring) (options options' : DistOptions) (expStart expEnd : nat) :
  isPlain text = true -> forallb isPlain kws = true ->
  experienceBounds text = Some (expStart, expEnd) ->
  bulletLinesOf (sectionLines text expStart expEnd) <> [] ->
  kws <> [] ->
  Forall (fun kw => wordDelimited kw = true /\ NL ∉ kw) kws ->
  exists r,
    tailoredCV (distributeHighPriorityKeywords rand (Some text) (Some kws) options)
    = Some r
    /\ distributeHighPriorityKeywords rand' (Some r) (Some kws) options'
       = {| tailoredCV := Some r;
            distributionStats :=
              StatsOf {| Stats.total := length kws; Stats.alreadyPresent := length kws;
                         Stats.added := 0; Stats.missing := 0 |} |}.
Proof.
  intros _ _ Hexp Hbl Hk Hkws.
  destruct (all_present_after_run rand text kws options expStart expEnd
              Hexp Hbl Hk Hkws) as (r & Hr & Hne & Hall).
  exists r. split; [exact Hr|]. by apply distribute_all_present.
Qed.

Lemma second_run_adds_nothing_witness :
  exists r,
    tailoredCV (distributeHighPriorityKeywords (fun n => n) (Some sampleCV)
                  (Some (sampleKeywords 7)) noOptions) = Some r
    /\ distributeHighPriorityKeywords (fun n => 3 * n) (Some r)
         (Some (sampleKeywords 7)) noOptions
       = {| tailoredCV := Some r;
            distributionStats :=
              StatsOf {| Stats.total := 8; Stats.alreadyPresent := 8;
                         Stats.added := 0; Stats.missing := 0 |} |}.
Proof.
  apply (second_run_adds_nothing (fun n => n) (fun n => 3 * n) sampleCV
           (sampleKeywords 7) noOptions noOptions 20 60).
  - vm_compute. reflexivity.
  - vm_compute. reflexivity.
  - vm_compute. reflexivity.
  - vm_compute. discriminate.
  - discriminate.
  - vm_compute.
    repeat (apply Forall_cons; [split; [reflexivity|];
      intros H; repeat (apply elem_of_cons in H as [H|H]; [discriminate|]);
      by apply elem_of_nil in H|]).
    apply Forall_nil.
Defined.

(** ** [turboTailorCV] and the pipeline: what the phases hand on *)

Lemma workExperienceStep_reports (rand1 : nat -> nat) (text : jsstring)
    (allKws : list jsstring) (keywords : Keywords.t) (kw : jsstring) :
  kw ∈ (workExperienceStep rand1 text allKws keywords).2 ->
  kw ∈ default (Js.slice 0 15 allKws) (Keywords.workExperience keywords).
Proof.
  unfold workExperienceStep. cbv zeta.
  destruct (0 <? length _); cbn [snd]; [|intros H; by apply elem_of_nil in H].
  intros H.
  pose proof (fastTailor_sublist rand1 text
    (List.filter (fun kw => negb (Js.includes (toLowerCase kw) (toLowerCase text)))
       (default (Js.slice 0 15 allKws) (Keywords.workExperience keywords)))) as Hsub.
  apply (sublist_subseteq _ _ Hsub) in H.
  apply list_elem_of_In, filter_In in H as [H _]. by apply list_elem_of_In.
Qed.

(** X25.  Every keyword [turboTailorCV] reports as injected is a keyword
    of the object it was given: one of [all] or of the four tiers. *)
Theorem tailor_reports_known_keywords {E : Type}
    (engine : option (jsstring -> list jsstring -> Tailor.engineResult E))
    (rand1 rand2 : nat -> nat) (cvText : option jsstring) (keywords : Keywords.t)
    (kw : jsstring) :
  kw ∈ Tailor.injectedKeywords
         (turboTailorCV engine rand1 rand2 cvText (Some keywords)) ->
  kw ∈ default [] (Keywords.all keywords)
       ++ default [] (Keywords.highPriority keywords)
       ++ default [] (Keywords.mediumPriority keywords)
       ++ default [] (Keywords.lowPriority keywords)
       ++ default [] (Keywords.workExperience keywords).
Proof.
  unfold turboTailorCV. cbv zeta.
  destruct cvText as [[|c text]|]; cbn [Tailor.injectedKeywords];
    try (intros H; by apply elem_of_nil in H).
  destruct (Keywords.all keywords) as [[|a allKws]|] eqn:Eall;
    cbn [Tailor.injectedKeywords]; try (intros H; by apply elem_of_nil in H).
  destruct engine as [g|]; cbn [Tailor.injectedKeywords];
    [intros H; by apply elem_of_nil in H|].
  unfold basicInjection. cbv zeta. cbn [Tailor.injectedKeywords default from_option].
  set (step1 := workExperienceStep rand1 (c :: text) (a :: allKws) keywords).
  set (toInject := allKeywordsToInject keywords).
  assert (H1 : forall k, k ∈ step1.2 ->
            k ∈ (a :: allKws) ++ default [] (Keywords.highPriority keywords)
              ++ default [] (Keywords.mediumPriority keywords)
              ++ default [] (Keywords.lowPriority keywords)
              ++ default [] (Keywords.workExperience keywords)).
  { intros k Hk. apply workExperienceStep_reports in Hk.
    destruct (Keywords.workExperience keywords) as [we|]; cbn [default from_option] in *.
    - rewrite !elem_of_app. tauto.
    - apply elem_of_app. left. unfold Js.slice in Hk. rewrite drop_0 in Hk.
      by apply (subseteq_take 15). }
  assert (H2 : forall k, k ∈ toInject ->
            k ∈ (a :: allKws) ++ default [] (Keywords.highPriority keywords)
              ++ default [] (Keywords.mediumPriority keywords)
              ++ default [] (Keywords.lowPriority keywords)
              ++ default [] (Keywords.workExperience keywords)).
  { intros k Hk. apply elem_of_app. right. subst toInject.
    exact (proj1 (dedupe_elem _ _) Hk). }
  destruct (0 <? length toInject); cbn [snd]; [|apply H1].
  intros H. apply elem_of_app in H as [H|H]; [by apply H1|].
  destruct (statsField _ _) as [[|n]|]; try (by apply elem_of_nil in H).
  apply H2. unfold Js.slice in H. rewrite drop_0 in H.
  by apply (subseteq_take (S n - 0)).
Qed.

Lemma tailor_reports_known_keywords_witness :
  lit "kw2" ∈ sampleKeywords 3 ++ [] ++ [] ++ [] ++ [].
Proof.
  apply (tailor_reports_known_keywords (E := unit) None (fun n => n) (fun n => n)
           (Some sampleCV)
           {| Keywords.all := Some (sampleKeywords 3); Keywords.highPriority := None;
              Keywords.mediumPriority := None; Keywords.lowPriority := None;
              Keywords.workExperience := None |} (lit "kw2")).
  vm_compute. apply list_elem_of_further. apply list_elem_of_here.
Defined.

(** X26.  In the pipeline without the engine, when the text the second
    phase distributes into has an experience section with at least one
    bullet and every keyword to inject begins and ends with a word
    character and holds no line feed, the third phase has nothing to do:
    it finds every high-priority keyword present and returns the text of
    the second phase. *)
Theorem pipeline_third_phase_idle
    (c : Cache) (tGet tSet : Z) (rand1 rand2 rand3 : nat -> nat)
    (jobInfo : option Pipeline.jobInfo) (text : jsstring)
    (options : Pipeline.options) (expStart expEnd : nat) :
  let extraction := extractionPhase c tGet tSet jobInfo options in
  let ks := keywordSet extraction.1 in
  let t1 := (workExperienceStep rand1 text (all ks) (keywordsOf ks)).1 in
  all ks <> [] -> text <> [] ->
  experienceBounds t1 = Some (expStart, expEnd) ->
  bulletLinesOf (sectionLines t1 expStart expEnd) <> [] ->
  Forall (fun kw => wordDelimited kw = true /\ NL ∉ kw)
    (allKeywordsToInject (keywordsOf ks)) ->
  exists r t2,
    executeTurboPipeline (E := unit) None c tGet tSet rand1 rand2 rand3 jobInfo
      (Some text) options
    = (Pipeline.Success r, extraction.2)
    /\ Tailor.tailoredCV
         (turboTailorCV (E := unit) None rand1 rand2 (Some text) (Some (keywordsOf ks)))
       = Some t2
    /\ Pipeline.tailoredCV r = Some t2
    /\ Pipeline.distributionStats r
       = match highPriority ks with
         | [] => EmptyObj
         | _ :: _ =>
             StatsOf {| Stats.total := length (highPriority ks);
                        Stats.alreadyPresent := length (highPriority ks);
                        Stats.added := 0; Stats.missing := 0 |}
         end.
Proof.
  intros extraction ks t1 Hall Ht Hexp Hbl Hkws.
  unfold executeTurboPipeline. cbv zeta. fold extraction. fold ks.
  destruct (length (all ks) =? 0) eqn:E0.
  { apply Nat.eqb_eq, nil_length_inv in E0. done. }
  assert (Htailor : turboTailorCV (E := unit) None rand1 rand2 (Some text)
                      (Some (keywordsOf ks))
                    = basicInjection rand1 rand2 text (all ks) (keywordsOf ks)).
  { unfold turboTailorCV. cbv zeta. destruct text as [|ch text]; [done|].
    cbn [keywordsOf Keywords.all]. by destruct (all ks). }
  rewrite Htailor. unfold basicInjection. cbv zeta. cbn [Tailor.tailoredCV].
  fold t1. set (toInject := allKeywordsToInject (keywordsOf ks)) in *.
  assert (Hhigh : forall kw, kw ∈ highPriority ks -> kw ∈ toInject).
  { intros kw Hkw. apply dedupe_elem. cbn [keywordsOf Keywords.highPriority
      Keywords.mediumPriority Keywords.lowPriority Keywords.workExperience
      default from_option]. apply elem_of_app. by left. }
  destruct (decide (toInject = [])) as [Hnil|Hne].
  - assert (Hh : highPriority ks = []).
    { destruct (highPriority ks) as [|h hs]; [done|].
      specialize (Hhigh h (list_elem_of_here _ _)). rewrite Hnil in Hhigh.
      by apply elem_of_nil in Hhigh. }
    rewrite Hnil, Hh. cbn [length Nat.ltb Nat.leb fst snd].
    eexists _, t1. split; [reflexivity|]. done.
  - destruct (all_present_after_run rand2 t1 toInject
                {| maxBulletsPerRole := Some 10; maxKeywordsPerBullet := Some 3 |}
                expStart expEnd Hexp Hbl Hne Hkws) as (t2 & Ht2 & Hne2 & Hpres).
    assert (Hlen : (0 <? length toInject) = true).
    { apply Nat.ltb_lt. destruct toInject; [done|simpl; lia]. }
    rewrite Hlen. cbn [fst snd].
    set (d2 := distributeHighPriorityKeywords rand2 (Some t1) (Some toInject) _) in *.
    destruct (highPriority ks) as [|h hs] eqn:Eh.
    + cbn [length Nat.ltb Nat.leb fst snd].
      eexists _, t2. split; [reflexivity|]. cbn [Pipeline.tailoredCV
        Pipeline.distributionStats]. done.
    + assert (Hlt : (0 <? length (h :: hs)) = true) by done.
      rewrite Hlt. cbn [fst snd].
      assert (H3 : distributeHighPriorityKeywords rand3 (tailoredCV d2) (Some (h :: hs))
                     {| maxBulletsPerRole := Some 8; maxKeywordsPerBullet := None |}
                   = {| tailoredCV := Some t2;
                        distributionStats :=
                          StatsOf {| Stats.total := length (h :: hs);
                                     Stats.alreadyPresent := length (h :: hs);
                                     Stats.added := 0; Stats.missing := 0 |} |}).
      { replace (tailoredCV d2) with (Some t2) by (symmetry; exact Ht2).
        apply distribute_all_present; [done|done|].
        intros kw Hkw. by apply Hpres, Hhigh. }
      rewrite H3. cbn [tailoredCV distributionStats].
      eexists _, t2. split; [reflexivity|]. cbn [Pipeline.tailoredCV
        Pipeline.distributionStats]. done.
Qed.

Lemma pipeline_third_phase_idle_witness :
  exists r t2,
    executeTurboPipeline (E := unit) None JsMap.empty 0 0 (fun n => n) (fun n => n)
      (fun n => n) (Some sampleJob) (Some oneBulletCV) {| Pipeline.maxKeywords := None |}
    = (Pipeline.Success r,
       (extractionPhase JsMap.empty 0 0 (Some sampleJob)
          {| Pipeline.maxKeywords := None |}).2)
    /\ Pipeline.tailoredCV r = Some t2
    /\ Pipeline.distributionStats r
       = StatsOf {| Stats.total := 3; Stats.alreadyPresent := 3;
                    Stats.added := 0; Stats.missing := 0 |}.
Proof.
  destruct (pipeline_third_phase_idle JsMap.empty 0 0 (fun n => n) (fun n => n)
              (fun n => n) (Some sampleJob) oneBulletCV
              {| Pipeline.maxKeywords := None |} 20 92)
    as (r & t2 & Hr & _ & Hcv & Hstats).
  - vm_compute. discriminate.
  - discriminate.
  - vm_compute. reflexivity.
  - vm_compute. discriminate.
  - vm_compute.
    repeat (apply Forall_cons; [split; [reflexivity|];
      intros H; repeat (apply elem_of_cons in H as [H|H]; [discriminate|]);
      by apply elem_of_nil in H|]).
    apply Forall_nil.
  - exists r, t2. split; [exact Hr|]. split; [exact Hcv|exact Hstats].
Defined.

(** ** The two section finders *)

(** A backtracking match that succeeds still succeeds when the rest of the
    pattern is replaced by one that accepts wherever the old one did. *)
Lemma matchLit_mono (i : bool) (l : jsstring) :
  forall prev s (k k' : Regex.cont) n,
    (forall p s' m, k p s' = Some m -> exists m', k' p s' = Some m') ->
    Regex.matchLit i l prev s k = Some n ->
    exists n', Regex.matchLit i l prev s k' = Some n'.
Proof.
  induction l as [|a l IH]; intros prev s k k' n Hk H; cbn [Regex.matchLit] in *.
  - by eapply Hk.
  - destruct s as [|c s]; [done|].
    destruct (Regex.canon i a =? Regex.canon i c)%N; [|done]. by eapply IH.
Qed.

Lemma matchStar_mono (p : N -> bool) :
  forall s prev (k k' : Regex.cont) n,
    (forall q s' m, k q s' = Some m -> exists m', k' q s' = Some m') ->
    Regex.matchStar p prev s k = Some n ->
    exists n', Regex.matchStar p prev s k' = Some n'.
Proof.
  induction s as [|c s IH]; intros prev k k' n Hk H; cbn [Regex.matchStar] in *.
  - by eapply Hk.
  - destruct (p c); [|by eapply Hk].
    destruct (Regex.matchStar p (Some c) s k) as [r|] eqn:E.
    + destruct (IH (Some c) k k' r Hk E) as [n' ->]. by eexists.
    + destruct (Regex.matchStar p (Some c) s k'); [by eexists|]. by eapply Hk.
Qed.

Lemma rmatch_mono (i : bool) (r : regex) :
  forall prev s (k k' : Regex.cont) n,
    (forall p s' m, k p s' = Some m -> exists m', k' p s' = Some m') ->
    Regex.rmatch i r prev s k = Some n ->
    exists n', Regex.rmatch i r prev s k' = Some n'.
Proof.
  induction r as [| |p|l|p|a IHa b IHb|a IHa b IHb]; intros prev s k k' n Hk H;
    cbn [Regex.rmatch] in *.
  - destruct prev; [done|]. by eapply Hk.
  - destruct (xorb _ _); [|done]. by eapply Hk.
  - destruct s as [|c s]; [done|]. destruct (p c); [|done]. by eapply Hk.
  - by eapply matchLit_mono.
  - by eapply matchStar_mono.
  - eapply IHa; [|exact H]. intros q s' m Hm. by eapply IHb.
  - destruct (Regex.rmatch i a prev s k) as [r|] eqn:E.
    + destruct (IHa prev s k k' r Hk E) as [n' ->]. by eexists.
    + destruct (Regex.rmatch i a prev s k'); [by eexists|]. by eapply IHb.
Qed.

Lemma workExp_execFrom_finds (m : WorkExp.matcher) (s : jsstring) (n : nat) :
  forall (a : jsstring) (idx : nat) (prev : option N),
    m (match list.last a with Some c => Some c | None => prev end) s
      (fun _ s' => Some (length s')) = Some n ->
    exists res, WorkExp.execFrom m idx prev (a ++ s) = Some res.
Proof.
  induction a as [|c a IH]; intros idx prev H.
  - simpl in H. destruct s as [|d s]; cbn [app WorkExp.execFrom]; rewrite H; by eexists.
  - change ((c :: a) ++ s) with (c :: (a ++ s)). cbn [WorkExp.execFrom].
    destruct (m prev (c :: a ++ s) _); [by eexists|].
    apply IH. rewrite last_cons in H. by destruct (list.last a).
Qed.

(** Where [\n(A|B|...)[\s:]*\n] matches, [^(A|B|...)[\s:]*$] with the [m]
    flag matches right after the first line feed. *)
Lemma headingLine_of_headingRegex (names : list regex) (prev : option N)
    (suf : jsstring) (n : nat) :
  Regex.rmatch true (headingRegex names) prev suf (fun _ s' => Some (length s')) = Some n ->
  exists suf' n',
    suf = NL :: suf'
    /\ WorkExp.headingLine names (Some NL) suf' (fun _ s' => Some (length s')) = Some n'.
Proof.
  change (headingRegex names)
    with (Seq (Lit [NL]) (Seq (alts names) (Seq (StarCls spaceOrColon) (Lit [NL])))).
  cbn [Regex.rmatch Regex.matchLit]. intros H.
  destruct suf as [|c suf']; [done|].
  destruct (Regex.canon true NL =? Regex.canon true c)%N eqn:E; [|done].
  apply N.eqb_eq, canon_NL in E. subst c.
  unfold WorkExp.headingLine, WorkExp.bolM. cbn [WorkExp.isLineTerminator].
  change (WorkExp.isLineTerminator NL) with true. cbv iota.
  cbn [Regex.rmatch].
  eapply rmatch_mono in H as [n' Hn'].
  - exists suf', n'. split; [done|exact Hn'].
  - intros p1 s1 m1 H1. cbn beta in H1.
    eapply matchStar_mono; [|exact H1].
    intros p2 s2 m2 H2. cbn beta in H2.
    destruct s2 as [|d s2]; [done|].
    destruct (Regex.canon true NL =? Regex.canon true d)%N eqn:E2; [|done].
    apply N.eqb_eq, canon_NL in E2. subst d.
    unfold WorkExp.eolM. change (WorkExp.isLineTerminator NL) with true.
    by eexists.
Qed.

(** X27.  Whenever the distributor finds an experience section in a text,
    [fastTailorWorkExperience] finds one too: a heading between two line
    feeds is also a heading on a line of its own. *)
Theorem section_found_by_both (text : jsstring) (expStart expEnd : nat) :
  experienceBounds text = Some (expStart, expEnd) ->
  exists expStart' expEnd', WorkExp.bounds text = Some (expStart', expEnd').
Proof.
  unfold experienceBounds. intros H.
  destruct (Regex.exec true experienceHeading text) as [[index len]|] eqn:E; [|done].
  clear H. change experienceHeading with (headingRegex WorkExp.experienceNames) in E.
  apply execFrom_start_prev in E as (pre & suf & n & -> & _ & _ & Hm).
  apply headingLine_of_headingRegex in Hm as (suf' & n' & -> & Hn').
  destruct (workExp_execFrom_finds (WorkExp.headingLine WorkExp.experienceNames)
              suf' n' (pre ++ [NL]) 0 None) as [[index' len'] Hex].
  { by rewrite last_snoc. }
  unfold WorkExp.bounds, WorkExp.exec.
  replace (pre ++ NL :: suf') with ((pre ++ [NL]) ++ suf') by (by rewrite <- app_assoc).
  rewrite Hex. by eexists _, _.
Qed.

Lemma section_found_by_both_witness :
  exists expStart' expEnd', WorkExp.bounds sampleCV = Some (expStart', expEnd').
Proof.
  apply (section_found_by_both sampleCV 20 60). vm_compute. reflexivity.
Defined.

(** ** The first step of the fallback takes the keywords in order *)

Lemma startsWith_inv (p s : jsstring) :
  Js.startsWith p s = true -> exists y, s = p ++ y.
Proof.
  revert s. induction p as [|a p IH]; intros s H; [by exists s|].
  destruct s as [|c s]; [done|]. cbn [Js.startsWith] in H.
  apply andb_true_iff in H as [Hac H]. apply N.eqb_eq in Hac. subst c.
  destruct (IH s H) as [y ->]. by exists y.
Qed.

Lemma includes_inv (p s : jsstring) :
  Js.includes p s = true -> exists x y, s = x ++ p ++ y.
Proof.
  induction s as [|c s IH]; cbn [Js.includes]; intros H.
  - rewrite orb_false_r in H. apply startsWith_inv in H as [y ->]. by exists [], y.
  - apply orb_true_iff in H as [H|H].
    + apply startsWith_inv in H as [y ->]. by exists [], y.
    + destruct (IH H) as (x & y & ->). by exists (c :: x), y.
Qed.

(** What a part of the text contains, the text contains. *)
Lemma includes_part (p a s b : jsstring) :
  Js.includes p s = true -> Js.includes p (a ++ s ++ b) = true.
Proof.
  intros H. apply includes_inv in H as (x & y & ->).
  replace (a ++ (x ++ p ++ y) ++ b) with ((a ++ x) ++ p ++ (y ++ b))
    by (by rewrite <- !app_assoc).
  apply includes_mid.
Qed.

Lemma includes_lower_part (p a s b : jsstring) :
  Js.includes p (toLowerCase s) = true ->
  Js.includes p (toLowerCase (a ++ s ++ b)) = true.
Proof.
  intros H. unfold toLowerCase. rewrite !fmap_app. by apply includes_part.
Qed.

(** A keyword the text does not contain is contained in no line of a
    section of the text. *)
Lemma absent_from_lines (kwLower cvText line : jsstring) (expStart expEnd : nat) :
  expStart <= expEnd ->
  Js.includes kwLower (toLowerCase cvText) = false ->
  line ∈ Js.split NL (Js.substring expStart expEnd cvText) ->
  Js.includes kwLower (toLowerCase line) = false.
Proof.
  intros Hle Habs Hline.
  destruct (Js.includes kwLower (toLowerCase line)) eqn:E; [|done].
  rewrite <- Habs. symmetry.
  destruct (join_elem_split [NL] _ _ Hline) as (P & Q & HPQ & _).
  rewrite join_split in HPQ.
  rewrite (text_in_three cvText expStart expEnd Hle), HPQ.
  apply includes_lower_part, includes_lower_part. exact E.
Qed.

(** When the line contains none of the queued keywords, the [while] loop
    takes keywords from the front of the queue until it holds three. *)
Lemma collect_takes (lineLower : jsstring) :
  forall (queue toInject : list jsstring) (k : nat),
    Forall (fun kw => Js.includes (toLowerCase kw) lineLower = false) queue ->
    WorkExp.collect lineLower queue toInject k
    = (toInject ++ take (3 - length toInject) queue,
       k + Nat.min (3 - length toInject) (length queue)).
Proof.
  induction queue as [|kw queue IH]; intros toInject k Hq.
  - cbn [WorkExp.collect]. by rewrite take_nil, app_nil_r, Nat.min_0_r, Nat.add_0_r.
  - apply list.Forall_cons in Hq as [Hkw Hq]. cbn [WorkExp.collect].
    destruct (length toInject <? 3) eqn:E.
    + apply Nat.ltb_lt in E. rewrite Hkw. cbn [negb].
      rewrite (IH _ _ Hq), length_app. cbn [length].
      replace (3 - length toInject) with (S (3 - (length toInject + 1))) by lia.
      cbn [take]. rewrite <- app_assoc. f_equal. simpl. lia.
    + apply Nat.ltb_ge in E.
      replace (3 - length toInject) with 0 by lia.
      by rewrite take_0, app_nil_r, Nat.min_0_l, Nat.add_0_r.
Qed.

Section TakesPrefix.
Variables (rand : nat -> nat) (missingKws : list jsstring).

Local Abbreviation bulletCount :=
  (fun ls : list jsstring =>
     length (List.filter (fun l => WorkExp.isBullet (Js.trim l)) ls)).

Lemma tailorLine_takes (st : WorkExp.state) (line : jsstring) :
  Forall (fun kw => Js.includes (toLowerCase kw) (toLowerCase line) = false)
    missingKws ->
  let st' := (WorkExp.tailorLine rand missingKws st line).2 in
  let n := if WorkExp.isBullet (Js.trim line) then 3 else 0 in
  WorkExp.injected st'
  = WorkExp.injected st ++ take n (drop (WorkExp.keywordIndex st) missingKws)
  /\ drop (WorkExp.keywordIndex st') missingKws
     = drop (WorkExp.keywordIndex st + n) missingKws.
Proof.
  intros Habs. cbv zeta. unfold WorkExp.tailorLine.
  destruct (WorkExp.isBullet (Js.trim line)); cbn [negb].
  2: { cbn [snd]. by rewrite take_0, app_nil_r, Nat.add_0_r. }
  destruct (length missingKws <=? WorkExp.keywordIndex st) eqn:E.
  { apply Nat.leb_le in E. cbn [snd].
    rewrite !drop_ge by lia. by rewrite take_nil, app_nil_r. }
  apply Nat.leb_gt in E.
  rewrite collect_takes by (by apply Forall_drop).
  cbn [length app]. rewrite Nat.sub_0_r, length_drop.
  set (k := WorkExp.keywordIndex st) in *.
  assert (Hk : drop (k + Nat.min 3 (length missingKws - k)) missingKws
               = drop (k + 3) missingKws).
  { destruct (decide (3 <= length missingKws - k)) as [H|H].
    - by rewrite Nat.min_l.
    - rewrite Nat.min_r by lia. rewrite !drop_ge by lia. done. }
  destruct (length (take 3 (drop k missingKws)) =? 0) eqn:El; cbn [snd
    WorkExp.injected WorkExp.keywordIndex].
  - apply Nat.eqb_eq, nil_length_inv in El. by rewrite El, app_nil_r.
  - done.
Qed.

Lemma mapLines_takes :
  forall (ls : list jsstring) (st : WorkExp.state),
    (forall line, line ∈ ls ->
       Forall (fun kw => Js.includes (toLowerCase kw) (toLowerCase line) = false)
         missingKws) ->
    let st' := (WorkExp.mapLines rand missingKws ls st).2 in
    WorkExp.injected st'
    = WorkExp.injected st
        ++ take (3 * bulletCount ls) (drop (WorkExp.keywordIndex st) missingKws)
    /\ drop (WorkExp.keywordIndex st') missingKws
       = drop (WorkExp.keywordIndex st + 3 * bulletCount ls) missingKws.
Proof.
  induction ls as [|line rest IH]; intros st Habs.
  { cbn. by rewrite take_0, app_nil_r, Nat.add_0_r. }
  cbv zeta. rewrite mapLines_cons. cbv zeta. cbn [snd].
  destruct (tailorLine_takes st line (Habs line (list_elem_of_here _ _)))
    as [Hi1 Hk1].
  set (st1 := (WorkExp.tailorLine rand missingKws st line).2) in *.
  destruct (IH st1 (fun l Hl => Habs l (list_elem_of_further _ _ _ Hl))) as [Hi2 Hk2].
  cbv zeta beta in Hi1, Hk1, Hi2, Hk2. cbv beta.
  rewrite Hi2, Hi1, Hk2. cbn [List.filter].
  set (k := WorkExp.keywordIndex st) in *.
  set (k1 := WorkExp.keywordIndex st1) in *.
  set (b := length (List.filter (fun l => WorkExp.isBullet (Js.trim l)) rest)) in *.
  assert (Hd : forall n, drop (k1 + n) missingKws
                         = drop (k + (if WorkExp.isBullet (Js.trim line) then 3 else 0) + n)
                             missingKws).
  { intros n. rewrite <- (drop_drop missingKws n k1). rewrite Hk1.
    by rewrite drop_drop. }
  pose proof (Hd 0) as Hd0. rewrite !Nat.add_0_r in Hd0.
  destruct (WorkExp.isBullet (Js.trim line)); cbn [length]; fold b.
  - split.
    + rewrite <- app_assoc. f_equal.
      replace (3 * S b) with (3 + 3 * b) by lia.
      rewrite take_add_drop, drop_drop. by rewrite Hd0.
    + rewrite Hd. f_equal. lia.
  - split.
    + rewrite take_0, app_nil_r. by rewrite Hd0, Nat.add_0_r.
    + rewrite Hd. f_equal. lia.
Qed.

End TakesPrefix.

(** X28.  The first step of the fallback of [turboTailorCV] passes on only
    work-experience keywords the text does not contain, so no bullet can
    make [fastTailorWorkExperience] skip one: when the heading is found,
    the keywords reported are exactly the first [3 * b] of them, in order,
    for [b] bullet lines in the section. *)
Theorem work_experience_step_takes_prefix (rand : nat -> nat) (text : jsstring)
    (allKws : list jsstring) (keywords : Keywords.t) (expStart expEnd : nat) :
  WorkExp.bounds text = Some (expStart, expEnd) ->
  let missing :=
    List.filter (fun kw => negb (Js.includes (toLowerCase kw) (toLowerCase text)))
      (default (Js.slice 0 15 allKws) (Keywords.workExperience keywords)) in
  let b :=
    length (List.filter (fun l => WorkExp.isBullet (Js.trim l))
              (Js.split NL (Js.substring expStart expEnd text))) in
  (workExperienceStep rand text allKws keywords).2 = take (3 * b) missing.
Proof.
  intros Hb missing b. unfold workExperienceStep. cbv zeta. fold missing.
  destruct (0 <? length missing) eqn:E; cbn [snd].
  2: { apply Nat.ltb_ge in E. assert (missing = []) as -> by (apply nil_length_inv; lia).
       by rewrite take_nil. }
  rewrite (fastTailor_eq rand text missing expStart expEnd Hb). cbv zeta.
  cbn [WorkExp.injectedKeywords].
  destruct (workExp_bounds_range _ _ _ Hb) as [[Hse _] _].
  destruct (mapLines_takes rand missing
              (Js.split NL (Js.substring expStart expEnd text)) WorkExp.initial)
    as [Hi _].
  - intros line Hline. apply Forall_forall. intros kw Hkw.
    apply (absent_from_lines _ text line expStart expEnd Hse); [|done].
    subst missing. apply filter_In in Hkw as [_ Hkw]. by apply negb_true_iff.
  - cbv zeta in Hi. rewrite Hi. cbn [WorkExp.initial WorkExp.injected
      WorkExp.keywordIndex app]. by rewrite drop_0.
Qed.

Lemma work_experience_step_takes_prefix_witness :
  (workExperienceStep (fun n => n) oneBulletCV (lit "python" :: sampleKeywords 4)
     {| Keywords.all := None; Keywords.highPriority := None;
        Keywords.mediumPriority := None; Keywords.lowPriority := None;
        Keywords.workExperience := None |}).2
  = [lit "kw1"; lit "kw2"; lit "kw3"].
Proof.
  rewrite (work_experience_step_takes_prefix (fun n => n) oneBulletCV
             (lit "python" :: sampleKeywords 4) _ 19 38 ltac:(vm_compute; reflexivity)).
  vm_compute. reflexivity.
Defined.
